(** * Statistics over a movie catalogue: [etapa2_estatisticas_filmes.py]

    A shallow embedding of the class [EstatisticasFilmes] and the properties
    its specification states about it.

    Conventions of the embedding.
    - A Python number is an [int] (unbounded, [Z]) or a [float] (IEEE-754
      binary64).  A finite float is represented by the rational it denotes;
      every float operation computes the exact rational result and rounds it
      to the nearest binary64 value, ties to even ([fl]).  Overflow
      to infinity, NaN and the sign of zero are not represented: the exponent
      range is unbounded above, as in the usual "FLT" format of float
      verification.  Where Python raises [OverflowError], on an int beyond
      the range of floats that is converted or divided, the model rounds;
      the theorems that state that such a computation returns therefore
      bound the ratings and durations ([filme_limitado],
      [nota_no_dominio]).
    - A movie is a record with the five fields the code reads.
    - [self.filmes] is a Python list: the pure functions take its contents as
      a Rocq list; the heap model has the list objects and the in-place
      [sort] explicitly.
    - Code that can raise returns a [resultado] ([Ok] or [Raise]). *)

From Stdlib Require Import ZArith QArith Qpower Qround Qabs Lia Lqa.
From Stdlib Require Import List String Ascii DecimalString DecimalZ Permutation Sorted.
From Stdlib Require Import Floats.PrimFloat Floats.FloatOps Floats.SpecFloat Uint63.
From stdpp Require Import base option list sorting gmap.
Import ListNotations.

(* ===================================================================== *)
(** * Part I: the model *)
(* ===================================================================== *)

(** ** Binary64 rounding on rationals *)

Section Binary64.
Local Open Scope Q_scope.

(** Precision and least exponent of binary64 (subnormals included). *)
Definition prec : Z := 53.
Definition emin : Z := (-1074)%Z.

(** [Qlog2 q] is the integer [e] with [2^e <= q < 2^(e+1)], for [0 < q]. *)
Definition Qlog2 (q : Q) : Z :=
  let k := (Z.log2 (Qnum q) - Z.log2 (Zpos (Qden q)))%Z in
  if Qle_bool (2 ^ k) q then k else (k - 1)%Z.

(** Round to the nearest integer, ties to the even one. *)
Definition Qrne (q : Q) : Z :=
  let f := Qfloor q in
  match Qcompare (q - inject_Z f) (1 # 2) with
  | Lt => f
  | Gt => (f + 1)%Z
  | Eq => if Z.even f then f else (f + 1)%Z
  end.

(** Exponent of the unit in the last place of the binade of [q]. *)
Definition ulp_exp (q : Q) : Z := Z.max (Qlog2 (Qabs q) - (prec - 1)) emin.

(** Rounding at a fixed exponent [s]: the nearest multiple of [2^s]. *)
Definition round_at (s : Z) (q : Q) : Q := inject_Z (Qrne (q / 2 ^ s)) * 2 ^ s.

(** [fl q] is the binary64 value nearest to [q]. *)
Definition fl (q : Q) : Q :=
  if Qeq_bool q 0 then 0 else Qred (round_at (ulp_exp q) q).

(** Reading a primitive (kernel) binary64 float as a rational, to compare
    [fl] with the kernel's own IEEE arithmetic on concrete inputs. *)
Definition SF2Q (x : spec_float) : option Q :=
  match x with
  | S754_zero _ => Some 0
  | S754_finite s m e =>
      Some (Qred ((if s then -1 else 1) * inject_Z (Zpos m) * 2 ^ e))
  | _ => None
  end.

Definition F2Q (x : float) : option Q := SF2Q (Prim2SF x).

End Binary64.

(** ** Python values: exceptions and numbers *)

Inductive excecao := ZeroDivisionError | ValueError | IndexError.

(** The outcome of a call: a value or a raised exception. *)
Inductive resultado (A : Type) :=
  | Ok (a : A)
  | Raise (e : excecao).
Arguments Ok {A} a.
Arguments Raise {A} e.

#[global] Instance resultado_ret : MRet resultado := fun A a => Ok a.
#[global] Instance resultado_bind : MBind resultado := fun A B k m =>
  match m with
  | Ok a => k a
  | Raise e => Raise e
  end.

(** A JSON number loads as an [int] or as a [float]. *)
Inductive numero :=
  | PyInt (z : Z)
  | PyFloat (q : Q).

(** The rational a number denotes; comparisons between numbers are exact. *)
Definition valor (x : numero) : Q :=
  match x with
  | PyInt z => inject_Z z
  | PyFloat q => q
  end.

(** [float(x)]: an int is rounded to the nearest float. *)
Definition to_float (x : numero) : Q :=
  match x with
  | PyInt z => fl (inject_Z z)
  | PyFloat q => q
  end.

Definition py_lt (x y : numero) : bool := negb (Qle_bool (valor y) (valor x)).
Definition py_gt (x y : numero) : bool := py_lt y x.

(** [x + y]: exact on ints, rounded as soon as a float takes part. *)
Definition py_add (x y : numero) : numero :=
  match x, y with
  | PyInt a, PyInt b => PyInt (a + b)
  | _, _ => PyFloat (fl (to_float x + to_float y))
  end.

Definition py_mul (x y : numero) : numero :=
  match x, y with
  | PyInt a, PyInt b => PyInt (a * b)
  | _, _ => PyFloat (fl (to_float x * to_float y))
  end.

(** [x / y]: true division.  On two ints the exact quotient is rounded once. *)
Definition py_truediv (x y : numero) : resultado numero :=
  if Qeq_bool (valor y) 0 then Raise ZeroDivisionError
  else match x, y with
       | PyInt a, PyInt b => Ok (PyFloat (fl (inject_Z a / inject_Z b)))
       | _, _ => Ok (PyFloat (fl (to_float x / to_float y)))
       end.

(** Truncation toward zero: [int(x)] on a float, and C's cast. *)
Definition Qtrunc (q : Q) : Z :=
  if Qle_bool 0 q then Qfloor q else Qceiling q.

(** C's [fmod]: exact, with the sign of the dividend. *)
Definition fmod (x y : Q) : Q := (x - inject_Z (Qtrunc (x / y)) * y)%Q.

Definition Qneg (q : Q) : bool := negb (Qle_bool 0 q).
Definition Qnonzero (q : Q) : bool := negb (Qeq_bool q 0).

(** CPython's [_float_div_mod], the quotient part (operator [//] on floats):
    the divisor [wx] is not zero here. *)
Definition float_floor_div (vx wx : Q) : Q :=
  let resto := fmod vx wx in
  let quoc := fl (fl (vx - resto) / wx) in
  let quoc := if Qnonzero resto && negb (Bool.eqb (Qneg wx) (Qneg resto))
              then fl (quoc - 1) else quoc in
  if Qnonzero quoc then
    let floordiv := inject_Z (Qfloor quoc) in
    if negb (Qle_bool (fl (quoc - floordiv)) (1 # 2)) then fl (floordiv + 1)
    else floordiv
  else 0%Q.

(** CPython's [float_rem] (operator [%] on floats). *)
Definition float_rem (vx wx : Q) : Q :=
  let resto := fmod vx wx in
  if Qnonzero resto && negb (Bool.eqb (Qneg wx) (Qneg resto))
  then fl (resto + wx) else resto.

Definition py_floordiv (x y : numero) : resultado numero :=
  if Qeq_bool (valor y) 0 then Raise ZeroDivisionError
  else match x, y with
       | PyInt a, PyInt b => Ok (PyInt (a / b))
       | _, _ => Ok (PyFloat (float_floor_div (to_float x) (to_float y)))
       end.

Definition py_mod (x y : numero) : resultado numero :=
  if Qeq_bool (valor y) 0 then Raise ZeroDivisionError
  else match x, y with
       | PyInt a, PyInt b => Ok (PyInt (a mod b))
       | _, _ => Ok (PyFloat (float_rem (to_float x) (to_float y)))
       end.

(** [int(x)]. *)
Definition py_int (x : numero) : Z :=
  match x with
  | PyInt z => z
  | PyFloat q => Qtrunc q
  end.

(** [len(l)]. *)
Definition len {A} (l : list A) : Z := Z.of_nat (length l).

(** [l[i]], a negative index counting from the end. *)
Definition py_index {A} (l : list A) (i : Z) : resultado A :=
  let j := if (i <? 0)%Z then (i + len l)%Z else i in
  if (j <? 0)%Z then Raise IndexError
  else match l !! Z.to_nat j with
       | Some x => Ok x
       | None => Raise IndexError
       end.

(** *** The builtin [sum]

    The language defines [sum(l)] as [0 + l[0] + l[1] + ...], left to right
    ([Ingenua]).  CPython 3.12 and later keep, once the running total is a
    float, a Neumaier compensation term for the float items and add it at
    the end ([Compensada]).  Both are modelled; on ints they coincide. *)
Inductive soma_impl := Ingenua | Compensada.

Definition soma_ingenua (l : list numero) : numero :=
  fold_left py_add l (PyInt 0).

(** The float stage of the compensated sum: running total [f] and
    compensation [c]. *)
Fixpoint soma_float (f c : Q) (l : list numero) : Q :=
  match l with
  | [] => if Qnonzero c then fl (f + c) else f
  | PyFloat x :: r =>
      let t := fl (f + x) in
      let c' := if Qle_bool (Qabs x) (Qabs f)
                then fl (c + fl (fl (f - t) + x))
                else fl (c + fl (fl (x - t) + f)) in
      soma_float t c' r
  | PyInt z :: r => soma_float (fl (f + fl (inject_Z z))) c r
  end.

(** The int stage: an exact total until the first float item. *)
Fixpoint soma_compensada_desde (i : Z) (l : list numero) : numero :=
  match l with
  | [] => PyInt i
  | PyInt z :: r => soma_compensada_desde (i + z) r
  | PyFloat x :: r => PyFloat (soma_float (fl (fl (inject_Z i) + x)) 0 r)
  end.

Definition py_sum (impl : soma_impl) (l : list numero) : numero :=
  match impl with
  | Ingenua => soma_ingenua l
  | Compensada => soma_compensada_desde 0 l
  end.

(** *** Ordering: [<] on keys, [max], [min], [sorted] *)

(** The protocol [__lt__] of the keys the code compares. *)
Class Comparavel (K : Type) := menor : K -> K -> bool.

#[global] Instance numero_comparavel : Comparavel numero := py_lt.
#[global] Instance Z_comparavel : Comparavel Z := Z.ltb.

(** The laws of a strict weak order, which both instances satisfy. *)
Class OrdemFraca (K : Type) `{Comparavel K} := {
  menor_irrefl : forall a, menor a a = false;
  menor_trans : forall a b c,
    menor a b = true -> menor b c = true -> menor a c = true;
  menor_cotrans : forall a b c,
    menor a c = true -> menor a b = true \/ menor b c = true
}.

(** The reversed comparison, as [min] and [reverse=True] use it. *)
Definition invertida {K} (H : Comparavel K) : Comparavel K := fun a b => H b a.

(** [max(l, key=key)] keeps the first item with the greatest key: the item
    held is replaced only by one whose key is strictly greater. *)
Fixpoint max_desde {A K} `{Comparavel K} (key : A -> K) (melhor : A)
    (l : list A) : A :=
  match l with
  | [] => melhor
  | x :: r =>
      if menor (key melhor) (key x) then max_desde key x r
      else max_desde key melhor r
  end.

Definition py_max {A K} `{Comparavel K} (key : A -> K) (l : list A)
    : resultado A :=
  match l with
  | [] => Raise ValueError
  | x :: r => Ok (max_desde key x r)
  end.

Fixpoint min_desde {A K} `{Comparavel K} (key : A -> K) (melhor : A)
    (l : list A) : A :=
  match l with
  | [] => melhor
  | x :: r =>
      if menor (key x) (key melhor) then min_desde key x r
      else min_desde key melhor r
  end.

Definition py_min {A K} `{Comparavel K} (key : A -> K) (l : list A)
    : resultado A :=
  match l with
  | [] => Raise ValueError
  | x :: r => Ok (min_desde key x r)
  end.

(** A stable sort: [x] goes in front of the first item that is not
    strictly before it, so items that compare equal keep their order. *)
Fixpoint inserir {A} (antes : A -> A -> bool) (x : A) (l : list A) : list A :=
  match l with
  | [] => [x]
  | y :: r => if antes y x then y :: inserir antes x r else x :: y :: r
  end.

Definition ordenar_estavel {A} (antes : A -> A -> bool) (l : list A)
    : list A :=
  fold_right (inserir antes) [] l.

(** [sorted(l, key=key, reverse=reverse)] and [l.sort(...)]: a stable sort
    by [<] on the keys; with [reverse] every comparison is reversed and ties
    still keep their order.  Every stable sort returns the same list. *)
Definition antes_de {A K} `{Comparavel K} (key : A -> K) (reverse : bool)
    (a b : A) : bool :=
  if reverse then menor (key b) (key a) else menor (key a) (key b).

Definition py_sorted {A K} `{Comparavel K} (key : A -> K) (reverse : bool)
    (l : list A) : list A :=
  ordenar_estavel (antes_de key reverse) l.

(** *** [collections.Counter]

    A [Counter] is a dict: its items are kept in the order in which the keys
    were first inserted, and counting a key again updates it in place. *)
Fixpoint contar (elem : string) (c : list (string * Z)) : list (string * Z) :=
  match c with
  | [] => [(elem, 1%Z)]
  | (k, v) :: r =>
      if String.eqb k elem then (k, (v + 1)%Z) :: r
      else (k, v) :: contar elem r
  end.

Definition Counter (l : list string) : list (string * Z) :=
  fold_left (fun c elem => contar elem c) l [].

(** ** The class [EstatisticasFilmes] *)

(** One movie of the catalogue, with the keys the code reads. *)
Record filme := {
  nome : string;
  avaliacao : numero;
  diretor : string;
  duracao : Z * Z;
  streaming : bool
}.

(** [not l] for a list. *)
Definition vazia {A} (l : list A) : bool :=
  match l with
  | [] => true
  | _ => false
  end.

Definition calcular_media_avaliacao (impl : soma_impl) (filmes : list filme)
    : resultado numero :=
  if vazia filmes then Ok (PyFloat 0)
  else
    let avaliacoes := map avaliacao filmes in
    py_truediv (py_sum impl avaliacoes) (PyInt (len avaliacoes)).

Definition calcular_mediana_avaliacao (filmes : list filme)
    : resultado numero :=
  if vazia filmes then Ok (PyFloat 0)
  else
    let avaliacoes := py_sorted id false (map avaliacao filmes) in
    let n := len avaliacoes in
    if (n mod 2 =? 0)%Z then
      a ← py_index avaliacoes (n / 2 - 1);
      b ← py_index avaliacoes (n / 2);
      py_truediv (py_add a b) (PyInt 2)
    else py_index avaliacoes (n / 2).

Definition filmes_acima_avaliacao (filmes : list filme) (limite : numero)
    (ordenar : bool) : list string :=
  if vazia filmes then []
  else
    let filmes_filtrados :=
      List.filter (fun f => py_gt (avaliacao f) limite) filmes in
    let filmes_filtrados :=
      if ordenar then py_sorted avaliacao true filmes_filtrados
      else filmes_filtrados in
    map nome filmes_filtrados.

(** The defaults of the signature, [limite = 6.0] and [ordenar = True]: an
    argument the caller leaves out is [None]. *)
Definition limite_default : numero := PyFloat 6.
Definition ordenar_default : bool := true.

Definition filmes_acima_avaliacao_kw (filmes : list filme)
    (limite : option numero) (ordenar : option bool) : list string :=
  filmes_acima_avaliacao filmes (default limite_default limite)
    (default ordenar_default ordenar).

Definition filmes_em_streaming (filmes : list filme) : list string :=
  map nome (List.filter streaming filmes).

Definition duracao_em_minutos (duracao_tuple : Z * Z) : Z :=
  (fst duracao_tuple * 60 + snd duracao_tuple)%Z.

(** [extremos_duracao] returns two dicts; [None] stands for the empty dict
    [{}] it returns for an empty catalogue. *)
Definition extremos_duracao (filmes : list filme)
    : resultado (option filme * option filme) :=
  if vazia filmes then Ok (None, None)
  else
    mais_longo ← py_max (fun x => duracao_em_minutos (duracao x)) filmes;
    mais_curto ← py_min (fun x => duracao_em_minutos (duracao x)) filmes;
    Ok (Some mais_longo, Some mais_curto).

Definition moda_diretores (filmes : list filme)
    : resultado (list (string * Z)) :=
  if vazia filmes then Ok []
  else
    let diretores := map diretor filmes in
    let contador := Counter diretores in
    if vazia contador then Ok []
    else
      max_contagem ← py_max id (map snd contador);
      Ok (List.filter (fun item => (snd item =? max_contagem)%Z) contador).

(** What [exibir_estatisticas_adicionais] computes before printing it. *)
Record adicionais := {
  porcentagem : numero;
  melhor_avaliado : filme;
  pior_avaliado : filme;
  duracao_media_min : numero;
  horas : Z;
  minutos : Z
}.

Definition exibir_estatisticas_adicionais (impl : soma_impl)
    (filmes : list filme) : resultado adicionais :=
  let total_streaming := len (filmes_em_streaming filmes) in
  fracao ← py_truediv (PyInt total_streaming) (PyInt (len filmes));
  let porcentagem := py_mul fracao (PyInt 100) in
  melhor_avaliado ← py_max avaliacao filmes;
  pior_avaliado ← py_min avaliacao filmes;
  let duracoes :=
    map (fun f => PyInt (duracao_em_minutos (duracao f))) filmes in
  duracao_media_min ← py_truediv (py_sum impl duracoes) (PyInt (len duracoes));
  h ← py_floordiv duracao_media_min (PyInt 60);
  m ← py_mod duracao_media_min (PyInt 60);
  Ok {| porcentagem := porcentagem;
        melhor_avaliado := melhor_avaliado;
        pior_avaliado := pior_avaliado;
        duracao_media_min := duracao_media_min;
        horas := py_int h;
        minutos := py_int m |}.

(** What [exibir_estatisticas_completas] computes, in the order of its
    calls; the text it prints from these values is left out. *)
Record relatorio := {
  r_total : Z;
  r_media : numero;
  r_mediana : numero;
  r_acima_6 : list string;
  r_streaming : list string;
  r_extremos : option filme * option filme;
  r_moda : list (string * Z);
  r_adicionais : adicionais
}.

(** [None] is the early [return] on an empty catalogue. *)
Definition exibir_estatisticas_completas (impl : soma_impl)
    (filmes : list filme) : resultado (option relatorio) :=
  if vazia filmes then Ok None
  else
    media ← calcular_media_avaliacao impl filmes;
    mediana ← calcular_mediana_avaliacao filmes;
    let filmes_acima_6 := filmes_acima_avaliacao_kw filmes None None in
    let filmes_streaming := filmes_em_streaming filmes in
    extremos ← extremos_duracao filmes;
    moda ← moda_diretores filmes;
    extra ← exibir_estatisticas_adicionais impl filmes;
    Ok (Some {| r_total := len filmes;
                r_media := media;
                r_mediana := mediana;
                r_acima_6 := filmes_acima_6;
                r_streaming := filmes_streaming;
                r_extremos := extremos;
                r_moda := moda;
                r_adicionais := extra |}).

(** The three calls of [demonstrar_funcoes_avaliacao]. *)
Definition demonstrar_funcoes_avaliacao (filmes : list filme)
    : list string * list string * list string :=
  (filmes_acima_avaliacao_kw filmes None None,
   filmes_acima_avaliacao_kw filmes (Some (PyFloat (fl (75 # 10)))) None,
   filmes_acima_avaliacao_kw filmes None (Some false)).

(** [main], from the catalogue that [carregar_dados] returned. *)
Definition main (impl : soma_impl) (filmes : list filme)
    : resultado (option relatorio) :=
  if negb (vazia filmes) then
    r ← exibir_estatisticas_completas impl filmes;
    let _ := demonstrar_funcoes_avaliacao filmes in
    Ok r
  else Ok None.

(** ** The heap: list objects and the in-place [sort]

    A Python list is an object reached through a reference, and [list.sort]
    changes it in place.  Here every list a method builds is allocated at a
    fresh address, [self.filmes] is the address stored in the instance, and
    a method is a state transformer on the heap.  What a method returns is
    given by its contents. *)

Inductive objeto :=
  | ListaFilmes (l : list filme)
  | ListaNumeros (l : list numero)
  | ListaNomes (l : list string)
  | Dicionario (c : list (string * Z))
  | ListaPares (l : list (string * Z)).

Definition estado (A : Type) : Type := gmap nat objeto -> A * gmap nat objeto.

#[global] Instance estado_ret : MRet estado := fun A a h => (a, h).
#[global] Instance estado_bind : MBind estado := fun A B k m h =>
  let '(a, h') := m h in k a h'.
#[global] Instance estado_fmap : FMap estado := fun A B f m h =>
  let '(a, h') := m h in (f a, h').

(** A new object, at an address the heap does not use yet. *)
Definition alocar (o : objeto) : estado nat := fun h =>
  let p := fresh (dom h) in (p, <[p := o]> h).

(** The contents of the list of movies at [p]. *)
Definition ler_filmes (p : nat) : estado (list filme) := fun h =>
  (match h !! p with
   | Some (ListaFilmes l) => l
   | _ => []
   end, h).

(** [l.sort(key=key, reverse=reverse)] on the list at [p]. *)
Definition sort_in_place {K} `{Comparavel K} (p : nat) (key : filme -> K)
    (reverse : bool) : estado unit := fun h =>
  match h !! p with
  | Some (ListaFilmes l) => (tt, <[p := ListaFilmes (py_sorted key reverse l)]> h)
  | _ => (tt, h)
  end.

(** An instance: [self.filmes] is a reference. *)
Record instancia := {
  arquivo_json : string;
  filmes_ref : nat
}.

Definition m_calcular_media_avaliacao (impl : soma_impl) (self : instancia)
    : estado (resultado numero) :=
  filmes ← ler_filmes (filmes_ref self);
  if vazia filmes then mret (Ok (PyFloat 0))
  else
    let avaliacoes := map avaliacao filmes in
    _ ← alocar (ListaNumeros avaliacoes);
    mret (py_truediv (py_sum impl avaliacoes) (PyInt (len avaliacoes))).

Definition m_calcular_mediana_avaliacao (self : instancia)
    : estado (resultado numero) :=
  filmes ← ler_filmes (filmes_ref self);
  if vazia filmes then mret (Ok (PyFloat 0))
  else
    let avaliacoes := py_sorted id false (map avaliacao filmes) in
    _ ← alocar (ListaNumeros avaliacoes);
    let n := len avaliacoes in
    mret (if (n mod 2 =? 0)%Z then
            a ← py_index avaliacoes (n / 2 - 1);
            b ← py_index avaliacoes (n / 2);
            py_truediv (py_add a b) (PyInt 2)
          else py_index avaliacoes (n / 2)).

Definition m_filmes_acima_avaliacao (self : instancia) (limite : numero)
    (ordenar : bool) : estado (list string) :=
  filmes ← ler_filmes (filmes_ref self);
  if vazia filmes then
    _ ← alocar (ListaNomes []); mret []
  else
    p ← alocar (ListaFilmes
                  (List.filter (fun f => py_gt (avaliacao f) limite) filmes));
    _ ← (if ordenar then sort_in_place p avaliacao true else mret tt);
    filmes_filtrados ← ler_filmes p;
    let nomes := map nome filmes_filtrados in
    _ ← alocar (ListaNomes nomes);
    mret nomes.

Definition m_filmes_em_streaming (self : instancia) : estado (list string) :=
  filmes ← ler_filmes (filmes_ref self);
  let nomes := map nome (List.filter streaming filmes) in
  _ ← alocar (ListaNomes nomes);
  mret nomes.

Definition m_extremos_duracao (self : instancia)
    : estado (resultado (option filme * option filme)) :=
  filmes ← ler_filmes (filmes_ref self);
  mret (extremos_duracao filmes).

Definition m_moda_diretores (self : instancia)
    : estado (resultado (list (string * Z))) :=
  filmes ← ler_filmes (filmes_ref self);
  if vazia filmes then
    _ ← alocar (ListaPares []); mret (Ok [])
  else
    let diretores := map diretor filmes in
    _ ← alocar (ListaNomes diretores);
    let contador := Counter diretores in
    _ ← alocar (Dicionario contador);
    if vazia contador then
      _ ← alocar (ListaPares []); mret (Ok [])
    else
      match py_max id (map snd contador) with
      | Ok max_contagem =>
          let moda :=
            List.filter (fun item => (snd item =? max_contagem)%Z) contador in
          _ ← alocar (ListaPares moda);
          mret (Ok moda)
      | Raise e => mret (Raise e)
      end.

Definition m_exibir_estatisticas_adicionais (impl : soma_impl)
    (self : instancia) : estado (resultado adicionais) :=
  filmes ← ler_filmes (filmes_ref self);
  _ ← alocar (ListaNomes (filmes_em_streaming filmes));
  _ ← alocar (ListaNumeros
                (map (fun f => PyInt (duracao_em_minutos (duracao f))) filmes));
  mret (exibir_estatisticas_adicionais impl filmes).

(** The aggregate operations of the engine, with their arguments. *)
Inductive operacao :=
  | OpMedia (impl : soma_impl)
  | OpMediana
  | OpAcima (limite : option numero) (ordenar : option bool)
  | OpStreaming
  | OpExtremosDuracao
  | OpModa
  | OpAdicionais (impl : soma_impl).

Inductive retorno :=
  | RNumero (r : resultado numero)
  | RNomes (l : list string)
  | RExtremos (r : resultado (option filme * option filme))
  | RModa (r : resultado (list (string * Z)))
  | RAdicionais (r : resultado adicionais).

Definition executar (op : operacao) (self : instancia) : estado retorno :=
  match op with
  | OpMedia impl => RNumero <$> m_calcular_media_avaliacao impl self
  | OpMediana => RNumero <$> m_calcular_mediana_avaliacao self
  | OpAcima limite ordenar =>
      RNomes <$> m_filmes_acima_avaliacao self
                   (default limite_default limite)
                   (default ordenar_default ordenar)
  | OpStreaming => RNomes <$> m_filmes_em_streaming self
  | OpExtremosDuracao => RExtremos <$> m_extremos_duracao self
  | OpModa => RModa <$> m_moda_diretores self
  | OpAdicionais impl => RAdicionais <$> m_exibir_estatisticas_adicionais impl self
  end.

(** The value each operation denotes on the contents of [self.filmes]. *)
Definition retorno_de (op : operacao) (filmes : list filme) : retorno :=
  match op with
  | OpMedia impl => RNumero (calcular_media_avaliacao impl filmes)
  | OpMediana => RNumero (calcular_mediana_avaliacao filmes)
  | OpAcima limite ordenar =>
      RNomes (filmes_acima_avaliacao_kw filmes limite ordenar)
  | OpStreaming => RNomes (filmes_em_streaming filmes)
  | OpExtremosDuracao => RExtremos (extremos_duracao filmes)
  | OpModa => RModa (moda_diretores filmes)
  | OpAdicionais impl => RAdicionais (exibir_estatisticas_adicionais impl filmes)
  end.

(** A method [m] returns [v] from the heap [h] and leaves every object of
    [h] as it was: the heap after the call extends [h]. *)
Definition retorna {A} (m : estado A) (v : A) (h : gmap nat objeto) : Prop :=
  exists h', m h = (v, h') /\ h ⊆ h'.

(** ** Notions the specification uses *)

(** The rating and the duration in minutes of a movie. *)
Definition nota (f : filme) : Q := valor (avaliacao f).
Definition minutos_de (f : filme) : Z := duracao_em_minutos (duracao f).

(** Two items tie: neither is strictly before the other. *)
Definition empatados {A} (antes : A -> A -> bool) (x y : A) : bool :=
  negb (antes x y) && negb (antes y x).

(** [f] is in the catalogue and no movie has a key beyond it, and it is the
    first such movie: every movie before it is strictly inside. *)
Definition primeiro_maximo {A K} `{Comparavel K} (key : A -> K) (l : list A)
    (x : A) : Prop :=
  exists i, l !! i = Some x /\
    (forall y, In y l -> menor (key x) (key y) = false) /\
    (forall j y, l !! j = Some y -> (j < i)%nat -> menor (key y) (key x) = true).

Definition primeiro_minimo {A K} `{Comparavel K} (key : A -> K) (l : list A)
    (x : A) : Prop :=
  exists i, l !! i = Some x /\
    (forall y, In y l -> menor (key y) (key x) = false) /\
    (forall j y, l !! j = Some y -> (j < i)%nat -> menor (key x) (key y) = true).

(** How many movies of the catalogue a director directed. *)
Definition ocorrencias (d : string) (filmes : list filme) : Z :=
  len (List.filter (fun f => String.eqb (diretor f) d) filmes).

(** How often a name occurs in a list. *)
Definition conta (d : string) (l : list string) : Z :=
  len (List.filter (fun x => String.eqb x d) l).

(** A counter [c] holds the counts of the names of [l]. *)
Definition contador_de (c : list (string * Z)) (l : list string) : Prop :=
  List.NoDup (map fst c) /\
  forall k v, In (k, v) c <-> In k l /\ v = conta k l.

(** The position at which a director first appears. *)
Fixpoint primeiro_indice (d : string) (l : list string) : nat :=
  match l with
  | [] => 0
  | x :: r => if String.eqb x d then 0 else S (primeiro_indice d r)
  end.

(** The sum of a list of integers, exactly. *)
Definition soma_Z (l : list Z) : Z := fold_right Z.add 0%Z l.

(** A value lies between the least and the greatest rating present. *)
Definition entre_extremos (filmes : list filme) (m : numero) : Prop :=
  exists lo hi, In lo filmes /\ In hi filmes /\
    (forall f, In f filmes -> (nota lo <= nota f)%Q /\ (nota f <= nota hi)%Q) /\
    (nota lo <= valor m)%Q /\ (valor m <= nota hi)%Q.

(** A rating that is an int a float holds exactly. *)
Definition nota_inteira (f : filme) : Prop :=
  exists z, avaliacao f = PyInt z /\ (Z.abs z < 2 ^ 53)%Z.

(** A rational that a float holds exactly. *)
Definition representavel (q : Q) : Prop := (fl q == q)%Q.

(** A number as JSON gives it: an int below 2^53, or a finite float, here
    one so far from the largest float that the sum of two does not overflow. *)
Definition numero_exato (x : numero) : Prop :=
  match x with
  | PyInt z => (Z.abs z < 2 ^ 53)%Z
  | PyFloat q => representavel q /\ (Qabs q <= 2 ^ 1022)%Q
  end.

Definition nota_exata (f : filme) : Prop := numero_exato (avaliacao f).

(** A movie whose numbers stay far inside the range of floats: a rating and
    a duration in minutes of at most 2^53 in magnitude.  Beyond the range of
    floats Python raises [OverflowError] when an int is converted or
    divided, and a float sum becomes infinite, which the model does not
    represent. *)
Definition filme_limitado (f : filme) : Prop :=
  nota_exata f /\ (Qabs (nota f) <= 2 ^ 53)%Q /\
  (Z.abs (minutos_de f) < 2 ^ 53)%Z.

(** How many movies have the streaming flag set. *)
Fixpoint conta_streaming (filmes : list filme) : Z :=
  match filmes with
  | [] => 0%Z
  | f :: r => ((if streaming f then 1 else 0) + conta_streaming r)%Z
  end.

(** The relative error of one rounding, 2^-53, and half the least positive
    float, 2^-1075. *)
Definition unidade : Q := (2 ^ (-53))%Q.
Definition eta : Q := (2 ^ (emin - 1))%Q.

(** A multiple of the least positive float, 2^-1074. *)
Definition na_grade (x : Q) : Prop :=
  exists m : Z, (x == inject_Z m * 2 ^ emin)%Q.

(** The sum of a list of numbers, exactly. *)
Definition soma_exata (l : list numero) : Q :=
  fold_right (fun x s => (valor x + s)%Q) 0%Q l.

(** The running total of the sum from left to right, after items of exact
    sum [s], where [h] bounds the exact sums: an exact int, or a float
    within [k] roundings of [s]. *)
Definition total_ate (h : Q) (acc : numero) (s : Q) (k : Z) : Prop :=
  match acc with
  | PyInt i => (0 <= i)%Z /\ (inject_Z i == s)%Q
  | PyFloat f =>
      na_grade f /\ (0 <= f)%Q /\
      (s - 2 * (inject_Z k * (unidade * h)) <= f)%Q /\
      (f <= s + 2 * (inject_Z k * (unidade * h)))%Q
  end.

(** The arithmetic mean of the ratings, exactly. *)
Definition media_exata (filmes : list filme) : Q :=
  (soma_exata (map avaliacao filmes) / inject_Z (len filmes))%Q.

(** The rounding error allowed to the mean of a catalogue whose greatest
    rating is [hi]: [(n + 3) * 2^-50 * hi], and half the least float. *)
Definition tolerancia (filmes : list filme) (hi : Q) : Q :=
  (inject_Z (len filmes + 3) * (8 * unidade) * hi + eta)%Q.

(** A rating in the domain of the data model, 0 to 10. *)
Definition nota_no_dominio (f : filme) : Prop :=
  (0 <= nota f)%Q /\ (nota f <= 10)%Q.

(** ** Example catalogues of the specification *)

Definition filme_de (n : string) (r : numero) (d : string) (h m : Z)
    (s : bool) : filme :=
  {| nome := n; avaliacao := r; diretor := d; duracao := (h, m);
     streaming := s |}.

Definition notas_5678 : list filme :=
  [filme_de "f5" (PyInt 5) "A" 1 30 true;
   filme_de "f6" (PyInt 6) "B" 2 0 false;
   filme_de "f7" (PyInt 7) "A" 1 30 true;
   filme_de "f8" (PyInt 8) "B" 2 0 true].


Definition notas_2468 : list filme :=
  [filme_de "f2" (PyInt 2) "A" 1 30 true;
   filme_de "f4" (PyInt 4) "B" 2 0 false;
   filme_de "f6" (PyInt 6) "C" 1 30 true;
   filme_de "f8" (PyInt 8) "D" 1 30 true].

Definition diretores_ABABC : list filme :=
  [filme_de "f1" (PyInt 5) "A" 1 30 true;
   filme_de "f2" (PyInt 6) "B" 2 0 false;
   filme_de "f3" (PyInt 7) "A" 1 30 true;
   filme_de "f4" (PyInt 8) "B" 2 0 true;
   filme_de "f5" (PyInt 8) "C" 2 0 true].

(** Ratings 7, 8, 7.0, 8: two ties. *)
Definition notas_empate : list filme :=
  [filme_de "a" (PyInt 7) "A" 1 30 true;
   filme_de "b" (PyInt 8) "B" 2 0 false;
   filme_de "c" (PyFloat 7) "C" 1 30 true;
   filme_de "d" (PyInt 8) "D" 1 30 true].

(** Ratings 8.7, 9.2, 7.8 and ratings 7.5, 8.25, 9.0, as floats. *)
Definition notas_879278 : list filme :=
  [filme_de "a" (PyFloat (fl (87 # 10))) "A" 1 30 true;
   filme_de "b" (PyFloat (fl (92 # 10))) "B" 2 0 false;
   filme_de "c" (PyFloat (fl (78 # 10))) "C" 1 30 true].

Definition notas_quartos : list filme :=
  [filme_de "a" (PyFloat (75 # 10)) "A" 1 30 true;
   filme_de "b" (PyFloat (825 # 100)) "B" 2 0 false;
   filme_de "c" (PyFloat 9) "C" 1 30 true].

(** Three movies rated 0.1, the float nearest to one tenth. *)
Definition notas_decimos : list filme :=
  [filme_de "d1" (PyFloat (fl (1 # 10))) "A" 1 30 true;
   filme_de "d2" (PyFloat (fl (1 # 10))) "B" 2 0 false;
   filme_de "d3" (PyFloat (fl (1 # 10))) "C" 1 30 true].

(** An instance whose catalogue is the list at address 0. *)
Definition self_exemplo : instancia :=
  {| arquivo_json := "catalogo_filmes.json"; filmes_ref := 0 |}.

Definition heap_exemplo : gmap nat objeto :=
  {[ 0%nat := ListaFilmes notas_5678 ]}.

(** One movie that lasts 540431955284460096 minutes, that is
    [60 * (2^53 + 9) + 36]. *)
Definition duracao_enorme : list filme :=
  [filme_de "longo" (PyInt 5) "A" 0 540431955284460096 true].

(** Pairs of integers on which [fl] is compared with the kernel's floats:
    small and large operands, quotients that are exact, inexact, ties. *)
Definition amostra : list (Z * Z) :=
  [(1, 3); (1, 10); (2, 3); (7, 10); (100, 3); (105, 1); (1, 1024);
   (9007199254740993, 1); (9007199254740993, 7); (540431955284460096, 60);
   (540431955284460032, 60); (123456789012345678, 1000003);
   (3, 9007199254740993); (1, 4611686018427387903)]%Z.

Definition de_Z (z : Z) : float := PrimFloat.of_uint63 (Uint63.of_Z z).

(** The four operations on the floats [a] and [a / b], by the kernel and by
    the model. *)
Definition confere (p : Z * Z) : bool :=
  let '(a, b) := p in
  let x := de_Z a in
  let y := (de_Z a / de_Z b)%float in
  let xq := fl (inject_Z a) in
  let yq := fl (fl (inject_Z a) / fl (inject_Z b)) in
  match F2Q x, F2Q y, F2Q (x + y)%float, F2Q (x - y)%float,
        F2Q (x * y)%float, F2Q (y / x)%float with
  | Some q0, Some q1, Some q2, Some q3, Some q4, Some q5 =>
      Qeq_bool q0 xq && Qeq_bool q1 yq && Qeq_bool q2 (fl (xq + yq)) &&
      Qeq_bool q3 (fl (xq - yq)) && Qeq_bool q4 (fl (xq * yq)) &&
      Qeq_bool q5 (fl (yq / xq))
  | _, _, _, _, _, _ => false
  end.

(** ** The rest of the class: formatting and the lines of the report *)

(** [str(z)]: the decimal digits of an int, with a minus sign when it is
    negative. *)
Definition str_int (z : Z) : string :=
  DecimalString.NilEmpty.string_of_int (Z.to_int z).

(** The format [02d]: zero padding to two characters, the sign included. *)
Definition formato_02d (z : Z) : string :=
  if (0 <=? z)%Z && (z <=? 9)%Z then String "0" (str_int z) else str_int z.

Definition formatar_duracao (duracao_tuple : Z * Z) : string :=
  let '(horas, minutos) := duracao_tuple in
  (str_int horas ++ "h" ++ formato_02d minutos ++ "min")%string.

(** The text that [exibir_estatisticas_adicionais] prints for the mean
    duration, without its prefix. *)
Definition duracao_media_exibida (a : adicionais) : string :=
  (str_int (horas a) ++ "h" ++ formato_02d (minutos a) ++ "min")%string.

(** [enumerate(l, inicio)]. *)
Fixpoint enumerate {A} (inicio : Z) (l : list A) : list (Z * A) :=
  match l with
  | [] => []
  | x :: r => (inicio, x) :: enumerate (inicio + 1)%Z r
  end.

(** The rating printed beside a name of [filmes_acima_6]: the rating of the
    first movie of the catalogue with that name; [None] is the default
    ["N/A"] of [next]. *)
Definition avaliacao_exibida (filmes : list filme) (filme : string)
    : option numero :=
  match List.find (fun f => String.eqb (nome f) filme) filmes with
  | Some f => Some (avaliacao f)
  | None => None
  end.

(** The numbered lines of the movies above 6.0. *)
Definition linhas_acima_6 (filmes : list filme)
    : list (Z * string * option numero) :=
  map (fun '(i, filme) => (i, filme, avaliacao_exibida filmes filme))
    (enumerate 1 (filmes_acima_avaliacao_kw filmes None None)).

(** The names printed under a most frequent director. *)
Definition filmes_diretor (filmes : list filme) (d : string) : list string :=
  map nome (List.filter (fun f => String.eqb (diretor f) d) filmes).

(** The directors of the mode, each with its count and its movies. *)
Definition linhas_moda (filmes : list filme)
    : resultado (list (string * Z * list string)) :=
  moda ← moda_diretores filmes;
  Ok (map (fun '(d, contagem) => (d, contagem, filmes_diretor filmes d)) moda).

(** ** The report and the program on the heap *)

(** A call that can raise, inside a method: when it raises, the rest of the
    method does not run. *)
Definition tentar {A B} (m : estado (resultado A))
    (k : A -> estado (resultado B)) : estado (resultado B) :=
  r ← m;
  match r with
  | Ok a => k a
  | Raise e => mret (Raise e)
  end.

Definition m_exibir_estatisticas_completas (impl : soma_impl)
    (self : instancia) : estado (resultado (option relatorio)) :=
  filmes ← ler_filmes (filmes_ref self);
  if vazia filmes then mret (Ok None)
  else
    total ← len <$> ler_filmes (filmes_ref self);
    tentar (m_calcular_media_avaliacao impl self) (fun media =>
    tentar (m_calcular_mediana_avaliacao self) (fun mediana =>
    filmes_acima_6 ←
      m_filmes_acima_avaliacao self limite_default ordenar_default;
    filmes_streaming ← m_filmes_em_streaming self;
    tentar (m_extremos_duracao self) (fun extremos =>
    tentar (m_moda_diretores self) (fun moda =>
    tentar (m_exibir_estatisticas_adicionais impl self) (fun extra =>
    mret (Ok (Some {| r_total := total;
                      r_media := media;
                      r_mediana := mediana;
                      r_acima_6 := filmes_acima_6;
                      r_streaming := filmes_streaming;
                      r_extremos := extremos;
                      r_moda := moda;
                      r_adicionais := extra |}))))))).



(** How many ratings are at most, and at least, a value. *)
Definition notas_ate (filmes : list filme) (x : Q) : Z :=
  len (List.filter (fun f => Qle_bool (nota f) x) filmes).
Definition notas_desde (filmes : list filme) (x : Q) : Z :=
  len (List.filter (fun f => Qle_bool x (nota f)) filmes).

(** Two movies of one name, the first rated 5 and the second 8. *)
Definition homonimos : list filme :=
  [filme_de "x" (PyInt 5) "A" 1 30 true;
   filme_de "x" (PyInt 8) "B" 2 0 false].

(** A text without the letter [h]. *)
Fixpoint sem_h (s : string) : bool :=
  match s with
  | EmptyString => true
  | String c r => negb (Ascii.eqb c "h") && sem_h r
  end.

(** A rating that is an int, of any size. *)
Definition nota_int (f : filme) : Prop := exists z, avaliacao f = PyInt z.

(** Ratings 0.1, 0.2, 0.3, each the float nearest to it. *)
Definition notas_123 : list filme :=
  [filme_de "a" (PyFloat (fl (1 # 10))) "A" 1 30 true;
   filme_de "b" (PyFloat (fl (2 # 10))) "B" 1 30 true;
   filme_de "c" (PyFloat (fl (3 # 10))) "C" 1 30 true].

(* ===================================================================== *)
(** * Part II: properties *)
(* ===================================================================== *)

Section Binary64Facts.
Local Open Scope Q_scope.

(** ** Powers of two *)

Lemma pow2_pos (e : Z) : 0 < 2 ^ e.
Proof. apply Qpower_0_lt. reflexivity. Qed.

Lemma pow2_nz (e : Z) : ~ 2 ^ e == 0.
Proof. intros H. pose proof (pow2_pos e) as P. rewrite H in P. discriminate. Qed.

Lemma pow2_le (a b : Z) : (a <= b)%Z -> 2 ^ a <= 2 ^ b.
Proof. intros H. apply Qpower_le_compat_l; [exact H | discriminate]. Qed.

Lemma pow2_lt (a b : Z) : (a < b)%Z -> 2 ^ a < 2 ^ b.
Proof. intros H. apply Qpower_lt_compat_l; [exact H | reflexivity]. Qed.

Lemma pow2_lt_inv (a b : Z) : 2 ^ a < 2 ^ b -> (a < b)%Z.
Proof. intros H. apply (Qpower_lt_compat_l_inv 2); [exact H | reflexivity]. Qed.

Lemma pow2_add (a b : Z) : 2 ^ (a + b) == 2 ^ a * 2 ^ b.
Proof. apply Qpower_plus. discriminate. Qed.

Lemma pow2_sub (a b : Z) : 2 ^ (a - b) == 2 ^ a / 2 ^ b.
Proof. apply Qpower_minus. discriminate. Qed.

Lemma pow2_Z (n : Z) : (0 <= n)%Z -> 2 ^ n == inject_Z (2 ^ n).
Proof. intros H. symmetry. apply (Zpower_Qpower 2 n H). Qed.

(** ** The binade of a positive rational *)

Lemma Qlog2_spec (q : Q) : 0 < q -> 2 ^ Qlog2 q <= q /\ q < 2 ^ (Qlog2 q + 1).
Proof.
  intros Hq. unfold Qlog2.
  destruct q as [n d]. cbn [Qnum Qden].
  assert (Hn : (0 < n)%Z).
  { unfold Qlt in Hq. cbn in Hq. lia. }
  destruct (Z.log2_spec n Hn) as [Hn1 Hn2].
  destruct (Z.log2_spec (Zpos d) (Pos2Z.is_pos d)) as [Hd1 Hd2].
  set (a := Z.log2 n) in *. set (b := Z.log2 (Zpos d)) in *.
  assert (Ha : (0 <= a)%Z) by apply Z.log2_nonneg.
  assert (Hb : (0 <= b)%Z) by apply Z.log2_nonneg.
  assert (Eq : n # d == inject_Z n / inject_Z (Zpos d)) by apply Qmake_Qdiv.
  assert (Dpos : 0 < inject_Z (Zpos d)) by (unfold Qlt; cbn; lia).
  assert (Up : n # d < 2 ^ (a - b + 1)).
  { rewrite Eq. apply Qlt_shift_div_r; [exact Dpos |].
    apply Qlt_le_trans with (2 ^ (a + 1)).
    - rewrite pow2_Z by lia. rewrite <- Zlt_Qlt.
      replace (Z.succ a) with (a + 1)%Z in Hn2 by lia. exact Hn2.
    - replace (a + 1)%Z with ((a - b + 1) + b)%Z by lia.
      rewrite pow2_add. apply Qmult_le_l; [apply pow2_pos |].
      rewrite pow2_Z by lia. rewrite <- Zle_Qle. exact Hd1. }
  assert (Lo : 2 ^ (a - b - 1) <= n # d).
  { rewrite Eq. apply Qle_shift_div_l; [exact Dpos |].
    apply Qle_trans with (2 ^ a).
    - replace a with ((a - b - 1) + (b + 1))%Z at 2 by lia.
      rewrite pow2_add. apply Qmult_le_l; [apply pow2_pos |].
      rewrite (pow2_Z (b + 1)) by lia. rewrite <- Zle_Qle.
      replace (Z.succ b) with (b + 1)%Z in Hd2 by lia. lia.
    - rewrite pow2_Z by lia. rewrite <- Zle_Qle. exact Hn1. }
  destruct (Qle_bool (2 ^ (a - b)) (n # d)) eqn:E.
  - apply Qle_bool_iff in E. split; [exact E | exact Up].
  - split; [exact Lo |].
    replace (a - b - 1 + 1)%Z with (a - b)%Z by lia.
    apply Qnot_le_lt. intros H. apply Qle_bool_iff in H. congruence.
Qed.

Lemma Qlog2_unique (q : Q) (e : Z) :
  2 ^ e <= q -> q < 2 ^ (e + 1) -> Qlog2 q = e.
Proof.
  intros H1 H2.
  assert (Hq : 0 < q) by (eapply Qlt_le_trans; [apply (pow2_pos e) | exact H1]).
  destruct (Qlog2_spec q Hq) as [L1 L2].
  assert (A : (e < Qlog2 q + 1)%Z).
  { apply pow2_lt_inv. eapply Qle_lt_trans; eassumption. }
  assert (B : (Qlog2 q < e + 1)%Z).
  { apply pow2_lt_inv. eapply Qle_lt_trans; eassumption. }
  lia.
Qed.

Lemma Qlog2_mono (x y : Q) : 0 < x -> x <= y -> (Qlog2 x <= Qlog2 y)%Z.
Proof.
  intros Hx Hxy.
  assert (Hy : 0 < y) by (eapply Qlt_le_trans; eassumption).
  destruct (Qlog2_spec x Hx) as [X1 _]. destruct (Qlog2_spec y Hy) as [_ Y2].
  assert (A : (Qlog2 x < Qlog2 y + 1)%Z).
  { apply pow2_lt_inv. eapply Qle_lt_trans; [exact X1 |].
    eapply Qle_lt_trans; eassumption. }
  lia.
Qed.


(** ** Rounding to the nearest integer *)

Ltac inj1 := change (inject_Z 1) with 1 in *; change (inject_Z (-1)) with (-1) in *.

Lemma Qrne_bounds (q : Q) :
  inject_Z (Qrne q) - (1 # 2) <= q /\ q <= inject_Z (Qrne q) + (1 # 2).
Proof.
  unfold Qrne. pose proof (Qfloor_le q) as L. pose proof (Qlt_floor q) as U.
  rewrite inject_Z_plus in U. inj1.
  destruct (Qcompare_spec (q - inject_Z (Qfloor q)) (1 # 2)) as [E|E|E].
  - destruct (Z.even (Qfloor q)); [| rewrite inject_Z_plus; inj1]; lra.
  - lra.
  - rewrite inject_Z_plus. inj1. lra.
Qed.

Lemma Qrne_Z (z : Z) : Qrne (inject_Z z) = z.
Proof.
  unfold Qrne. rewrite Qfloor_Z.
  destruct (Qcompare_spec (inject_Z z - inject_Z z) (1 # 2)) as [E|E|E]; [lra | reflexivity | lra].
Qed.

#[local] Instance Qrne_proper : Proper (Qeq ==> eq) Qrne.
Proof.
  intros x y E. unfold Qrne. rewrite <- (Qfloor_comp x y E).
  assert (E' : x - inject_Z (Qfloor x) == y - inject_Z (Qfloor x)) by lra.
  rewrite (Qcompare_comp _ _ E' (1#2) (1#2) (Qeq_refl _)). reflexivity.
Qed.

Lemma Qrne_mono (x y : Q) : x <= y -> (Qrne x <= Qrne y)%Z.
Proof.
  intros H. pose proof (Qfloor_resp_le x y H) as F.
  pose proof (Qfloor_le x) as Lx. pose proof (Qlt_floor x) as Ux.
  pose proof (Qfloor_le y) as Ly. pose proof (Qlt_floor y) as Uy.
  rewrite inject_Z_plus in Ux, Uy. inj1.
  unfold Qrne.
  destruct (Z.eq_dec (Qfloor x) (Qfloor y)) as [E|NE].
  - rewrite <- E in *.
    destruct (Qcompare_spec (x - inject_Z (Qfloor x)) (1 # 2)) as [Ex|Ex|Ex];
    destruct (Qcompare_spec (y - inject_Z (Qfloor x)) (1 # 2)) as [Ey|Ey|Ey];
    try destruct (Z.even (Qfloor x)); try lia; exfalso; lra.
  - assert (F' : (Qfloor x + 1 <= Qfloor y)%Z) by lia.
    destruct (Qcompare (x - inject_Z (Qfloor x)) (1 # 2));
    destruct (Qcompare (y - inject_Z (Qfloor y)) (1 # 2));
    try destruct (Z.even (Qfloor x)); try destruct (Z.even (Qfloor y)); lia.
Qed.

Lemma Qfloor_unique (q : Q) (z : Z) :
  inject_Z z <= q -> q < inject_Z z + 1 -> Qfloor q = z.
Proof.
  intros L U.
  pose proof (Qfloor_resp_le _ _ L) as A. rewrite Qfloor_Z in A.
  pose proof (Qfloor_le q) as B.
  assert (C : inject_Z (Qfloor q) < inject_Z (z + 1)).
  { rewrite inject_Z_plus. inj1. lra. }
  rewrite <- Zlt_Qlt in C. lia.
Qed.

Lemma Qfloor_opp_frac (x : Q) :
  ~ x == inject_Z (Qfloor x) -> Qfloor (- x) = (- Qfloor x - 1)%Z.
Proof.
  intros NE. pose proof (Qfloor_le x) as L. pose proof (Qlt_floor x) as U.
  rewrite inject_Z_plus in U. inj1.
  assert (A : inject_Z (Qfloor x) < x).
  { apply Qle_lteq in L. destruct L as [L|L]; [exact L |].
    exfalso. apply NE. symmetry. exact L. }
  apply Qfloor_unique.
  - unfold Z.sub. rewrite inject_Z_plus, !inject_Z_opp. inj1. lra.
  - unfold Z.sub. rewrite inject_Z_plus, !inject_Z_opp. inj1. lra.
Qed.

Lemma Qrne_opp (x : Q) : Qrne (- x) = (- Qrne x)%Z.
Proof.
  destruct (Qeq_dec x (inject_Z (Qfloor x))) as [E|NE].
  - rewrite (Qrne_proper _ _ E), Qrne_Z.
    assert (E' : - x == inject_Z (- Qfloor x)) by (rewrite inject_Z_opp; lra).
    rewrite (Qrne_proper _ _ E'), Qrne_Z. reflexivity.
  - pose proof (Qfloor_opp_frac x NE) as F.
    pose proof (Qfloor_le x) as L.
    unfold Qrne. rewrite F.
    unfold Z.sub. rewrite !inject_Z_plus, !inject_Z_opp. inj1.
    destruct (Qcompare_spec (x - inject_Z (Qfloor x)) (1 # 2)) as [Ex|Ex|Ex];
    match goal with
    | |- context [Qcompare ?a ?b] =>
        destruct (Qcompare_spec a b) as [Ey|Ey|Ey]
    end; try (exfalso; lra).
    + rewrite Z.even_add, !Z.even_opp. change (Z.even 1) with false.
      destruct (Z.even (Qfloor x)); cbn; lia.
    + lia.
    + lia.
Qed.

(** ** Rounding at a fixed exponent *)

Lemma round_at_mono (s : Z) (x y : Q) : x <= y -> round_at s x <= round_at s y.
Proof.
  intros H. unfold round_at.
  apply Qmult_le_compat_r; [| apply Qlt_le_weak, pow2_pos].
  rewrite <- Zle_Qle. apply Qrne_mono.
  apply Qmult_le_compat_r; [exact H |].
  apply Qlt_le_weak, Qinv_lt_0_compat, pow2_pos.
Qed.

Lemma round_at_exact (s m : Z) (q : Q) :
  q == inject_Z m * 2 ^ s -> round_at s q == q.
Proof.
  intros E. unfold round_at.
  assert (D : q / 2 ^ s == inject_Z m).
  { rewrite E. apply Qdiv_mult_l. apply pow2_nz. }
  rewrite (Qrne_proper _ _ D), Qrne_Z. symmetry. exact E.
Qed.

Lemma round_at_pow2 (s e : Z) : (s <= e)%Z -> round_at s (2 ^ e) == 2 ^ e.
Proof.
  intros H. apply (round_at_exact s (2 ^ (e - s))).
  rewrite <- pow2_Z by lia. rewrite <- pow2_add.
  replace (e - s + s)%Z with e by lia. reflexivity.
Qed.

Lemma round_at_opp (s : Z) (q : Q) : round_at s (- q) == - round_at s q.
Proof.
  unfold round_at.
  assert (D : - q / 2 ^ s == - (q / 2 ^ s)) by (field; apply pow2_nz).
  rewrite (Qrne_proper _ _ D), Qrne_opp, inject_Z_opp. ring.
Qed.

(** ** The rounding [fl] *)

Lemma Qlog2_proper (x y : Q) : 0 < x -> x == y -> Qlog2 x = Qlog2 y.
Proof.
  intros Hx E. destruct (Qlog2_spec x Hx) as [L U].
  symmetry. apply Qlog2_unique; rewrite <- E; assumption.
Qed.

Lemma ulp_exp_pos (x : Q) :
  0 < x -> ulp_exp x = Z.max (Qlog2 x - 52) emin.
Proof.
  intros Hx. unfold ulp_exp, prec.
  rewrite (Qlog2_proper (Qabs x) x).
  - reflexivity.
  - rewrite Qabs_pos by (apply Qlt_le_weak; exact Hx). exact Hx.
  - apply Qabs_pos. apply Qlt_le_weak. exact Hx.
Qed.

Lemma ulp_exp_opp (x : Q) : ~ x == 0 -> ulp_exp (- x) = ulp_exp x.
Proof.
  intros NZ. unfold ulp_exp. f_equal. f_equal.
  apply Qlog2_proper; [| apply Qabs_opp].
  rewrite Qabs_opp.
  destruct (Qlt_le_dec 0 x) as [P|N].
  - rewrite Qabs_pos by (apply Qlt_le_weak; exact P). exact P.
  - rewrite Qabs_neg by exact N.
    apply Qle_lteq in N. destruct N as [N|N]; [lra | contradiction].
Qed.

Lemma fl_zero (q : Q) : q == 0 -> fl q = 0.
Proof. intros E. unfold fl. apply Qeq_bool_iff in E. rewrite E. reflexivity. Qed.

Lemma fl_nonzero (q : Q) : ~ q == 0 -> fl q == round_at (ulp_exp q) q.
Proof.
  intros NZ. unfold fl.
  destruct (Qeq_bool q 0) eqn:E.
  - apply Qeq_bool_iff in E. contradiction.
  - apply Qred_correct.
Qed.

Lemma fl_pos_mono (x y : Q) : 0 < x -> x <= y -> fl x <= fl y.
Proof.
  intros Hx Hxy.
  assert (Hy : 0 < y) by (eapply Qlt_le_trans; eassumption).
  rewrite (fl_nonzero x), (fl_nonzero y) by lra.
  rewrite (ulp_exp_pos x Hx), (ulp_exp_pos y Hy).
  pose proof (Qlog2_mono x y Hx Hxy) as M.
  destruct (Qlog2_spec x Hx) as [_ Ux]. destruct (Qlog2_spec y Hy) as [Ly _].
  set (ex := Qlog2 x) in *. set (ey := Qlog2 y) in *.
  destruct (Z.eq_dec (Z.max (ex - 52) emin) (Z.max (ey - 52) emin)) as [E|NE].
  - rewrite E. apply round_at_mono. exact Hxy.
  - assert (S1 : (Z.max (ex - 52) emin < ey - 52)%Z) by lia.
    assert (S2 : Z.max (ey - 52) emin = (ey - 52)%Z) by lia.
    assert (S3 : (ex + 1 <= ey)%Z) by lia.
    rewrite S2.
    apply Qle_trans with (2 ^ ey).
    + rewrite <- (round_at_pow2 (Z.max (ex - 52) emin) ey) by lia.
      apply round_at_mono.
      apply Qle_trans with (2 ^ (ex + 1)); [apply Qlt_le_weak; exact Ux |].
      apply pow2_le. exact S3.
    + rewrite <- (round_at_pow2 (ey - 52) ey) at 1 by lia.
      apply round_at_mono. exact Ly.
Qed.

Lemma fl_opp (q : Q) : fl (- q) == - fl q.
Proof.
  destruct (Qeq_dec q 0) as [Z0|NZ].
  - rewrite (fl_zero q Z0), (fl_zero (- q)) by lra. reflexivity.
  - rewrite (fl_nonzero (- q)), (fl_nonzero q) by lra.
    rewrite ulp_exp_opp by exact NZ. apply round_at_opp.
Qed.

Lemma fl_pos_nonneg (q : Q) : 0 < q -> 0 <= fl q.
Proof.
  intros Hq. rewrite fl_nonzero by lra. unfold round_at.
  apply Qmult_le_0_compat; [| apply Qlt_le_weak, pow2_pos].
  assert (R : (Qrne (inject_Z 0) <= Qrne (q / 2 ^ ulp_exp q))%Z).
  { apply Qrne_mono. apply Qlt_le_weak.
    apply Qlt_shift_div_l; [apply pow2_pos |]. change (inject_Z 0) with 0. lra. }
  rewrite Qrne_Z in R. rewrite Zle_Qle in R. exact R.
Qed.

(** Rounding is monotone. *)
Lemma fl_mono (x y : Q) : x <= y -> fl x <= fl y.
Proof.
  intros H.
  destruct (Qlt_le_dec 0 x) as [Px|Nx].
  - apply fl_pos_mono; assumption.
  - destruct (Qlt_le_dec 0 y) as [Py|Ny].
    + apply Qle_trans with 0; [| apply fl_pos_nonneg; exact Py].
      destruct (Qeq_dec x 0) as [Z0|NZ].
      * rewrite (fl_zero x Z0). lra.
      * assert (P : 0 < - x) by (apply Qle_lteq in Nx; destruct Nx; [lra | contradiction]).
        pose proof (fl_pos_nonneg (- x) P) as F. rewrite fl_opp in F. lra.
    + destruct (Qeq_dec y 0) as [Z0|NZ].
      * rewrite (fl_zero y Z0).
        destruct (Qeq_dec x 0) as [Zx|NZx].
        -- rewrite (fl_zero x Zx). lra.
        -- assert (P : 0 < - x) by (apply Qle_lteq in Nx; destruct Nx; [lra | contradiction]).
           pose proof (fl_pos_nonneg (- x) P) as F. rewrite fl_opp in F. lra.
      * assert (P : 0 < - y) by (apply Qle_lteq in Ny; destruct Ny; [lra | contradiction]).
        assert (L : - y <= - x) by lra.
        pose proof (fl_pos_mono (- y) (- x) P L) as F.
        rewrite !fl_opp in F. lra.
Qed.

(** Rounding depends on the value only, and yields a reduced fraction. *)
Lemma fl_proper (x y : Q) : x == y -> fl x = fl y.
Proof.
  intros E.
  assert (Q1 : fl x == fl y).
  { apply Qle_antisym; apply fl_mono; lra. }
  assert (R : forall q, Qred (fl q) = fl q).
  { intros q. unfold fl. destruct (Qeq_bool q 0); [reflexivity |].
    apply Qred_complete, Qred_correct. }
  rewrite <- (R x), <- (R y). apply Qred_complete. exact Q1.
Qed.

(** An int below [2^53] in magnitude is a float. *)
Lemma fl_Z (z : Z) : (Z.abs z < 2 ^ 53)%Z -> fl (inject_Z z) == inject_Z z.
Proof.
  assert (P : forall z, (0 < z < 2 ^ 53)%Z -> fl (inject_Z z) == inject_Z z).
  { intros p [P1 P2].
    assert (Hp : 0 < inject_Z p) by (change 0 with (inject_Z 0); rewrite <- Zlt_Qlt; exact P1).
    rewrite fl_nonzero by lra. rewrite (ulp_exp_pos _ Hp).
    destruct (Qlog2_spec _ Hp) as [L _].
    set (e := Qlog2 (inject_Z p)) in *.
    assert (E : (e < 53)%Z).
    { apply pow2_lt_inv. eapply Qle_lt_trans; [exact L |].
      rewrite pow2_Z by lia. rewrite <- Zlt_Qlt. exact P2. }
    set (s := Z.max (e - 52) emin).
    assert (S0 : (s <= 0)%Z) by (unfold s, emin; lia).
    apply (round_at_exact s (p * 2 ^ (- s))).
    rewrite inject_Z_mult, <- pow2_Z by lia.
    rewrite <- Qmult_assoc, <- pow2_add.
    replace (- s + s)%Z with 0%Z by lia. change (2 ^ 0) with 1. ring. }
  intros H. destruct (Z.lt_trichotomy z 0) as [N|[Z0|Pz]].
  - assert (E : inject_Z z == - inject_Z (- z)) by (rewrite inject_Z_opp; ring).
    rewrite (fl_proper _ _ E), fl_opp, P by lia. symmetry. exact E.
  - subst z. reflexivity.
  - apply P. lia.
Qed.

(** The rounding agrees with the kernel's binary64 arithmetic: on the
    literal 0.1, and on sums, differences, products and quotients of a
    sample of operands. *)
Example fl_kernel_decimo : F2Q 0x1.999999999999ap-4%float = Some (fl (1 # 10)).
Proof. vm_compute. reflexivity. Qed.

Example fl_kernel_amostra : forallb confere amostra = true.
Proof. vm_compute. reflexivity. Qed.

End Binary64Facts.

(** ** The orders on keys *)

#[global] Instance Z_ordem : OrdemFraca Z.
Proof.
  split; unfold menor, Z_comparavel.
  - intros a. apply Z.ltb_irrefl.
  - intros a b c. rewrite !Z.ltb_lt. lia.
  - intros a b c. rewrite !Z.ltb_lt. lia.
Qed.

Lemma py_lt_iff (x y : numero) : py_lt x y = true <-> (valor x < valor y)%Q.
Proof.
  unfold py_lt. rewrite negb_true_iff.
  destruct (Qle_bool (valor y) (valor x)) eqn:E.
  - apply Qle_bool_iff in E. split; [discriminate | intros H; exfalso; lra].
  - split; [intros _ | reflexivity].
    apply Qnot_le_lt. intros H. apply Qle_bool_iff in H. congruence.
Qed.

Lemma py_lt_false_iff (x y : numero) :
  py_lt x y = false <-> (valor y <= valor x)%Q.
Proof.
  pose proof (py_lt_iff x y) as H.
  destruct (py_lt x y).
  - split; [discriminate |]. intros L. assert (valor x < valor y)%Q by (apply H; reflexivity). lra.
  - split; [intros _ | reflexivity].
    apply Qnot_lt_le. intros L. apply H in L. discriminate.
Qed.

#[global] Instance numero_ordem : OrdemFraca numero.
Proof.
  split; unfold menor, numero_comparavel.
  - intros a. apply py_lt_false_iff. lra.
  - intros a b c. rewrite !py_lt_iff. lra.
  - intros a b c. rewrite !py_lt_iff.
    destruct (Qlt_le_dec (valor a) (valor b)); [left; assumption | right; lra].
Qed.

(** The reversed comparison is an order of the same kind. *)
Lemma invertida_ordem {K} `{OrdemFraca K} : @OrdemFraca K (invertida H).
Proof.
  split; unfold menor, invertida.
  - intros a. apply menor_irrefl.
  - intros a b c Hab Hbc. exact (menor_trans c b a Hbc Hab).
  - intros a b c Hac. destruct (menor_cotrans c b a Hac); [right | left]; assumption.
Qed.

Section Extremos.
Context {A K : Type} `{OrdemFraca K} (key : A -> K).

Lemma menor_assim (a b : K) : menor a b = true -> menor b a = false.
Proof.
  intros Hab. destruct (menor b a) eqn:E; [| reflexivity].
  pose proof (menor_trans a b a Hab E) as T.
  rewrite menor_irrefl in T. discriminate.
Qed.

Lemma max_desde_primeiro (l pre : list A) (melhor : A) (i : nat) :
  pre !! i = Some melhor ->
  (forall y, In y pre -> menor (key melhor) (key y) = false) ->
  (forall j y, pre !! j = Some y -> (j < i)%nat ->
     menor (key y) (key melhor) = true) ->
  primeiro_maximo key (pre ++ l) (max_desde key melhor l).
Proof.
  revert pre melhor i. induction l as [|x r IH]; intros pre melhor i Hi Hmax Hfirst.
  - cbn. rewrite app_nil_r. exists i. split; [exact Hi |]. split; assumption.
  - cbn [max_desde]. replace (pre ++ x :: r) with ((pre ++ [x]) ++ r)
      by (rewrite <- app_assoc; reflexivity).
    destruct (menor (key melhor) (key x)) eqn:E.
    + apply (IH (pre ++ [x]) x (length pre)).
      * rewrite lookup_app_r by lia. rewrite Nat.sub_diag. reflexivity.
      * intros y Hy. apply in_app_or in Hy. destruct Hy as [Hy|[<-|[]]].
        -- destruct (menor (key x) (key y)) eqn:E2; [| reflexivity].
           rewrite <- (Hmax y Hy). symmetry. eapply menor_trans; eassumption.
        -- apply menor_irrefl.
      * intros j y Hj Hlt. rewrite lookup_app_l in Hj by lia.
        destruct (menor_cotrans _ (key y) _ E) as [C|C]; [| exact C].
        rewrite Hmax in C; [discriminate |].
        apply list_elem_of_In. eapply list_elem_of_lookup_2. exact Hj.
    + apply (IH (pre ++ [x]) melhor i).
      * rewrite lookup_app_l; [exact Hi |]. apply lookup_lt_Some in Hi. exact Hi.
      * intros y Hy. apply in_app_or in Hy. destruct Hy as [Hy|[<-|[]]].
        -- apply Hmax. exact Hy.
        -- exact E.
      * intros j y Hj Hlt. apply Hfirst with j; [| exact Hlt].
        rewrite lookup_app_l in Hj; [exact Hj |].
        apply lookup_lt_Some in Hi. lia.
Qed.

Lemma py_max_primeiro (x : A) (r : list A) :
  exists m, py_max key (x :: r) = Ok m /\ primeiro_maximo key (x :: r) m.
Proof.
  exists (max_desde key x r). split; [reflexivity |].
  apply (max_desde_primeiro r [x] x 0).
  - reflexivity.
  - intros y [<-|[]]. apply menor_irrefl.
  - intros j y _ Hj. lia.
Qed.

End Extremos.

Lemma min_desde_invertida {A K} (H : Comparavel K) (key : A -> K) (m : A)
    (l : list A) :
  @min_desde A K H key m l = @max_desde A K (invertida H) key m l.
Proof.
  revert m. induction l as [|x r IH]; intros m; [reflexivity |].
  cbn [min_desde max_desde]. rewrite !IH. reflexivity.
Qed.

Lemma py_min_primeiro {A K} `{OrdemFraca K} (key : A -> K) (x : A)
    (r : list A) :
  exists m, py_min key (x :: r) = Ok m /\ primeiro_minimo key (x :: r) m.
Proof.
  destruct (@py_max_primeiro A K (invertida H) invertida_ordem key x r)
    as (m & Hm & Hp).
  exists m. split.
  - unfold py_min. rewrite min_desde_invertida. exact Hm.
  - exact Hp.
Qed.

(** ** First extremes, on integer and on numeric keys *)

Lemma primeiro_maximo_Z {A} (key : A -> Z) (l : list A) (x : A) :
  primeiro_maximo key l x ->
  exists i, l !! i = Some x /\
    (forall y, In y l -> (key y <= key x)%Z) /\
    (forall j y, l !! j = Some y -> key y = key x -> (i <= j)%nat).
Proof.
  intros (i & Hi & Hmax & Hfirst). exists i. split; [exact Hi |]. split.
  - intros y Hy. specialize (Hmax y Hy). apply Z.ltb_ge in Hmax. exact Hmax.
  - intros j y Hj Heq. destruct (Nat.le_gt_cases i j) as [L|G]; [exact L |].
    specialize (Hfirst j y Hj G). apply Z.ltb_lt in Hfirst. lia.
Qed.

Lemma primeiro_minimo_Z {A} (key : A -> Z) (l : list A) (x : A) :
  primeiro_minimo key l x ->
  exists i, l !! i = Some x /\
    (forall y, In y l -> (key x <= key y)%Z) /\
    (forall j y, l !! j = Some y -> key y = key x -> (i <= j)%nat).
Proof.
  intros (i & Hi & Hmin & Hfirst). exists i. split; [exact Hi |]. split.
  - intros y Hy. specialize (Hmin y Hy). apply Z.ltb_ge in Hmin. exact Hmin.
  - intros j y Hj Heq. destruct (Nat.le_gt_cases i j) as [L|G]; [exact L |].
    specialize (Hfirst j y Hj G). apply Z.ltb_lt in Hfirst. lia.
Qed.

Lemma primeiro_maximo_numero {A} (key : A -> numero) (l : list A) (x : A) :
  primeiro_maximo key l x ->
  exists i, l !! i = Some x /\
    (forall y, In y l -> (valor (key y) <= valor (key x))%Q) /\
    (forall j y, l !! j = Some y -> (valor (key y) == valor (key x))%Q ->
       (i <= j)%nat).
Proof.
  intros (i & Hi & Hmax & Hfirst). exists i. split; [exact Hi |]. split.
  - intros y Hy. apply py_lt_false_iff. exact (Hmax y Hy).
  - intros j y Hj Heq. destruct (Nat.le_gt_cases i j) as [L|G]; [exact L |].
    specialize (Hfirst j y Hj G). apply py_lt_iff in Hfirst. lra.
Qed.

Lemma primeiro_minimo_numero {A} (key : A -> numero) (l : list A) (x : A) :
  primeiro_minimo key l x ->
  exists i, l !! i = Some x /\
    (forall y, In y l -> (valor (key x) <= valor (key y))%Q) /\
    (forall j y, l !! j = Some y -> (valor (key y) == valor (key x))%Q ->
       (i <= j)%nat).
Proof.
  intros (i & Hi & Hmin & Hfirst). exists i. split; [exact Hi |]. split.
  - intros y Hy. apply py_lt_false_iff. exact (Hmin y Hy).
  - intros j y Hj Heq. destruct (Nat.le_gt_cases i j) as [L|G]; [exact L |].
    specialize (Hfirst j y Hj G). apply py_lt_iff in Hfirst. lra.
Qed.

(** C3: [extremos_duracao] returns, for a catalogue that is not empty, the
    longest and the shortest movie by [hours * 60 + minutes], each the first
    one of the catalogue with that duration; for the empty catalogue it
    returns the two empty dicts and raises nothing. *)
Theorem C3_extremos_duracao :
  extremos_duracao [] = Ok (None, None) /\
  forall (f0 : filme) (resto : list filme),
    exists longo curto i k,
      extremos_duracao (f0 :: resto) = Ok (Some longo, Some curto) /\
      (f0 :: resto) !! i = Some longo /\
      (f0 :: resto) !! k = Some curto /\
      (forall f, minutos_de f = (fst (duracao f) * 60 + snd (duracao f))%Z) /\
      (forall f, In f (f0 :: resto) ->
         (minutos_de curto <= minutos_de f <= minutos_de longo)%Z) /\
      (forall j f, (f0 :: resto) !! j = Some f ->
         minutos_de f = minutos_de longo -> (i <= j)%nat) /\
      (forall j f, (f0 :: resto) !! j = Some f ->
         minutos_de f = minutos_de curto -> (k <= j)%nat).
Proof.
  split; [reflexivity |]. intros f0 resto.
  destruct (py_max_primeiro minutos_de f0 resto) as (longo & Hl & Pl).
  destruct (py_min_primeiro minutos_de f0 resto) as (curto & Hc & Pc).
  destruct (primeiro_maximo_Z _ _ _ Pl) as (i & Hi & Lmax & Lfirst).
  destruct (primeiro_minimo_Z _ _ _ Pc) as (k & Hk & Cmin & Cfirst).
  exists longo, curto, i, k.
  split.
  { unfold extremos_duracao. cbn [vazia].
    change (fun x : filme => duracao_em_minutos (duracao x)) with minutos_de.
    rewrite Hl. cbn [mbind resultado_bind]. rewrite Hc. reflexivity. }
  split; [exact Hi |]. split; [exact Hk |].
  split; [reflexivity |].
  split; [intros f Hf; split; [apply Cmin | apply Lmax]; exact Hf |].
  split; assumption.
Qed.

(** ** Arithmetic of the report *)

Lemma len_cons_nonzero {A} (x : A) (l : list A) : len (x :: l) <> 0%Z.
Proof. unfold len. cbn [length]. lia. Qed.

Lemma len_map {A B} (f : A -> B) (l : list A) : len (map f l) = len l.
Proof. unfold len. rewrite length_map. reflexivity. Qed.

Lemma len_nonneg {A} (l : list A) : (0 <= len l)%Z.
Proof. unfold len. lia. Qed.

Lemma inject_Z_nonzero (z : Z) : z <> 0%Z -> Qeq_bool (inject_Z z) 0 = false.
Proof.
  intros H. destruct (Qeq_bool (inject_Z z) 0) eqn:E; [| reflexivity].
  apply Qeq_bool_iff in E. unfold Qeq in E. cbn in E. lia.
Qed.

Lemma py_truediv_int (a b : Z) :
  b <> 0%Z ->
  py_truediv (PyInt a) (PyInt b) = Ok (PyFloat (fl (inject_Z a / inject_Z b))).
Proof.
  intros H. unfold py_truediv. cbn [valor].
  rewrite (inject_Z_nonzero b H). reflexivity.
Qed.

Lemma py_truediv_ok (x y : numero) :
  Qeq_bool (valor y) 0 = false -> exists q, py_truediv x y = Ok (PyFloat q).
Proof.
  intros H. unfold py_truediv. rewrite H.
  destruct x, y; eexists; reflexivity.
Qed.

Lemma soma_ingenua_ints (zs : list Z) (a : Z) :
  fold_left py_add (map PyInt zs) (PyInt a) = PyInt (a + soma_Z zs).
Proof.
  revert a. induction zs as [|z r IH]; intros a.
  - cbn. f_equal. lia.
  - change (soma_Z (z :: r)) with (z + soma_Z r)%Z.
    cbn -[soma_Z]. rewrite IH. f_equal. lia.
Qed.

Lemma soma_compensada_ints (zs : list Z) (a : Z) :
  soma_compensada_desde a (map PyInt zs) = PyInt (a + soma_Z zs).
Proof.
  revert a. induction zs as [|z r IH]; intros a.
  - cbn. f_equal. lia.
  - change (soma_Z (z :: r)) with (z + soma_Z r)%Z.
    cbn -[soma_Z]. rewrite IH. f_equal. lia.
Qed.

(** On ints the two implementations of [sum] agree and are exact. *)
Lemma py_sum_ints (impl : soma_impl) (zs : list Z) :
  py_sum impl (map PyInt zs) = PyInt (soma_Z zs).
Proof.
  destruct impl; cbn [py_sum].
  - unfold soma_ingenua. apply soma_ingenua_ints.
  - apply soma_compensada_ints.
Qed.

Lemma fl_60 : fl (inject_Z 60) = 60%Q.
Proof. vm_compute. reflexivity. Qed.

Lemma fl_100 : fl (inject_Z 100) = 100%Q.
Proof. vm_compute. reflexivity. Qed.

(** On a catalogue that is not empty every step of
    [exibir_estatisticas_adicionais] returns. *)
Lemma adicionais_nao_vazio (impl : soma_impl) (f0 : filme) (resto : list filme) :
  let filmes := f0 :: resto in
  let fracao :=
    fl (inject_Z (len (filmes_em_streaming filmes)) / inject_Z (len filmes)) in
  let media :=
    fl (inject_Z (soma_Z (map minutos_de filmes)) / inject_Z (len filmes)) in
  exists melhor pior,
    py_max avaliacao filmes = Ok melhor /\
    py_min avaliacao filmes = Ok pior /\
    exibir_estatisticas_adicionais impl filmes =
      Ok {| porcentagem := PyFloat (fl (fracao * 100));
            melhor_avaliado := melhor;
            pior_avaliado := pior;
            duracao_media_min := PyFloat media;
            horas := Qtrunc (float_floor_div media 60);
            minutos := Qtrunc (float_rem media 60) |}.
Proof.
  intros filmes fracao media.
  exists (max_desde avaliacao f0 resto), (min_desde avaliacao f0 resto).
  split; [reflexivity |]. split; [reflexivity |].
  unfold exibir_estatisticas_adicionais.
  rewrite (py_truediv_int _ (len (f0 :: resto))) by apply len_cons_nonzero.
  cbn [mbind resultado_bind py_max py_min].
  rewrite <- (map_map (fun f => duracao_em_minutos (duracao f)) PyInt).
  rewrite py_sum_ints, !len_map.
  rewrite (py_truediv_int _ (len (f0 :: resto))) by apply len_cons_nonzero.
  cbn [mbind resultado_bind].
  unfold py_floordiv, py_mod, py_mul. cbn [valor to_float py_int].
  rewrite (inject_Z_nonzero 60) by discriminate.
  cbn [mbind resultado_bind py_int]. rewrite fl_60, fl_100. reflexivity.
Qed.


(** ** The stable sort *)

Section Ordenacao.
Context {A : Type} (antes : A -> A -> bool).

Lemma inserir_perm (x : A) (l : list A) :
  Permutation (inserir antes x l) (x :: l).
Proof.
  induction l as [|y r IH]; cbn; [reflexivity |].
  destruct (antes y x); [| reflexivity].
  rewrite IH. apply perm_swap.
Qed.

Lemma ordenar_perm (l : list A) : Permutation (ordenar_estavel antes l) l.
Proof.
  induction l as [|x r IH]; cbn; [reflexivity |].
  fold (ordenar_estavel antes r). rewrite inserir_perm, IH. reflexivity.
Qed.

Lemma ordenar_length (l : list A) :
  length (ordenar_estavel antes l) = length l.
Proof. apply Permutation_length, ordenar_perm. Qed.

(** Items that are never strictly before one another keep their order. *)
Lemma inserir_filter (p : A -> bool) (x : A) (l : list A) :
  (forall a b, p a = true -> p b = true -> antes a b = false) ->
  List.filter p (inserir antes x l) = List.filter p (x :: l).
Proof.
  intros Hp. induction l as [|y r IH]; [reflexivity |].
  cbn [inserir]. destruct (antes y x) eqn:E; [| reflexivity].
  cbn [List.filter] in *. rewrite IH.
  destruct (p x) eqn:Px, (p y) eqn:Py; try reflexivity.
  rewrite (Hp y x Py Px) in E. discriminate.
Qed.

Lemma ordenar_filter (p : A -> bool) (l : list A) :
  (forall a b, p a = true -> p b = true -> antes a b = false) ->
  List.filter p (ordenar_estavel antes l) = List.filter p l.
Proof.
  intros Hp. induction l as [|x r IH]; [reflexivity |].
  cbn [ordenar_estavel fold_right]. fold (ordenar_estavel antes r).
  rewrite inserir_filter by exact Hp.
  cbn [List.filter]. rewrite IH. reflexivity.
Qed.

Hypothesis antes_assim : forall a b, antes a b = true -> antes b a = false.
Hypothesis antes_cotrans :
  forall a b c, antes a c = true -> antes a b = true \/ antes b c = true.

(** In the result no item is strictly before an earlier one. *)
Lemma inserir_sorted (x : A) (l : list A) :
  StronglySorted (fun a b => antes b a = false) l ->
  StronglySorted (fun a b => antes b a = false) (inserir antes x l).
Proof.
  induction 1 as [|y r Hs IH Hy]; cbn [inserir].
  - constructor; constructor.
  - destruct (antes y x) eqn:E.
    + constructor; [exact IH |].
      eapply Permutation_Forall; [symmetry; apply inserir_perm |].
      constructor; [apply antes_assim; exact E | exact Hy].
    + constructor; [constructor; assumption |].
      constructor; [exact E |].
      eapply Forall_impl; [exact Hy |]. intros z Hz. cbn in Hz.
      destruct (antes z x) eqn:Ez; [| reflexivity].
      destruct (antes_cotrans z y x Ez) as [C|C]; congruence.
Qed.

Lemma ordenar_sorted (l : list A) :
  StronglySorted (fun a b => antes b a = false) (ordenar_estavel antes l).
Proof.
  induction l as [|x r IH]; cbn; [constructor |].
  apply inserir_sorted. exact IH.
Qed.

End Ordenacao.

Section OrdenacaoPorChave.
Context {A K : Type} `{OrdemFraca K} (key : A -> K) (reverse : bool).

Lemma antes_de_assim (a b : A) :
  antes_de key reverse a b = true -> antes_de key reverse b a = false.
Proof. unfold antes_de. destruct reverse; apply menor_assim. Qed.

Lemma antes_de_cotrans (a b c : A) :
  antes_de key reverse a c = true ->
  antes_de key reverse a b = true \/ antes_de key reverse b c = true.
Proof.
  unfold antes_de. destruct reverse; intros Hac.
  - destruct (menor_cotrans _ (key b) _ Hac); [right | left]; assumption.
  - apply menor_cotrans. exact Hac.
Qed.

Lemma py_sorted_perm (l : list A) : Permutation (py_sorted key reverse l) l.
Proof. apply ordenar_perm. Qed.

Lemma py_sorted_sorted (l : list A) :
  StronglySorted (fun a b => antes_de key reverse b a = false)
    (py_sorted key reverse l).
Proof.
  apply ordenar_sorted; [apply antes_de_assim | apply antes_de_cotrans].
Qed.

End OrdenacaoPorChave.

Section OrdenacaoUnica.
Context {A : Type} (antes : A -> A -> bool).
Hypothesis antes_assim : forall a b, antes a b = true -> antes b a = false.
Hypothesis antes_cotrans :
  forall a b c, antes a c = true -> antes a b = true \/ antes b c = true.

Lemma empatados_refl (x : A) : empatados antes x x = true.
Proof.
  unfold empatados. destruct (antes x x) eqn:E; [| reflexivity].
  rewrite (antes_assim x x E) in E. discriminate.
Qed.

Lemma empatados_sym (x y : A) : empatados antes x y = empatados antes y x.
Proof. unfold empatados. apply andb_comm. Qed.

(** Two sorted lists in which the items of every class of ties come in the
    same order are equal. *)
Lemma ordenadas_iguais (l1 l2 : list A) :
  StronglySorted (fun a b => antes b a = false) l1 ->
  StronglySorted (fun a b => antes b a = false) l2 ->
  (forall x, List.filter (empatados antes x) l1 =
             List.filter (empatados antes x) l2) ->
  l1 = l2.
Proof.
  intros H1. revert l2. induction H1 as [|a t1 Hs1 IH Ha]; intros l2 H2 Hf.
  - destruct l2 as [|b t2]; [reflexivity |].
    specialize (Hf b). cbn in Hf. rewrite empatados_refl in Hf. discriminate.
  - destruct H2 as [|b t2 Hs2 Hb].
    { specialize (Hf a). cbn in Hf. rewrite empatados_refl in Hf. discriminate. }
    assert (Eab : empatados antes a b = true).
    { destruct (empatados antes a b) eqn:E; [reflexivity |].
      pose proof (Hf a) as Fa. pose proof (Hf b) as Fb.
      cbn [List.filter] in Fa, Fb.
      rewrite empatados_refl, E in Fa.
      rewrite empatados_refl, (empatados_sym b a), E in Fb.
      assert (Ia : In a t2).
      { apply (proj1 (filter_In (empatados antes a) a t2)).
        rewrite <- Fa. left. reflexivity. }
      assert (Ib : In b t1).
      { apply (proj1 (filter_In (empatados antes b) b t1)).
        rewrite Fb. left. reflexivity. }
      rewrite Forall_forall in Ha, Hb.
      pose proof (Ha b (proj2 (list_elem_of_In _ _) Ib)) as R1.
      pose proof (Hb a (proj2 (list_elem_of_In _ _) Ia)) as R2.
      cbn in R1, R2. unfold empatados in E. rewrite R1, R2 in E. discriminate. }
    assert (E : a = b).
    { pose proof (Hf a) as Fa. cbn [List.filter] in Fa.
      rewrite empatados_refl, Eab in Fa. congruence. }
    subst b. f_equal. apply IH; [exact Hs2 |].
    intros x. specialize (Hf x). cbn [List.filter] in Hf.
    destruct (empatados antes x a); congruence.
Qed.

Lemma empatados_compat (x a b : A) :
  empatados antes x a = true -> empatados antes x b = true ->
  antes a b = false.
Proof.
  unfold empatados. rewrite !andb_true_iff, !negb_true_iff.
  intros [Hxa Hax] [Hxb Hbx].
  destruct (antes a b) eqn:E; [| reflexivity].
  destruct (antes_cotrans a x b E); congruence.
Qed.

(** Every stable sort returns the list that [ordenar_estavel] returns: a
    sorted list in which ties are in the order of [l]. *)
Lemma ordenar_estavel_unico (l l' : list A) :
  StronglySorted (fun a b => antes b a = false) l' ->
  (forall x, List.filter (empatados antes x) l' =
             List.filter (empatados antes x) l) ->
  l' = ordenar_estavel antes l.
Proof.
  intros Hs Hf. apply ordenadas_iguais; [exact Hs | |].
  - apply ordenar_sorted; assumption.
  - intros x. rewrite Hf. symmetry. apply ordenar_filter.
    intros a b. apply empatados_compat.
Qed.

End OrdenacaoUnica.

Lemma StronglySorted_rev {A} (R : A -> A -> Prop) (l : list A) :
  StronglySorted R l -> StronglySorted (fun a b => R b a) (rev l).
Proof.
  induction 1 as [|x r Hs IH Hx]; cbn [rev]; [constructor |].
  apply StronglySorted_app_2; [| exact IH | repeat constructor].
  intros a b Ha Hb. apply list_elem_of_In in Ha, Hb.
  destruct Hb as [<-|[]]. apply in_rev in Ha.
  rewrite Forall_forall in Hx. apply Hx. apply list_elem_of_In. exact Ha.
Qed.

(** [list.sort(reverse=True)] as CPython does it, reversing the list,
    sorting it and reversing the result, returns the same list. *)
Lemma py_sorted_reverse {A K} `{OrdemFraca K} (key : A -> K) (l : list A) :
  rev (py_sorted key false (rev l)) = py_sorted key true l.
Proof.
  unfold py_sorted.
  apply ordenar_estavel_unico;
    [apply antes_de_assim | apply antes_de_cotrans | |].
  - apply (StronglySorted_rev
             (fun a b => antes_de key false b a = false)).
    apply ordenar_sorted; [apply antes_de_assim | apply antes_de_cotrans].
  - intros x. rewrite List.filter_rev.
    assert (E : forall y, empatados (antes_de key true) x y =
                          empatados (antes_de key false) x y).
    { intros y. unfold empatados, antes_de. apply andb_comm. }
    rewrite (List.filter_ext _ _ E), (List.filter_ext _ _ E l).
    rewrite ordenar_filter.
    + rewrite List.filter_rev. apply rev_involutive.
    + intros a b. apply empatados_compat. apply antes_de_cotrans.
Qed.

Lemma StronglySorted_impl {A} (R S : A -> A -> Prop) (l : list A) :
  (forall a b, R a b -> S a b) -> StronglySorted R l -> StronglySorted S l.
Proof.
  intros HRS. induction 1 as [|x r Hs IH Hx]; constructor; [exact IH |].
  eapply Forall_impl; [exact Hx |]. intros y. apply HRS.
Qed.

Lemma py_lt_mesma_nota (a b : numero) (v : Q) :
  Qeq_bool (valor a) v = true -> Qeq_bool (valor b) v = true ->
  py_lt a b = false.
Proof.
  rewrite !Qeq_bool_iff. intros Ea Eb. apply py_lt_false_iff. lra.
Qed.

(** C1: [filmes_acima_avaliacao] returns the names of exactly the movies
    whose rating is strictly greater than the limit; with [ordenar] they are
    in descending order of rating and movies with equal ratings keep the
    order of the catalogue, without it they are in the order of the
    catalogue; each of the two defaults can be overridden alone.  On ratings
    5, 6, 7, 8 and limit 6.0 the result is the names for 8, 7, or for 7, 8
    without sorting. *)
Theorem C1_filmes_acima_avaliacao (filmes : list filme) (limite : numero)
    (ordenar : bool) :
  let acima := List.filter (fun f => py_gt (avaliacao f) limite) filmes in
  (forall f, In f acima <-> In f filmes /\ (valor limite < nota f)%Q) /\
  (exists escolhidos,
     filmes_acima_avaliacao filmes limite ordenar = map nome escolhidos /\
     Permutation escolhidos acima /\
     if ordenar then
       StronglySorted (fun a b => (nota b <= nota a)%Q) escolhidos /\
       forall v, List.filter (fun f => Qeq_bool (nota f) v) escolhidos =
                 List.filter (fun f => Qeq_bool (nota f) v) acima
     else escolhidos = acima) /\
  filmes_acima_avaliacao_kw filmes None None =
    filmes_acima_avaliacao filmes (PyFloat 6) true /\
  filmes_acima_avaliacao_kw filmes (Some limite) None =
    filmes_acima_avaliacao filmes limite true /\
  filmes_acima_avaliacao_kw filmes None (Some ordenar) =
    filmes_acima_avaliacao filmes (PyFloat 6) ordenar /\
  filmes_acima_avaliacao_kw filmes (Some limite) (Some ordenar) =
    filmes_acima_avaliacao filmes limite ordenar /\
  filmes_acima_avaliacao_kw notas_5678 (Some (PyFloat 6)) None = ["f8"; "f7"]%string /\
  filmes_acima_avaliacao_kw notas_5678 (Some (PyFloat 6)) (Some false) =
    ["f7"; "f8"]%string.
Proof.
  intros acima. split; [| split].
  - intros f. unfold acima. rewrite filter_In. unfold py_gt.
    rewrite py_lt_iff. reflexivity.
  - exists (if ordenar then py_sorted avaliacao true acima else acima).
    split; [| split].
    + unfold filmes_acima_avaliacao. fold acima.
      destruct filmes as [|f0 resto]; [destruct ordenar; reflexivity |].
      cbn [vazia]. destruct ordenar; reflexivity.
    + destruct ordenar; [apply py_sorted_perm | reflexivity].
    + destruct ordenar; [| reflexivity]. split.
      * eapply StronglySorted_impl; [| apply py_sorted_sorted].
        intros a b Hab. cbn in Hab. apply py_lt_false_iff in Hab. exact Hab.
      * intros v. apply ordenar_filter. intros a b Pa Pb.
        cbn. eapply py_lt_mesma_nota; eassumption.
  - repeat split; reflexivity.
Qed.

(** ** Indexing *)

Lemma py_index_lookup {A} (l : list A) (i : nat) (x : A) :
  l !! i = Some x -> py_index l (Z.of_nat i) = Ok x.
Proof.
  intros Hi. unfold py_index.
  destruct (Z.ltb_spec (Z.of_nat i) 0) as [N|_]; [lia |].
  destruct (Z.ltb_spec (Z.of_nat i) 0) as [N|_]; [lia |].
  rewrite Nat2Z.id, Hi. reflexivity.
Qed.

(** The median of a catalogue that is not empty, by the parity of its
    length. *)
Lemma mediana_nao_vazia (f0 : filme) (resto : list filme) :
  let filmes := f0 :: resto in
  let ordenadas := py_sorted id false (map avaliacao filmes) in
  let n := length filmes in
  if Nat.even n then
    exists a b q,
      ordenadas !! (n / 2 - 1)%nat = Some a /\
      ordenadas !! (n / 2)%nat = Some b /\
      py_truediv (py_add a b) (PyInt 2) = Ok (PyFloat q) /\
      (forall za zb, a = PyInt za -> b = PyInt zb ->
         q = fl (inject_Z (za + zb) / 2)) /\
      calcular_mediana_avaliacao filmes = Ok (PyFloat q)
  else
    exists a,
      ordenadas !! (n / 2)%nat = Some a /\
      calcular_mediana_avaliacao filmes = Ok a.
Proof.
  intros filmes ordenadas n.
  assert (Hlen : length ordenadas = n).
  { unfold ordenadas. rewrite (Permutation_length (py_sorted_perm id false _)).
    apply length_map. }
  assert (Hn : (0 < n)%nat) by (unfold n; cbn; lia).
  assert (Hdiv : (Z.of_nat n / 2 = Z.of_nat (n / 2))%Z)
    by (rewrite Nat2Z.inj_div; reflexivity).
  unfold calcular_mediana_avaliacao. cbn [vazia filmes].
  fold filmes. fold ordenadas. unfold len. rewrite Hlen, Hdiv.
  destruct (Nat.even n) eqn:Ev.
  - apply Nat.even_spec in Ev. destruct Ev as [h Eh].
    assert (Hmod : (Z.of_nat n mod 2 =? 0)%Z = true).
    { apply Z.eqb_eq. rewrite Eh, Nat2Z.inj_mul, Z.mul_comm. apply Z_mod_mult. }
    rewrite Hmod.
    assert (Hh : (n / 2 = h)%nat).
    { rewrite Eh, Nat.mul_comm. apply Nat.div_mul. lia. }
    rewrite Hh.
    destruct (lookup_lt_is_Some_2 ordenadas (h - 1)) as [a Ha]; [lia |].
    destruct (lookup_lt_is_Some_2 ordenadas h) as [b Hb]; [lia |].
    replace (Z.of_nat h - 1)%Z with (Z.of_nat (h - 1)) by lia.
    rewrite (py_index_lookup _ _ _ Ha), (py_index_lookup _ _ _ Hb).
    cbn [mbind resultado_bind].
    destruct (py_truediv_ok (py_add a b) (PyInt 2)) as [q Hq]; [reflexivity |].
    exists a, b, q. repeat split; try assumption.
    intros za zb -> ->. cbn [py_add] in Hq.
    rewrite py_truediv_int in Hq by discriminate.
    injection Hq as <-. reflexivity.
  - assert (Hmod : (Z.of_nat n mod 2 =? 0)%Z = false).
    { apply Z.eqb_neq. intros Hm.
      assert (Ev' : Nat.even n = true).
      { apply Nat.even_spec. exists (Z.to_nat (Z.of_nat n / 2)).
        apply Z_div_exact_2 in Hm; lia. }
      congruence. }
    rewrite Hmod.
    assert (Hlt : (n / 2 < n)%nat) by (apply Nat.div_lt; lia).
    destruct (lookup_lt_is_Some_2 ordenadas (n / 2)) as [a Ha]; [lia |].
    exists a. split; [exact Ha |]. apply py_index_lookup. exact Ha.
Qed.

Lemma mediana_retorna (f0 : filme) (resto : list filme) :
  exists m, calcular_mediana_avaliacao (f0 :: resto) = Ok m.
Proof.
  pose proof (mediana_nao_vazia f0 resto) as H. cbv zeta in H.
  destruct (Nat.even (length (f0 :: resto))).
  - destruct H as (a & b & q & _ & _ & _ & _ & H). eexists. exact H.
  - destruct H as (a & _ & H). eexists. exact H.
Qed.

(** ** The counter of directors *)

Lemma contar_chaves_presente (e : string) (c : list (string * Z)) :
  In e (map fst c) -> map fst (contar e c) = map fst c.
Proof.
  induction c as [|[k v] r IH]; cbn [contar map fst]; [intros [] |].
  intros Hin. destruct (String.eqb_spec k e) as [->|NE]; [reflexivity |].
  cbn [map fst]. rewrite IH; [reflexivity |].
  destruct Hin as [E|Hin]; [congruence | exact Hin].
Qed.

Lemma contar_chaves_ausente (e : string) (c : list (string * Z)) :
  ~ In e (map fst c) -> map fst (contar e c) = map fst c ++ [e].
Proof.
  induction c as [|[k v] r IH]; cbn [contar map fst]; [reflexivity |].
  intros Hn. destruct (String.eqb_spec k e) as [->|NE].
  - exfalso. apply Hn. left. reflexivity.
  - cbn [map fst]. rewrite IH; [reflexivity |].
    intros Hin. apply Hn. right. exact Hin.
Qed.

Lemma contar_In (e k : string) (v : Z) (c : list (string * Z)) :
  List.NoDup (map fst c) ->
  In (k, v) (contar e c) <->
  (k <> e /\ In (k, v) c) \/
  (k = e /\ (In (k, (v - 1)%Z) c \/ (~ In e (map fst c) /\ v = 1%Z))).
Proof.
  induction c as [|[k' v'] r IH]; intros ND; cbn [contar map fst In].
  - split.
    + intros [E|[]]. injection E as <- <-. right. split; [reflexivity |].
      right. split; [intros [] | reflexivity].
    + intros [[_ []]|[-> [[]|[_ ->]]]]. left. reflexivity.
  - inversion ND as [|? ? Hk' ND']; subst.
    destruct (String.eqb_spec k' e) as [->|NE]; cbn [In].
    + split.
      * intros [E|Hin].
        -- injection E as <- <-. right. split; [reflexivity |].
           left. left. f_equal. lia.
        -- destruct (string_dec k e) as [->|NEk].
           ++ exfalso. apply Hk'. apply (in_map fst) in Hin. exact Hin.
           ++ left. split; [exact NEk |]. right. exact Hin.
      * intros [[NEk [E|Hin]]|[-> [[E|Hin]|[Habs _]]]].
        -- injection E as -> ->. congruence.
        -- right. exact Hin.
        -- injection E as ->. left. f_equal. lia.
        -- exfalso. apply Hk'. apply (in_map fst) in Hin. exact Hin.
        -- exfalso. apply Habs. left. reflexivity.
    + rewrite (IH ND'). split.
      * intros [E|[[NEk Hin]|[-> [Hin|[Hn ->]]]]].
        -- injection E as <- <-. left. split; [exact NE |]. left. reflexivity.
        -- left. split; [exact NEk |]. right. exact Hin.
        -- right. split; [reflexivity |]. left. right. exact Hin.
        -- right. split; [reflexivity |]. right. split; [| reflexivity].
           intros [E|E]; [congruence | contradiction].
      * intros [[NEk [E|Hin]]|[-> [[E|Hin]|[Hn ->]]]].
        -- left. exact E.
        -- right. left. split; assumption.
        -- injection E as -> _. congruence.
        -- right. right. split; [reflexivity |]. left. exact Hin.
        -- right. right. split; [reflexivity |]. right. split; [| reflexivity].
           intros Hin. apply Hn. right. exact Hin.
Qed.

Lemma contar_NoDup (e : string) (c : list (string * Z)) :
  List.NoDup (map fst c) -> List.NoDup (map fst (contar e c)).
Proof.
  intros ND. destruct (in_dec string_dec e (map fst c)) as [Hin|Hn].
  - rewrite contar_chaves_presente by exact Hin. exact ND.
  - rewrite contar_chaves_ausente by exact Hn.
    apply List.NoDup_app; [exact ND | repeat constructor; intros [] |].
    intros x Hx [<-|[]]. contradiction.
Qed.

Lemma conta_app (d : string) (l1 l2 : list string) :
  conta d (l1 ++ l2) = (conta d l1 + conta d l2)%Z.
Proof. unfold conta, len. rewrite List.filter_app, length_app. lia. Qed.

Lemma conta_nonneg (d : string) (l : list string) : (0 <= conta d l)%Z.
Proof. apply len_nonneg. Qed.

Lemma conta_pos_iff (d : string) (l : list string) :
  (0 < conta d l)%Z <-> In d l.
Proof.
  unfold conta, len. induction l as [|x r IH]; cbn [List.filter In].
  - cbn. lia.
  - destruct (String.eqb_spec x d) as [->|NE].
    + cbn [length]. split; [intros _; left; reflexivity | lia].
    + rewrite IH. split; [intros H; right; exact H |].
      intros [E|H]; [congruence | exact H].
Qed.

Lemma conta_ausente (d : string) (l : list string) :
  ~ In d l -> conta d l = 0%Z.
Proof.
  intros Hn. pose proof (conta_nonneg d l) as P.
  destruct (Z.eq_dec (conta d l) 0%Z) as [E|NE]; [exact E |].
  exfalso. apply Hn. apply conta_pos_iff. lia.
Qed.

Lemma conta_um (d e : string) :
  conta d [e] = if String.eqb e d then 1%Z else 0%Z.
Proof. unfold conta, len. cbn. destruct (String.eqb e d); reflexivity. Qed.

Lemma ocorrencias_conta (d : string) (filmes : list filme) :
  ocorrencias d filmes = conta d (map diretor filmes).
Proof.
  unfold ocorrencias, conta, len. f_equal.
  induction filmes as [|f r IH]; [reflexivity |].
  cbn [map List.filter]. destruct (String.eqb (diretor f) d); cbn [length]; lia.
Qed.

Lemma contador_de_chaves (c : list (string * Z)) (l : list string) (k : string) :
  contador_de c l -> (In k (map fst c) <-> In k l).
Proof.
  intros [_ Hc]. rewrite in_map_iff. split.
  - intros ([k' v] & <- & Hin). apply Hc in Hin. tauto.
  - intros Hin. exists (k, conta k l). split; [reflexivity |].
    apply Hc. tauto.
Qed.

Lemma contador_de_contar (e : string) (c : list (string * Z))
    (l : list string) :
  contador_de c l -> contador_de (contar e c) (l ++ [e]).
Proof.
  intros Hc. pose proof Hc as [ND Hin]. split; [apply contar_NoDup; exact ND |].
  intros k v. rewrite (contar_In e k v c ND), !Hin.
  rewrite (contador_de_chaves c l e Hc).
  rewrite in_app_iff, conta_app, conta_um. cbn [In].
  destruct (String.eqb_spec e k) as [->|NE].
  - split.
    + intros [[NE _]|[_ [[H1 H2]|[H1 ->]]]]; [congruence | |].
      * split; [left; exact H1 | lia].
      * split; [right; left; reflexivity |].
        rewrite (conta_ausente k l H1). reflexivity.
    + intros [_ ->]. right. split; [reflexivity |].
      destruct (in_dec string_dec k l) as [I|N].
      * left. split; [exact I | lia].
      * right. split; [exact N |]. rewrite (conta_ausente k l N). reflexivity.
  - split.
    + intros [[_ [H1 ->]]|[E _]]; [| congruence].
      split; [left; exact H1 | lia].
    + intros [[H1|[E|[]]] ->]; [| congruence].
      left. split; [congruence |]. split; [exact H1 | lia].
Qed.

Lemma Counter_desde (l2 l1 : list string) (c : list (string * Z)) :
  contador_de c l1 ->
  contador_de (fold_left (fun c elem => contar elem c) l2 c) (l1 ++ l2).
Proof.
  revert l1 c. induction l2 as [|e r IH]; intros l1 c Hc; cbn [fold_left].
  - rewrite app_nil_r. exact Hc.
  - replace (l1 ++ e :: r) with ((l1 ++ [e]) ++ r)
      by (rewrite <- app_assoc; reflexivity).
    apply IH. apply contador_de_contar. exact Hc.
Qed.

(** [Counter(l)] holds, for each name of [l] and no other, its count. *)
Lemma Counter_contador (l : list string) : contador_de (Counter l) l.
Proof.
  apply (Counter_desde l [] []). split; [constructor |].
  intros k v. cbn. tauto.
Qed.

Lemma py_max_Z (x : Z) (r : list Z) :
  exists m, py_max id (x :: r) = Ok m /\ In m (x :: r) /\
    forall y, In y (x :: r) -> (y <= m)%Z.
Proof.
  destruct (py_max_primeiro (@id Z) x r) as (m & Hm & Pm).
  destruct (primeiro_maximo_Z _ _ _ Pm) as (i & Hi & Hmax & _).
  exists m. split; [exact Hm |]. split; [| exact Hmax].
  apply list_elem_of_In. eapply list_elem_of_lookup_2. exact Hi.
Qed.

(** What [moda_diretores] returns, from its counter. *)
Lemma moda_diretores_eq (filmes : list filme) :
  exists m,
    moda_diretores filmes =
      Ok (List.filter (fun item => (snd item =? m)%Z)
            (Counter (map diretor filmes))) /\
    (forall k v, In (k, v) (Counter (map diretor filmes)) -> (v <= m)%Z) /\
    (filmes <> [] -> exists k, In (k, m) (Counter (map diretor filmes))).
Proof.
  unfold moda_diretores.
  destruct filmes as [|f0 resto].
  - exists 0%Z. split; [reflexivity |]. split; [intros k v [] | congruence].
  - cbn [vazia]. set (c := Counter (map diretor (f0 :: resto))).
    destruct c as [|[k0 v0] c'] eqn:Ec.
    + exists 0%Z. split; [reflexivity |]. split; [intros k v [] |].
      intros _. exfalso.
      pose proof (Counter_contador (map diretor (f0 :: resto))) as Hc.
      fold c in Hc. rewrite Ec in Hc.
      assert (Hin : In (diretor f0) (map fst (@nil (string * Z)))).
      { apply (contador_de_chaves _ _ _ Hc). left. reflexivity. }
      destruct Hin.
    + cbn [vazia map snd].
      destruct (py_max_Z v0 (map snd c')) as (m & Hm & Hin & Hmax).
      exists m. rewrite Hm. split; [reflexivity |]. split.
      * intros k v Hkv. apply Hmax.
        change (v0 :: map snd c') with (map snd ((k0, v0) :: c')).
        apply (in_map snd) in Hkv. exact Hkv.
      * intros _.
        change (v0 :: map snd c') with (map snd ((k0, v0) :: c')) in Hin.
        apply in_map_iff in Hin. destruct Hin as ([k v] & E & Hin).
        cbn in E. subst v. exists k. exact Hin.
Qed.

(** C4: [moda_diretores] returns, without repetition, exactly the pairs
    (director, count) of the directors whose number of movies is the
    greatest one of the catalogue, all of them when several tie, and the
    empty list for the empty catalogue; on the directors A, B, A, B, C it
    returns (A, 2) and (B, 2) and not (C, 1). *)
Theorem C4_moda_diretores :
  moda_diretores [] = Ok [] /\
  (forall filmes : list filme,
     exists moda,
       moda_diretores filmes = Ok moda /\
       List.NoDup moda /\
       forall d c,
         In (d, c) moda <->
         (0 < c)%Z /\ c = ocorrencias d filmes /\
         forall d', (ocorrencias d' filmes <= c)%Z) /\
  moda_diretores diretores_ABABC = Ok [("A", 2%Z); ("B", 2%Z)]%string /\
  ~ In ("C", 1%Z)%string [("A", 2%Z); ("B", 2%Z)]%string.
Proof.
  split; [reflexivity |]. split; [| split; [vm_compute; reflexivity |]].
  2: { intros [E|[E|[]]]; discriminate. }
  intros filmes.
  destruct (moda_diretores_eq filmes) as (m & Hm & Hmax & Hex).
  pose proof (Counter_contador (map diretor filmes)) as Hc.
  destruct Hc as [ND Hin].
  eexists. split; [exact Hm |]. split.
  { apply List.NoDup_filter. eapply NoDup_map_inv. exact ND. }
  intros d c. rewrite filter_In, Hin. cbn [snd]. rewrite Z.eqb_eq.
  setoid_rewrite ocorrencias_conta.
  split.
  - intros [[Hd ->] Em]. split; [apply conta_pos_iff; exact Hd |].
    split; [reflexivity |]. intros d'. rewrite Em.
    destruct (in_dec string_dec d' (map diretor filmes)) as [I|N].
    + apply (Hmax d'). apply Hin. split; [exact I | reflexivity].
    + rewrite (conta_ausente _ _ N). rewrite <- Em. apply conta_nonneg.
  - intros (Hpos & -> & Hall).
    assert (Hd : In d (map diretor filmes)) by (apply conta_pos_iff; exact Hpos).
    split; [split; [exact Hd | reflexivity] |].
    assert (NE : filmes <> []) by (intros ->; destruct Hd).
    destruct (Hex NE) as (k & Hk).
    pose proof (Hmax d _ (proj2 (Hin d _) (conj Hd eq_refl))) as L1.
    apply Hin in Hk. destruct Hk as [_ Ek].
    pose proof (Hall k) as L2. lia.
Qed.

(** ** The order of the counter *)

Lemma primeiro_indice_presente (d : string) (l1 l2 : list string) :
  In d l1 ->
  primeiro_indice d (l1 ++ l2) = primeiro_indice d l1 /\
  (primeiro_indice d l1 < length l1)%nat.
Proof.
  induction l1 as [|x r IH]; [intros [] |].
  intros Hin. cbn [primeiro_indice app length].
  destruct (String.eqb_spec x d) as [->|NE]; [split; [reflexivity | lia] |].
  destruct Hin as [E|Hin]; [congruence |].
  destruct (IH Hin) as [E L]. rewrite E. split; [reflexivity | lia].
Qed.

Lemma primeiro_indice_ausente (d : string) (l1 l2 : list string) :
  ~ In d l1 ->
  primeiro_indice d (l1 ++ l2) = (length l1 + primeiro_indice d l2)%nat.
Proof.
  induction l1 as [|x r IH]; [reflexivity |].
  intros Hn. cbn [primeiro_indice app length].
  destruct (String.eqb_spec x d) as [->|NE].
  - exfalso. apply Hn. left. reflexivity.
  - rewrite IH; [lia |]. intros Hin. apply Hn. right. exact Hin.
Qed.

(** [primeiro_indice d l] is the least position of [d] in [l]. *)
Lemma primeiro_indice_spec (d : string) (l : list string) :
  In d l ->
  l !! primeiro_indice d l = Some d /\
  forall j, (j < primeiro_indice d l)%nat -> l !! j <> Some d.
Proof.
  induction l as [|x r IH]; [intros [] |].
  intros Hin. cbn [primeiro_indice].
  destruct (String.eqb_spec x d) as [->|NE].
  - split; [reflexivity | intros j Hj; lia].
  - destruct Hin as [E|Hin]; [congruence |].
    destruct (IH Hin) as [H1 H2]. split; [exact H1 |].
    intros [|j] Hj; cbn; [congruence |]. apply H2. lia.
Qed.

Lemma ordem_contar (e : string) (c : list (string * Z))
    (l1 l2 : list string) :
  contador_de c l1 ->
  StronglySorted (fun a b => (primeiro_indice a (l1 ++ e :: l2) <
                              primeiro_indice b (l1 ++ e :: l2))%nat)
    (map fst c) ->
  StronglySorted (fun a b => (primeiro_indice a (l1 ++ e :: l2) <
                              primeiro_indice b (l1 ++ e :: l2))%nat)
    (map fst (contar e c)).
Proof.
  intros Hc Hs. destruct (in_dec string_dec e (map fst c)) as [Hin|Hn].
  - rewrite contar_chaves_presente by exact Hin. exact Hs.
  - rewrite contar_chaves_ausente by exact Hn.
    apply StronglySorted_app_2; [| exact Hs | repeat constructor].
    intros a b Ha Hb. apply list_elem_of_In in Ha, Hb.
    destruct Hb as [<-|[]].
    apply (contador_de_chaves c l1 a Hc) in Ha.
    destruct (primeiro_indice_presente a l1 (e :: l2) Ha) as [-> La].
    rewrite primeiro_indice_ausente.
    + lia.
    + intros He. apply Hn. apply (contador_de_chaves c l1 e Hc). exact He.
Qed.

Lemma Counter_ordem_desde (l2 l1 : list string) (c : list (string * Z)) :
  contador_de c l1 ->
  StronglySorted (fun a b => (primeiro_indice a (l1 ++ l2) <
                              primeiro_indice b (l1 ++ l2))%nat)
    (map fst c) ->
  StronglySorted (fun a b => (primeiro_indice a (l1 ++ l2) <
                              primeiro_indice b (l1 ++ l2))%nat)
    (map fst (fold_left (fun c elem => contar elem c) l2 c)).
Proof.
  revert l1 c. induction l2 as [|e r IH]; intros l1 c Hc Hs; cbn [fold_left].
  - exact Hs.
  - assert (E : l1 ++ e :: r = (l1 ++ [e]) ++ r)
      by (rewrite <- app_assoc; reflexivity).
    rewrite E. apply IH.
    + apply contador_de_contar. exact Hc.
    + rewrite <- E. apply ordem_contar; assumption.
Qed.

(** The keys of [Counter(l)] are in the order of their first appearance. *)
Lemma Counter_ordem (l : list string) :
  StronglySorted (fun a b => (primeiro_indice a l < primeiro_indice b l)%nat)
    (map fst (Counter l)).
Proof.
  apply (Counter_ordem_desde l [] []).
  - split; [constructor |]. intros k v. cbn. tauto.
  - constructor.
Qed.

Lemma StronglySorted_map_inv {A B} (f : A -> B) (R : B -> B -> Prop)
    (l : list A) :
  StronglySorted R (map f l) -> StronglySorted (fun a b => R (f a) (f b)) l.
Proof.
  induction l as [|x r IH]; intros Hs; [constructor |].
  cbn [map] in Hs. apply StronglySorted_cons in Hs. destruct Hs as [Hx Hr].
  constructor; [apply IH; exact Hr |].
  apply Forall_forall. intros y Hy. rewrite Forall_forall in Hx.
  apply Hx. apply list_elem_of_In. apply in_map. apply list_elem_of_In. exact Hy.
Qed.

Lemma StronglySorted_filter {A} (R : A -> A -> Prop) (p : A -> bool)
    (l : list A) :
  StronglySorted R l -> StronglySorted R (List.filter p l).
Proof.
  induction 1 as [|x r Hs IH Hx]; cbn [List.filter]; [constructor |].
  destruct (p x); [| exact IH]. constructor; [exact IH |].
  apply Forall_forall. intros y Hy. rewrite Forall_forall in Hx.
  apply Hx. apply list_elem_of_In in Hy. apply filter_In in Hy.
  apply list_elem_of_In. tauto.
Qed.

Lemma StronglySorted_lookup {A} (R : A -> A -> Prop) (l : list A)
    (i j : nat) (a b : A) :
  StronglySorted R l -> l !! i = Some a -> l !! j = Some b -> (i < j)%nat ->
  R a b.
Proof.
  intros Hs. revert i j. induction Hs as [|x r Hs IH Hx]; intros i j Hi Hj Hlt.
  - discriminate.
  - destruct j as [|j]; [lia |]. cbn in Hj. destruct i as [|i].
    + cbn in Hi. injection Hi as <-. rewrite Forall_forall in Hx.
      apply Hx. eapply list_elem_of_lookup_2. exact Hj.
    + cbn in Hi. apply (IH i j); [assumption | assumption | lia].
Qed.

(** C10: the pairs that [moda_diretores] returns are in the order in which
    their directors first appear in the catalogue. *)
Theorem C10_moda_ordem_de_chegada (filmes : list filme) :
  let diretores := map diretor filmes in
  exists moda,
    moda_diretores filmes = Ok moda /\
    (forall p, In p moda ->
       diretores !! primeiro_indice (fst p) diretores = Some (fst p) /\
       forall j, (j < primeiro_indice (fst p) diretores)%nat ->
         diretores !! j <> Some (fst p)) /\
    forall i j p q,
      moda !! i = Some p -> moda !! j = Some q -> (i < j)%nat ->
      (primeiro_indice (fst p) diretores <
       primeiro_indice (fst q) diretores)%nat.
Proof.
  intros diretores.
  destruct (moda_diretores_eq filmes) as (m & Hm & _ & _).
  pose proof (Counter_contador diretores) as Hc.
  eexists. split; [exact Hm |]. split.
  - intros [d c] Hp. apply filter_In in Hp. destruct Hp as [Hp _].
    apply primeiro_indice_spec. cbn [fst].
    apply (contador_de_chaves _ _ d Hc). apply (in_map fst) in Hp. exact Hp.
  - intros i j p q Hi Hj Hlt.
    refine (StronglySorted_lookup
              (fun a b : string * Z =>
                 (primeiro_indice (fst a) diretores <
                  primeiro_indice (fst b) diretores)%nat)
              _ i j p q _ Hi Hj Hlt).
    apply StronglySorted_filter.
    apply (StronglySorted_map_inv fst
             (fun a b => (primeiro_indice a diretores <
                          primeiro_indice b diretores)%nat)).
    apply Counter_ordem.
Qed.

(** ** The report as a whole *)

Lemma media_retorna (impl : soma_impl) (f0 : filme) (resto : list filme) :
  exists q, calcular_media_avaliacao impl (f0 :: resto) = Ok (PyFloat q).
Proof.
  unfold calcular_media_avaliacao. cbn [vazia].
  apply py_truediv_ok. cbn [valor]. rewrite len_map.
  apply inject_Z_nonzero, len_cons_nonzero.
Qed.

Lemma extremos_retorna (f0 : filme) (resto : list filme) :
  exists e, extremos_duracao (f0 :: resto) = Ok e.
Proof. eexists. reflexivity. Qed.

(** Called on an empty catalogue, [exibir_estatisticas_adicionais] divides
    by its length. *)
Lemma adicionais_vazio (impl : soma_impl) :
  exibir_estatisticas_adicionais impl [] = Raise ZeroDivisionError.
Proof. reflexivity. Qed.

Lemma completas_retorna (impl : soma_impl) (filmes : list filme) :
  exists r, exibir_estatisticas_completas impl filmes = Ok r.
Proof.
  unfold exibir_estatisticas_completas.
  destruct filmes as [|f0 resto]; [eexists; reflexivity |]. cbn [vazia].
  destruct (media_retorna impl f0 resto) as [q ->].
  destruct (mediana_retorna f0 resto) as [m ->].
  destruct (extremos_retorna f0 resto) as [e ->].
  destruct (moda_diretores_eq (f0 :: resto)) as (mx & -> & _).
  destruct (adicionais_nao_vazio impl f0 resto) as (a & b & _ & _ & ->).
  eexists. reflexivity.
Qed.

Lemma conta_streaming_len (filmes : list filme) :
  len (filmes_em_streaming filmes) = conta_streaming filmes.
Proof.
  unfold filmes_em_streaming. rewrite len_map. unfold len.
  induction filmes as [|f r IH]; [reflexivity |].
  cbn [List.filter conta_streaming]. rewrite <- IH.
  destruct (streaming f); cbn [length]; lia.
Qed.

(** The report of a catalogue with a movie holds what
    [exibir_estatisticas_adicionais] returns. *)
Lemma completas_nao_vazio (impl : soma_impl) (f0 : filme) (resto : list filme) :
  exists a r,
    exibir_estatisticas_adicionais impl (f0 :: resto) = Ok a /\
    exibir_estatisticas_completas impl (f0 :: resto) = Ok (Some r) /\
    main impl (f0 :: resto) = Ok (Some r) /\
    r_adicionais r = a.
Proof.
  destruct (adicionais_nao_vazio impl f0 resto) as (mx & mn & _ & _ & Ha).
  cbv zeta in Ha.
  assert (Hr : exists r,
    exibir_estatisticas_completas impl (f0 :: resto) = Ok (Some r) /\
    Ok (r_adicionais r) = exibir_estatisticas_adicionais impl (f0 :: resto)).
  { unfold exibir_estatisticas_completas. cbn [vazia].
    destruct (media_retorna impl f0 resto) as [q ->].
    destruct (mediana_retorna f0 resto) as [m ->].
    destruct (extremos_retorna f0 resto) as [e ->].
    destruct (moda_diretores_eq (f0 :: resto)) as (mx' & -> & _).
    rewrite Ha. cbn [mbind resultado_bind].
    eexists. split; reflexivity. }
  destruct Hr as (r & Hr & Hra). rewrite Ha in Hra. injection Hra as Hra.
  eexists _, r. split; [exact Ha |]. split; [exact Hr |]. split.
  - unfold main. cbn [vazia negb]. rewrite Hr. reflexivity.
  - exact Hra.
Qed.

(** C5: the program never divides by zero: [main] and
    [exibir_estatisticas_completas] do not raise [ZeroDivisionError] on any
    catalogue, and on the empty one they return before the division, which
    would raise there, is reached.  On a catalogue with a movie the
    percentage is the number of movies with the streaming flag, divided by
    the number of movies, times 100, and the report and [main] return it;
    they return when the ratings and durations are at most 2^53 in magnitude,
    far inside the range of floats, beyond which Python raises
    [OverflowError]. *)
Theorem C5_porcentagem_sem_divisao_por_zero (impl : soma_impl)
    (filmes : list filme) :
  main impl filmes <> Raise ZeroDivisionError /\
  exibir_estatisticas_completas impl filmes <> Raise ZeroDivisionError /\
  main impl [] = Ok None /\
  exibir_estatisticas_completas impl [] = Ok None /\
  exibir_estatisticas_adicionais impl [] = Raise ZeroDivisionError /\
  (Forall filme_limitado filmes ->
   exists r, main impl filmes = Ok r /\
             exibir_estatisticas_completas impl filmes = Ok r) /\
  forall f0 resto,
    Forall filme_limitado (f0 :: resto) ->
    exists a r,
      len (f0 :: resto) <> 0%Z /\
      exibir_estatisticas_adicionais impl (f0 :: resto) = Ok a /\
      porcentagem a =
        PyFloat
          (fl (fl (inject_Z (conta_streaming (f0 :: resto)) /
                   inject_Z (len (f0 :: resto))) * 100)) /\
      exibir_estatisticas_completas impl (f0 :: resto) = Ok (Some r) /\
      main impl (f0 :: resto) = Ok (Some r) /\
      r_adicionais r = a.
Proof.
  destruct (completas_retorna impl filmes) as [r Hr].
  assert (Hm : main impl filmes = Ok r).
  { unfold main. destruct filmes as [|f0 resto].
    - cbn in Hr |- *. congruence.
    - cbn [vazia negb]. rewrite Hr. reflexivity. }
  split; [rewrite Hm; discriminate |].
  split; [rewrite Hr; discriminate |].
  split; [reflexivity |]. split; [reflexivity |]. split; [reflexivity |].
  split; [intros _; exists r; split; assumption |].
  intros f0 resto _.
  destruct (completas_nao_vazio impl f0 resto) as (a & r' & Ha & Hr' & Hm' & E).
  exists a, r'. split; [apply len_cons_nonzero |]. split; [exact Ha |].
  split; [| split; [exact Hr' | split; [exact Hm' | exact E]]].
  destruct (adicionais_nao_vazio impl f0 resto) as (mx & mn & _ & _ & Ha').
  cbv zeta in Ha'. rewrite Ha' in Ha. injection Ha as <-.
  cbn [porcentagem]. rewrite conta_streaming_len. reflexivity.
Qed.

(** The catalogue rated 5, 6, 7, 8 is in the range of floats, and three of
    its four movies are in streaming: 75.0 per cent. *)
Example porcentagem_5678 :
  Forall filme_limitado notas_5678 /\
  conta_streaming notas_5678 = 3%Z /\
  exists a, exibir_estatisticas_adicionais Ingenua notas_5678 = Ok a /\
            porcentagem a = PyFloat 75.
Proof.
  split.
  { unfold notas_5678.
    repeat (apply List.Forall_cons;
            [repeat split; vm_compute; first [reflexivity | discriminate] |]).
    apply List.Forall_nil. }
  split; [reflexivity |].
  eexists. split; [vm_compute; reflexivity | reflexivity].
Qed.

(** ** The mean rating *)

Lemma soma_Z_limites (zs : list Z) (lo hi : Z) :
  (forall z, In z zs -> (lo <= z <= hi)%Z) ->
  (lo * len zs <= soma_Z zs <= hi * len zs)%Z.
Proof.
  unfold len. induction zs as [|z r IH]; intros Hb.
  - cbn. lia.
  - change (soma_Z (z :: r)) with (z + soma_Z r)%Z. cbn [length].
    assert (Hz : (lo <= z <= hi)%Z) by (apply Hb; left; reflexivity).
    assert (Hr : (lo * Z.of_nat (length r) <= soma_Z r <= hi * Z.of_nat (length r))%Z).
    { apply IH. intros y Hy. apply Hb. right. exact Hy. }
    lia.
Qed.

(** The exact mean of integers lies between any bounds of the integers. *)
Lemma media_exata_limites (zs : list Z) (lo hi : Z) :
  zs <> [] ->
  (forall z, In z zs -> (lo <= z <= hi)%Z) ->
  (inject_Z lo <= inject_Z (soma_Z zs) / inject_Z (len zs))%Q /\
  (inject_Z (soma_Z zs) / inject_Z (len zs) <= inject_Z hi)%Q.
Proof.
  intros Hne Hb. destruct (soma_Z_limites zs lo hi Hb) as [L U].
  assert (Hn : (0 < len zs)%Z).
  { unfold len. destruct zs; [congruence | cbn; lia]. }
  assert (HnQ : (0 < inject_Z (len zs))%Q).
  { change 0%Q with (inject_Z 0). rewrite <- Zlt_Qlt. exact Hn. }
  split.
  - apply Qle_shift_div_l; [exact HnQ |].
    rewrite <- inject_Z_mult, <- Zle_Qle. exact L.
  - apply Qle_shift_div_r; [exact HnQ |].
    rewrite <- inject_Z_mult, <- Zle_Qle. exact U.
Qed.

Lemma notas_inteiras_map (filmes : list filme) :
  Forall nota_inteira filmes ->
  map avaliacao filmes = map PyInt (map (fun f => py_int (avaliacao f)) filmes).
Proof.
  intros H. rewrite map_map. apply map_ext_in.
  intros f Hf. rewrite Forall_forall in H.
  destruct (H f) as (z & -> & _); [apply list_elem_of_In; exact Hf |].
  reflexivity.
Qed.

(** The mean of int ratings (below 2^53 in magnitude) is the exact mean
    rounded once, and lies between the least and the greatest rating. *)
Lemma media_de_inteiros (impl : soma_impl) (f0 : filme)
    (resto : list filme) :
  Forall nota_inteira (f0 :: resto) ->
  calcular_media_avaliacao impl [] = Ok (PyFloat 0) /\
  exists m,
    calcular_media_avaliacao impl (f0 :: resto) = Ok m /\
    m = PyFloat
          (fl (inject_Z (soma_Z (map (fun f => py_int (avaliacao f))
                                   (f0 :: resto))) /
               inject_Z (len (f0 :: resto)))) /\
    entre_extremos (f0 :: resto) m.
Proof.
  intros Hint. split; [reflexivity |].
  set (filmes := f0 :: resto) in *.
  set (zs := map (fun f => py_int (avaliacao f)) filmes).
  assert (El : len zs = len filmes) by (unfold zs; apply len_map).
  assert (Hm : calcular_media_avaliacao impl filmes =
               Ok (PyFloat (fl (inject_Z (soma_Z zs) / inject_Z (len filmes))))).
  { unfold calcular_media_avaliacao. cbn [vazia filmes]. fold filmes.
    rewrite (notas_inteiras_map filmes Hint). fold zs.
    rewrite py_sum_ints, len_map, El.
    apply py_truediv_int. apply len_cons_nonzero. }
  eexists. split; [exact Hm |]. split; [reflexivity |].
  destruct (py_min_primeiro avaliacao f0 resto) as (lo & _ & Plo).
  destruct (py_max_primeiro avaliacao f0 resto) as (hi & _ & Phi).
  destruct (primeiro_minimo_numero _ _ _ Plo) as (i & Hi & Hmin & _).
  destruct (primeiro_maximo_numero _ _ _ Phi) as (k & Hk & Hmax & _).
  fold filmes in Hi, Hk, Hmin, Hmax.
  assert (Ilo : In lo filmes)
    by (apply list_elem_of_In; eapply list_elem_of_lookup_2; exact Hi).
  assert (Ihi : In hi filmes)
    by (apply list_elem_of_In; eapply list_elem_of_lookup_2; exact Hk).
  rewrite Forall_forall in Hint.
  destruct (Hint lo) as (zlo & Elo & Blo); [apply list_elem_of_In; exact Ilo |].
  destruct (Hint hi) as (zhi & Ehi & Bhi); [apply list_elem_of_In; exact Ihi |].
  exists lo, hi. split; [exact Ilo |]. split; [exact Ihi |].
  split; [intros f Hf; split; [apply Hmin | apply Hmax]; exact Hf |].
  assert (Hb : forall z, In z zs -> (zlo <= z <= zhi)%Z).
  { intros z Hz. unfold zs in Hz. apply in_map_iff in Hz.
    destruct Hz as (f & <- & Hf).
    destruct (Hint f) as (zf & Ef & _); [apply list_elem_of_In; exact Hf |].
    pose proof (Hmin f Hf) as L. pose proof (Hmax f Hf) as U.
    rewrite Elo, Ef in L. rewrite Ehi, Ef in U. cbn [valor] in L, U.
    rewrite <- Zle_Qle in L, U. rewrite Ef. cbn [py_int]. lia. }
  assert (Hne : zs <> []) by (unfold zs, filmes; discriminate).
  destruct (media_exata_limites zs zlo zhi Hne Hb) as [L U].
  rewrite El in L, U.
  unfold nota. rewrite Elo, Ehi. cbn [valor]. split.
  - rewrite <- (fl_Z zlo Blo). apply fl_mono. exact L.
  - rewrite <- (fl_Z zhi Bhi). apply fl_mono. exact U.
Qed.


(** ** The error of one rounding *)

Section ErroDeArredondamento.
Local Open Scope Q_scope.

Lemma round_at_erro (s : Z) (x : Q) :
  x - 2 ^ (s - 1) <= round_at s x /\ round_at s x <= x + 2 ^ (s - 1).
Proof.
  unfold round_at. destruct (Qrne_bounds (x / 2 ^ s)) as [L U].
  pose proof (pow2_pos s) as P.
  assert (H : 2 ^ (s - 1) == 2 ^ s * (1 # 2)).
  { rewrite pow2_sub. change (2 ^ 1) with 2. field. }
  assert (E : x == x / 2 ^ s * 2 ^ s) by (field; apply pow2_nz).
  set (r := inject_Z (Qrne (x / 2 ^ s))) in *.
  set (q := x / 2 ^ s) in *.
  set (p := 2 ^ s) in *. set (t := 2 ^ (s - 1)) in *.
  assert (A : (q - (1 # 2)) * p <= r * p)
    by (apply Qmult_le_compat_r; lra).
  assert (B : r * p <= (q + (1 # 2)) * p)
    by (apply Qmult_le_compat_r; lra).
  split; lra.
Qed.

Lemma na_grade_0 : na_grade 0.
Proof. exists 0%Z. unfold Qeq. reflexivity. Qed.

Lemma na_grade_opp (x : Q) : na_grade x -> na_grade (- x).
Proof.
  intros [m E]. exists (- m)%Z. rewrite inject_Z_opp, E. ring.
Qed.

Lemma na_grade_add (x y : Q) : na_grade x -> na_grade y -> na_grade (x + y).
Proof.
  intros [m E] [k F]. exists (m + k)%Z. rewrite inject_Z_plus, E, F. ring.
Qed.

Lemma na_grade_sub (x y : Q) : na_grade x -> na_grade y -> na_grade (x - y).
Proof.
  intros Hx Hy. unfold Qminus. apply na_grade_add; [exact Hx |].
  apply na_grade_opp. exact Hy.
Qed.

Lemma na_grade_proper (x y : Q) : x == y -> na_grade x -> na_grade y.
Proof. intros E [m F]. exists m. rewrite <- E. exact F. Qed.

Lemma na_grade_Z (z : Z) : na_grade (inject_Z z).
Proof.
  exists (z * 2 ^ 1074)%Z. rewrite inject_Z_mult.
  rewrite <- (pow2_Z 1074) by lia. rewrite <- Qmult_assoc, <- pow2_add.
  change (1074 + emin)%Z with 0%Z. change (2 ^ 0) with 1. ring.
Qed.

Lemma ulp_exp_emin (x : Q) : (emin <= ulp_exp x)%Z.
Proof. unfold ulp_exp. lia. Qed.

(** Every float is a multiple of the least positive float. *)
Lemma na_grade_fl (x : Q) : na_grade (fl x).
Proof.
  destruct (Qeq_dec x 0) as [Z0 | NZ].
  - rewrite (fl_zero x Z0). apply na_grade_0.
  - apply (na_grade_proper (round_at (ulp_exp x) x));
      [symmetry; apply fl_nonzero; exact NZ |].
    unfold round_at. set (k := Qrne (x / 2 ^ ulp_exp x)).
    pose proof (ulp_exp_emin x) as Hs. set (s := ulp_exp x) in *.
    exists (k * 2 ^ (s - emin))%Z. rewrite inject_Z_mult.
    rewrite <- (pow2_Z (s - emin)) by lia.
    rewrite <- Qmult_assoc, <- pow2_add.
    replace (s - emin + emin)%Z with s by lia. reflexivity.
Qed.

Lemma na_grade_representavel (x : Q) : representavel x -> na_grade x.
Proof. intros H. apply (na_grade_proper (fl x)); [exact H | apply na_grade_fl]. Qed.

(** The sum or difference of floats is rounded with a relative error of at
    most [unidade]; any rational with that and half the least float. *)
Lemma fl_erro_pos (x : Q) :
  0 < x ->
  (na_grade x -> x - unidade * x <= fl x /\ fl x <= x + unidade * x) /\
  (x - unidade * x - eta <= fl x /\ fl x <= x + unidade * x + eta).
Proof.
  intros Hx.
  assert (NZ : ~ x == 0) by lra.
  pose proof (fl_nonzero x NZ) as Ef. rewrite (ulp_exp_pos x Hx) in Ef.
  destruct (Qlog2_spec x Hx) as [L1 _].
  set (e := Qlog2 x) in *.
  assert (Hu : unidade * 2 ^ e == 2 ^ (e - 52 - 1)).
  { replace (e - 52 - 1)%Z with (e + -53)%Z by lia. rewrite pow2_add.
    unfold unidade. ring. }
  assert (Hux : 2 ^ (e - 52 - 1) <= unidade * x).
  { rewrite <- Hu. apply Qmult_le_l; [reflexivity | exact L1]. }
  pose proof (Qlt_le_weak _ _ (pow2_pos (e - 52 - 1))) as P1.
  assert (Pe : 0 <= eta) by discriminate.
  assert (Pux : 0 <= unidade * x).
  { apply Qmult_le_0_compat; [discriminate | lra]. }
  destruct (Z_lt_le_dec (e - 52) emin) as [Hlt | Hle].
  - replace (Z.max (e - 52) emin) with emin in Ef by lia.
    pose proof (round_at_erro emin x) as [A B].
    change (2 ^ (emin - 1)) with eta in A, B.
    split; [| rewrite Ef; split; lra].
    intros [m Em]. rewrite Ef, (round_at_exact emin m x Em). split; lra.
  - replace (Z.max (e - 52) emin) with (e - 52)%Z in Ef by lia.
    pose proof (round_at_erro (e - 52) x) as [A B].
    split; [intros _ |]; rewrite Ef; split; lra.
Qed.

Lemma fl_erro_grade (x b : Q) :
  na_grade x -> - b <= x -> x <= b ->
  x - unidade * b <= fl x /\ fl x <= x + unidade * b.
Proof.
  intros Hg L U.
  assert (Hb : 0 <= b) by lra.
  assert (M : forall y, 0 <= y -> y <= b -> unidade * y <= unidade * b).
  { intros y _ Hy. apply Qmult_le_l; [reflexivity | exact Hy]. }
  destruct (Q_dec 0 x) as [[Hp | Hn] | Hz].
  - destruct (proj1 (fl_erro_pos x Hp) Hg) as [A B].
    specialize (M x (Qlt_le_weak _ _ Hp) U). split; lra.
  - assert (Hp : 0 < - x) by lra.
    destruct (proj1 (fl_erro_pos (- x) Hp) (na_grade_opp x Hg)) as [A B].
    rewrite fl_opp in A, B.
    assert (M' : unidade * - x <= unidade * b) by (apply M; lra).
    split; lra.
  - rewrite (fl_zero x) by lra.
    assert (0 <= unidade * b) by (apply Qmult_le_0_compat; [discriminate | lra]).
    split; lra.
Qed.

Lemma fl_erro (x b : Q) :
  - b <= x -> x <= b ->
  x - unidade * b - eta <= fl x /\ fl x <= x + unidade * b + eta.
Proof.
  intros L U.
  assert (Hb : 0 <= b) by lra.
  assert (M : forall y, 0 <= y -> y <= b -> unidade * y <= unidade * b).
  { intros y _ Hy. apply Qmult_le_l; [reflexivity | exact Hy]. }
  assert (Pe : 0 <= eta) by discriminate.
  destruct (Q_dec 0 x) as [[Hp | Hn] | Hz].
  - destruct (proj2 (fl_erro_pos x Hp)) as [A B].
    specialize (M x (Qlt_le_weak _ _ Hp) U). split; lra.
  - assert (Hp : 0 < - x) by lra.
    destruct (proj2 (fl_erro_pos (- x) Hp)) as [A B].
    rewrite fl_opp in A, B.
    assert (M' : unidade * - x <= unidade * b) by (apply M; lra).
    split; lra.
  - rewrite (fl_zero x) by lra.
    assert (0 <= unidade * b) by (apply Qmult_le_0_compat; [discriminate | lra]).
    split; lra.
Qed.

Lemma fl_nonneg (x : Q) : 0 <= x -> 0 <= fl x.
Proof.
  intros H. apply Qle_trans with (fl 0); [discriminate | apply fl_mono; exact H].
Qed.

End ErroDeArredondamento.

Lemma numero_exato_float (x : numero) :
  numero_exato x -> representavel (valor x) /\ to_float x == valor x.
Proof.
  destruct x as [z | q]; cbn.
  - intros Hz. pose proof (fl_Z z Hz) as E. unfold representavel. tauto.
  - intros [Hr _]. split; [exact Hr | reflexivity].
Qed.

(** ** The error of a float sum

    [h] bounds the exact partial sums of non-negative items, [e] is the
    error allowed so far, and one more rounding adds [unidade * h]. *)

Section ErroDaSoma.
Local Open Scope Q_scope.
Variable h : Q.
Hypothesis h_nonneg : 0 <= h.

(** One rounded addition of two floats whose exact sum is at most [2 * h]. *)
Lemma soma_arredondada (a : Q) :
  na_grade a -> - (2 * h) <= a -> a <= 2 * h ->
  a - 2 * (unidade * h) <= fl a /\ fl a <= a + 2 * (unidade * h).
Proof.
  intros G L U. destruct (fl_erro_grade a (2 * h) G L U) as [A B].
  split; lra.
Qed.

(** One step of the compensated sum on a float item. *)
Lemma passo_compensado (f c x s e : Q) :
  na_grade f -> na_grade c -> na_grade x ->
  0 <= f -> 0 <= x -> 0 <= s -> s + x <= h ->
  0 <= e -> 8 * e + 8 * (unidade * h) <= h ->
  s - 2 * e <= f -> f <= s + 2 * e ->
  - (6 * e) <= c -> c <= 6 * e ->
  let t := fl (f + x) in
  let c' := if Qle_bool (Qabs x) (Qabs f)
            then fl (c + fl (fl (f - t) + x))
            else fl (c + fl (fl (x - t) + f)) in
  let e' := e + unidade * h in
  0 <= t /\ s + x - 2 * e' <= t /\ t <= s + x + 2 * e' /\
  - (6 * e') <= c' /\ c' <= 6 * e'.
Proof.
  intros Gf Gc Gx Pf Px Ps Hs Pe Cap Lf Uf Lc Uc t c' e'.
  set (u := unidade * h) in *.
  assert (Pu : 0 <= u) by (apply Qmult_le_0_compat; [discriminate | exact h_nonneg]).
  assert (Gt : na_grade t) by apply na_grade_fl.
  destruct (soma_arredondada (f + x)) as [Lt Ut];
    [apply na_grade_add; assumption | lra | lra |].
  fold t in Lt, Ut. fold u in Lt, Ut.
  assert (Pt : 0 <= t) by (apply fl_nonneg; lra).
  split; [exact Pt |]. unfold e'. split; [lra |]. split; [lra |].
  assert (D : forall w v, na_grade w -> na_grade v ->
            - (2 * h) <= w - t -> w - t <= 2 * h ->
            w + v - t <= 2 * u -> - (2 * u) <= w + v - t ->
            - (6 * (e + u)) <= fl (c + fl (fl (w - t) + v)) /\
            fl (c + fl (fl (w - t) + v)) <= 6 * (e + u)).
  { intros w v Gw Gv L1 U1 L2 U2.
    destruct (soma_arredondada (w - t)) as [Lg Ug];
      [apply na_grade_sub; assumption | lra | lra |].
    fold u in Lg, Ug. set (g := fl (w - t)) in *.
    assert (Gg : na_grade g) by apply na_grade_fl.
    destruct (fl_erro_grade (g + v) h) as [Ld Ud];
      [apply na_grade_add; assumption | lra | lra |].
    fold u in Ld, Ud. set (d := fl (g + v)) in *.
    assert (Gd : na_grade d) by apply na_grade_fl.
    destruct (fl_erro_grade (c + d) h) as [Lc' Uc'];
      [apply na_grade_add; assumption | lra | lra |].
    fold u in Lc', Uc'. split; lra. }
  unfold c'. destruct (Qle_bool (Qabs x) (Qabs f)).
  - apply D; [assumption | assumption | lra | lra | lra | lra].
  - apply D; [assumption | assumption | lra | lra | lra | lra].
Qed.

(** A rating of the data model: a number that a float holds, not negative. *)
Lemma item_na_grade (x : numero) :
  numero_exato x -> na_grade (valor x) /\ to_float x == valor x.
Proof.
  intros Hx. destruct (numero_exato_float x Hx) as [R E].
  split; [apply na_grade_representavel; exact R | exact E].
Qed.

Lemma soma_exata_nonneg (l : list numero) :
  Forall (fun x => 0 <= valor x) l -> 0 <= soma_exata l.
Proof.
  induction 1 as [|x r Hx _ IH]; [discriminate |].
  cbn [soma_exata fold_right]. fold (soma_exata r). lra.
Qed.

Variable n : Z.
Hypothesis cap : 8 * (inject_Z n * (unidade * h)) <= h.

Lemma erro_ate (k : Z) :
  (0 <= k)%Z -> (k <= n)%Z ->
  0 <= inject_Z k * (unidade * h) /\
  inject_Z k * (unidade * h) <= inject_Z n * (unidade * h).
Proof.
  intros K0 Kn.
  assert (Pu : 0 <= unidade * h)
    by (apply Qmult_le_0_compat; [discriminate | exact h_nonneg]).
  split.
  - apply Qmult_le_0_compat; [| exact Pu].
    change 0 with (inject_Z 0). rewrite <- Zle_Qle. exact K0.
  - apply Qmult_le_compat_r; [| exact Pu]. rewrite <- Zle_Qle. exact Kn.
Qed.

(** The float stage of the compensated sum, from the running total [f] and
    the compensation [c] after [k - 1] items of exact sum [s]. *)
Lemma soma_float_erro (r : list numero) :
  forall (f c s : Q) (k : Z),
    Forall numero_exato r -> Forall (fun x => 0 <= valor x) r ->
    na_grade f -> na_grade c -> 0 <= f -> 0 <= s ->
    s + soma_exata r <= h ->
    (0 <= k)%Z -> (k + len r < n)%Z ->
    s - 2 * (inject_Z k * (unidade * h)) <= f ->
    f <= s + 2 * (inject_Z k * (unidade * h)) ->
    - (6 * (inject_Z k * (unidade * h))) <= c ->
    c <= 6 * (inject_Z k * (unidade * h)) ->
    s + soma_exata r - 8 * (inject_Z n * (unidade * h)) <= soma_float f c r /\
    soma_float f c r <= s + soma_exata r + 8 * (inject_Z n * (unidade * h)).
Proof.
  assert (Pu : 0 <= unidade * h)
    by (apply Qmult_le_0_compat; [discriminate | exact h_nonneg]).
  induction r as [|x r IH]; intros f c s k Hex Hpos Gf Gc Pf Ps Hs K0 Kn Lf Uf Lc Uc.
  - cbn [soma_exata fold_right] in *. unfold len in Kn. cbn [length] in Kn.
    destruct (erro_ate k K0 ltac:(lia)) as [E0 E1].
    destruct (erro_ate (k + 1) ltac:(lia) ltac:(lia)) as [_ E2].
    rewrite inject_Z_plus in E2. change (inject_Z 1) with 1 in E2.
    cbn [soma_float]. destruct (Qnonzero c) eqn:Ec.
    + destruct (soma_arredondada (f + c)) as [A B];
        [apply na_grade_add; assumption | lra | lra |]. split; lra.
    + split; lra.
  - apply Forall_cons in Hex. destruct Hex as [Hx Hex].
    apply Forall_cons in Hpos. destruct Hpos as [Px Hpos].
    pose proof (soma_exata_nonneg r Hpos) as Pr.
    cbn [soma_exata fold_right] in *. fold (soma_exata r) in *.
    unfold len in Kn. cbn [length] in Kn.
    destruct (erro_ate k K0 ltac:(lia)) as [E0 E1].
    destruct (erro_ate (k + 1) ltac:(lia) ltac:(lia)) as [_ E2].
    assert (E3 : inject_Z (k + 1) * (unidade * h) ==
                 inject_Z k * (unidade * h) + unidade * h).
    { rewrite inject_Z_plus. change (inject_Z 1) with 1. ring. }
    destruct (item_na_grade x Hx) as [Gx Ex].
    destruct x as [z | q]; cbn [soma_float valor to_float] in *.
    + (* an int item: one rounded addition, the compensation is kept *)
      rewrite (fl_proper (f + fl (inject_Z z)) (f + inject_Z z)) by lra.
      destruct (soma_arredondada (f + inject_Z z)) as [A B];
        [apply na_grade_add; assumption | lra | lra |].
      set (t := fl (f + inject_Z z)) in *.
      assert (Gt : na_grade t) by apply na_grade_fl.
      assert (Pt : 0 <= t) by (apply fl_nonneg; lra).
      assert (Kn' : (k + 1 + len r < n)%Z) by (unfold len; lia).
      destruct (IH t c (s + inject_Z z) (k + 1)%Z Hex Hpos Gt Gc Pt
                  ltac:(lra) ltac:(lra) ltac:(lia) Kn'
                  ltac:(lra) ltac:(lra) ltac:(lra) ltac:(lra)) as [L U].
      split; lra.
    + (* a float item *)
      destruct (passo_compensado f c q s (inject_Z k * (unidade * h)))
        as (Pt & Lt & Ut & Lc' & Uc'); try assumption; try lra.
      cbv zeta in Lt, Ut, Lc', Uc'.
      set (t := fl (f + q)) in *.
      set (c' := if Qle_bool (Qabs q) (Qabs f)
                 then fl (c + fl (fl (f - t) + q))
                 else fl (c + fl (fl (q - t) + f))) in *.
      assert (Gt : na_grade t) by apply na_grade_fl.
      assert (Gc' : na_grade c').
      { unfold c'. destruct (Qle_bool (Qabs q) (Qabs f)); apply na_grade_fl. }
      assert (Kn' : (k + 1 + len r < n)%Z) by (unfold len; lia).
      destruct (IH t c' (s + q) (k + 1)%Z Hex Hpos Gt Gc' Pt
                  ltac:(lra) ltac:(lra) ltac:(lia) Kn'
                  ltac:(lra) ltac:(lra) ltac:(lra) ltac:(lra)) as [L U].
      split; lra.
Qed.

(** An exact int total [i] meets its first float item. *)
Lemma primeiro_float (i : Z) (q : Q) :
  (0 <= i)%Z -> na_grade q -> 0 <= q -> inject_Z i + q <= h ->
  8 * (unidade * h) <= h ->
  0 <= fl (fl (inject_Z i) + q) /\
  inject_Z i + q - 3 * (unidade * h) <= fl (fl (inject_Z i) + q) /\
  fl (fl (inject_Z i) + q) <= inject_Z i + q + 3 * (unidade * h).
Proof.
  intros Hi Gq Pq Hs Hc.
  assert (Pi : 0 <= inject_Z i)
    by (change 0 with (inject_Z 0); rewrite <- Zle_Qle; exact Hi).
  destruct (fl_erro_grade (inject_Z i) h (na_grade_Z i)) as [A B]; [lra | lra |].
  assert (P1 : 0 <= fl (inject_Z i)) by (apply fl_nonneg; exact Pi).
  destruct (soma_arredondada (fl (inject_Z i) + q)) as [C D];
    [apply na_grade_add; [apply na_grade_fl | exact Gq] | lra | lra |].
  split; [apply fl_nonneg; lra |]. split; lra.
Qed.

(** The compensated sum, from the exact int total [i]. *)
Lemma soma_compensada_erro (l : list numero) :
  forall i : Z,
    Forall numero_exato l -> Forall (fun x => 0 <= valor x) l ->
    (0 <= i)%Z -> inject_Z i + soma_exata l <= h ->
    (len l + 2 <= n)%Z ->
    inject_Z i + soma_exata l - 8 * (inject_Z n * (unidade * h)) <=
      valor (soma_compensada_desde i l) /\
    valor (soma_compensada_desde i l) <=
      inject_Z i + soma_exata l + 8 * (inject_Z n * (unidade * h)).
Proof.
  assert (Pu : 0 <= unidade * h)
    by (apply Qmult_le_0_compat; [discriminate | exact h_nonneg]).
  induction l as [|x r IH]; intros i Hex Hpos Hi Hs Hn.
  - cbn [soma_compensada_desde soma_exata fold_right valor].
    unfold len in Hn. cbn [length] in Hn.
    destruct (erro_ate 0 ltac:(lia) ltac:(lia)) as [_ E].
    change (inject_Z 0) with 0 in E. split; lra.
  - apply Forall_cons in Hex. destruct Hex as [Hx Hex].
    apply Forall_cons in Hpos. destruct Hpos as [Px Hpos].
    pose proof (soma_exata_nonneg r Hpos) as Pr.
    cbn [soma_exata fold_right] in *. fold (soma_exata r) in *.
    unfold len in Hn. cbn [length] in Hn.
    assert (Pi : 0 <= inject_Z i)
      by (change 0 with (inject_Z 0); rewrite <- Zle_Qle; exact Hi).
    destruct (item_na_grade x Hx) as [Gx Ex].
    destruct x as [z | q]; cbn [soma_compensada_desde valor to_float] in *.
    + assert (Pz : (0 <= z)%Z).
      { rewrite Zle_Qle. exact Px. }
      destruct (IH (i + z)%Z Hex Hpos ltac:(lia)) as [L U].
      * rewrite inject_Z_plus. lra.
      * unfold len. lia.
      * rewrite inject_Z_plus in L, U. split; lra.
    + destruct (erro_ate 1 ltac:(lia) ltac:(lia)) as [_ E1].
      change (inject_Z 1) with 1 in E1.
      destruct (erro_ate 2 ltac:(lia) ltac:(lia)) as [_ E2].
      change (inject_Z 2) with 2 in E2.
      destruct (primeiro_float i q Hi Gx Px ltac:(lra) ltac:(lra))
        as (Pf & Lf & Uf).
      set (f := fl (fl (inject_Z i) + q)) in *.
      assert (Kn : (2 + len r < n)%Z) by (unfold len; lia).
      destruct (soma_float_erro r f 0 (inject_Z i + q) 2 Hex Hpos
                  (na_grade_fl _) na_grade_0 Pf ltac:(lra) ltac:(lra)
                  ltac:(lia) Kn) as [L U].
      * change (inject_Z 2) with 2. lra.
      * change (inject_Z 2) with 2. lra.
      * change (inject_Z 2) with 2. lra.
      * change (inject_Z 2) with 2. lra.
      * split; lra.
Qed.

Lemma soma_ingenua_erro (l : list numero) :
  forall (acc : numero) (s : Q) (k : Z),
    Forall numero_exato l -> Forall (fun x => 0 <= valor x) l ->
    total_ate h acc s k -> 0 <= s -> s + soma_exata l <= h ->
    (1 <= k)%Z -> (k + len l < n)%Z ->
    s + soma_exata l - 8 * (inject_Z n * (unidade * h)) <=
      valor (fold_left py_add l acc) /\
    valor (fold_left py_add l acc) <=
      s + soma_exata l + 8 * (inject_Z n * (unidade * h)).
Proof.
  assert (Pu : 0 <= unidade * h)
    by (apply Qmult_le_0_compat; [discriminate | exact h_nonneg]).
  induction l as [|x r IH]; intros acc s k Hex Hpos Hacc Ps Hs K1 Kn.
  - cbn [fold_left soma_exata fold_right].
    unfold len in Kn. cbn [length] in Kn.
    destruct (erro_ate k ltac:(lia) ltac:(lia)) as [E0 E1].
    destruct acc as [i | f]; cbn [total_ate valor] in *.
    + destruct Hacc as [_ E]. split; lra.
    + destruct Hacc as (_ & _ & L & U). split; lra.
  - apply Forall_cons in Hex. destruct Hex as [Hx Hex].
    apply Forall_cons in Hpos. destruct Hpos as [Px Hpos].
    pose proof (soma_exata_nonneg r Hpos) as Pr.
    cbn [soma_exata fold_right fold_left] in *. fold (soma_exata r) in *.
    unfold len in Kn. cbn [length] in Kn.
    destruct (erro_ate k ltac:(lia) ltac:(lia)) as [E0 E1].
    destruct (erro_ate (k + 1) ltac:(lia) ltac:(lia)) as [_ E2].
    assert (E3 : inject_Z (k + 1) * (unidade * h) ==
                 inject_Z k * (unidade * h) + unidade * h).
    { rewrite inject_Z_plus. change (inject_Z 1) with 1. ring. }
    assert (Ek : unidade * h <= inject_Z k * (unidade * h)).
    { destruct (erro_ate 1 ltac:(lia) ltac:(lia)) as [_ _].
      assert (1 <= inject_Z k)
        by (change 1 with (inject_Z 1); rewrite <- Zle_Qle; exact K1).
      rewrite <- (Qmult_1_l (unidade * h)) at 1.
      apply Qmult_le_compat_r; assumption. }
    destruct (item_na_grade x Hx) as [Gx Ex].
    assert (Kn' : (k + 1 + len r < n)%Z) by (unfold len; lia).
    assert (Next : forall acc',
      total_ate h acc' (s + valor x) (k + 1) ->
      s + (valor x + soma_exata r) - 8 * (inject_Z n * (unidade * h)) <=
        valor (fold_left py_add r acc') /\
      valor (fold_left py_add r acc') <=
        s + (valor x + soma_exata r) + 8 * (inject_Z n * (unidade * h))).
    { intros acc' Hacc'.
      destruct (IH acc' (s + valor x) (k + 1)%Z Hex Hpos Hacc'
                  ltac:(lra) ltac:(lra) ltac:(lia) Kn') as [L U].
      split; lra. }
    apply Next.
    destruct acc as [i | f], x as [z | q];
      cbn [py_add total_ate valor to_float] in *.
    + destruct Hacc as [Hi E].
      assert (Pz : (0 <= z)%Z) by (rewrite Zle_Qle; exact Px).
      split; [lia |]. rewrite inject_Z_plus. lra.
    + destruct Hacc as [Hi E].
      destruct (primeiro_float i q Hi Gx Px ltac:(lra) ltac:(lra))
        as (Pf & Lf & Uf).
      split; [apply na_grade_fl |]. split; [exact Pf |]. split; lra.
    + destruct Hacc as (Gf & Pf & L & U).
      rewrite (fl_proper (f + fl (inject_Z z)) (f + inject_Z z)) by lra.
      destruct (soma_arredondada (f + inject_Z z)) as [A B];
        [apply na_grade_add; assumption | lra | lra |].
      split; [apply na_grade_fl |]. split; [apply fl_nonneg; lra |].
      split; lra.
    + destruct Hacc as (Gf & Pf & L & U).
      destruct (soma_arredondada (f + q)) as [A B];
        [apply na_grade_add; assumption | lra | lra |].
      split; [apply na_grade_fl |]. split; [apply fl_nonneg; lra |].
      split; lra.
Qed.

(** Both sums are within [8 * n] roundings of the exact sum. *)
Lemma py_sum_erro (impl : soma_impl) (l : list numero) :
  Forall numero_exato l -> Forall (fun x => 0 <= valor x) l ->
  soma_exata l <= h -> (len l + 2 <= n)%Z ->
  soma_exata l - 8 * (inject_Z n * (unidade * h)) <= valor (py_sum impl l) /\
  valor (py_sum impl l) <= soma_exata l + 8 * (inject_Z n * (unidade * h)).
Proof.
  intros Hex Hpos Hs Hn. pose proof (soma_exata_nonneg l Hpos) as Pl.
  destruct impl; cbn [py_sum].
  - destruct (soma_ingenua_erro l (PyInt 0) 0 1 Hex Hpos) as [L U];
      [cbn; split; [lia | reflexivity] | lra | lra | lia | lia |].
    unfold soma_ingenua. split; lra.
  - destruct (soma_compensada_erro l 0 Hex Hpos) as [L U];
      [lia | change (inject_Z 0) with 0; lra | exact Hn |].
    change (inject_Z 0) with 0 in L, U. split; lra.
Qed.

End ErroDaSoma.

(** ** The mean of the ratings *)

Lemma soma_exata_limites (l : list numero) (lo hi : Q) :
  (forall x, In x l -> lo <= valor x /\ valor x <= hi)%Q ->
  (inject_Z (len l) * lo <= soma_exata l /\
   soma_exata l <= inject_Z (len l) * hi)%Q.
Proof.
  unfold len. induction l as [|x r IH]; intros Hb.
  - cbn [length soma_exata fold_right].
    change (inject_Z (Z.of_nat 0)) with 0%Q. split; lra.
  - destruct (Hb x) as [L U]; [left; reflexivity |].
    destruct IH as [L' U']; [intros y Hy; apply Hb; right; exact Hy |].
    cbn [soma_exata fold_right length]. fold (soma_exata r).
    rewrite Nat2Z.inj_succ. unfold Z.succ. rewrite inject_Z_plus.
    change (inject_Z 1) with 1%Q. split; lra.
Qed.

Lemma unidade_valor : (unidade == 1 # 9007199254740992)%Q.
Proof. reflexivity. Qed.

(** [s / n] for a sum [s] and a length [n] that a float holds. *)
Lemma py_truediv_len (s : numero) (n : Z) :
  (0 < n < 2 ^ 53)%Z ->
  py_truediv s (PyInt n) = Ok (PyFloat (fl (valor s / inject_Z n))).
Proof.
  intros Hn. unfold py_truediv. cbn [valor].
  rewrite (inject_Z_nonzero n) by lia.
  destruct s as [a | v]; cbn [valor to_float]; [reflexivity |].
  do 2 f_equal. apply fl_proper.
  rewrite (fl_Z n) by lia. reflexivity.
Qed.

(** The quotient of a sum between [n * lo] and [n * hi]. *)
Lemma quociente_limites (v lo hi : Q) (n : Z) :
  (0 < n)%Z ->
  (inject_Z n * lo <= v -> lo <= v / inject_Z n)%Q /\
  (v <= inject_Z n * hi -> v / inject_Z n <= hi)%Q.
Proof.
  intros Hn.
  assert (Pn : (0 < inject_Z n)%Q)
    by (change 0%Q with (inject_Z 0); rewrite <- Zlt_Qlt; exact Hn).
  split; intros H.
  - apply Qle_shift_div_l; [exact Pn |]. lra.
  - apply Qle_shift_div_r; [exact Pn |]. lra.
Qed.

Section MediaDasNotas.
Local Open Scope Q_scope.
Variables (impl : soma_impl) (f0 : filme) (resto : list filme).
Variables lo hi : filme.
Hypothesis exatas : Forall nota_exata (f0 :: resto).
Hypothesis extremos :
  forall f, In f (f0 :: resto) -> nota lo <= nota f /\ nota f <= nota hi.
Hypothesis lo_presente : In lo (f0 :: resto).
Hypothesis hi_presente : In hi (f0 :: resto).

Let filmes := f0 :: resto.
Let n := len filmes.
Let v := valor (py_sum impl (map avaliacao filmes)).

Lemma media_forma :
  (n < 2 ^ 53)%Z ->
  calcular_media_avaliacao impl filmes = Ok (PyFloat (fl (v / inject_Z n))).
Proof.
  intros Hn.
  assert (Pn : (0 < n)%Z) by (unfold n, filmes, len; cbn [length]; lia).
  unfold calcular_media_avaliacao, v, filmes. cbn [vazia].
  rewrite len_map. apply py_truediv_len. split; [exact Pn | exact Hn].
Qed.

Lemma extremo_exato (f : filme) :
  In f filmes -> fl (nota f) == nota f.
Proof.
  intros Hf. pose proof exatas as H. rewrite Forall_forall in H.
  apply (numero_exato_float (avaliacao f)). apply H.
  apply list_elem_of_In. exact Hf.
Qed.

(** When the float sum lies between [n] times the least and [n] times the
    greatest rating, so does the mean between the two ratings. *)
Lemma media_criterio :
  (n < 2 ^ 53)%Z ->
  inject_Z n * nota lo <= v -> v <= inject_Z n * nota hi ->
  exists m, calcular_media_avaliacao impl filmes = Ok m /\
            nota lo <= valor m /\ valor m <= nota hi.
Proof.
  intros Hn L U. eexists. split; [apply media_forma; exact Hn |].
  cbn [valor].
  assert (Pn : (0 < n)%Z) by (unfold n, filmes, len; cbn [length]; lia).
  destruct (quociente_limites v (nota lo) (nota hi) n Pn) as [Q1 Q2].
  split.
  - apply Qle_trans with (fl (nota lo));
      [rewrite (extremo_exato lo lo_presente); apply Qle_refl |].
    apply fl_mono. apply Q1. exact L.
  - apply Qle_trans with (fl (nota hi));
      [| rewrite (extremo_exato hi hi_presente); apply Qle_refl].
    apply fl_mono. apply Q2. exact U.
Qed.

(** The mean is the exact mean up to rounding. *)
Lemma media_erro :
  (n + 2 <= 2 ^ 50)%Z -> 0 <= nota lo ->
  exists m, calcular_media_avaliacao impl filmes = Ok m /\
    media_exata filmes - tolerancia filmes (nota hi) <= valor m /\
    valor m <= media_exata filmes + tolerancia filmes (nota hi) /\
    nota lo <= media_exata filmes /\ media_exata filmes <= nota hi.
Proof.
  intros Hn Plo.
  assert (Pn : (0 < n)%Z) by (unfold n, filmes, len; cbn [length]; lia).
  assert (PnQ : 0 < inject_Z n)
    by (change 0 with (inject_Z 0); rewrite <- Zlt_Qlt; exact Pn).
  eexists. split; [apply media_forma; lia |]. cbn [valor].
  assert (Phi : 0 <= nota hi).
  { destruct (extremos lo lo_presente). lra. }
  set (h := inject_Z n * nota hi).
  assert (Ph : 0 <= h) by (apply Qmult_le_0_compat; lra).
  set (l := map avaliacao filmes).
  assert (Ll : len l = n) by (unfold l; apply len_map).
  assert (Hex : Forall numero_exato l).
  { unfold l. apply Forall_forall. intros x Hx. apply list_elem_of_In in Hx.
    apply in_map_iff in Hx. destruct Hx as (f & <- & Hf).
    pose proof exatas as H. rewrite Forall_forall in H. apply (H f).
    apply list_elem_of_In. exact Hf. }
  assert (Hb : forall x, In x l -> nota lo <= valor x /\ valor x <= nota hi).
  { intros x Hx. unfold l in Hx. apply in_map_iff in Hx.
    destruct Hx as (f & <- & Hf). apply extremos. exact Hf. }
  assert (Hpos : Forall (fun x => 0 <= valor x) l).
  { apply Forall_forall. intros x Hx. apply list_elem_of_In in Hx.
    destruct (Hb x Hx). lra. }
  destruct (soma_exata_limites l (nota lo) (nota hi) Hb) as [TL TU].
  rewrite Ll in TL, TU. fold h in TU.
  set (t := soma_exata l) in *.
  (* the error of the sum *)
  assert (Hcap : 8 * inject_Z (n + 2) * unidade <= 1).
  { assert (inject_Z (n + 2) <= inject_Z (2 ^ 50)) by (rewrite <- Zle_Qle; exact Hn).
    rewrite unidade_valor.
    change (inject_Z (2 ^ 50)) with (1125899906842624 # 1) in H. lra. }
  assert (Hcaph : 8 * (inject_Z (n + 2) * (unidade * h)) <= h).
  { assert (X : (8 * inject_Z (n + 2) * unidade) * h <= 1 * h)
      by (apply Qmult_le_compat_r; [exact Hcap | exact Ph]).
    lra. }
  destruct (py_sum_erro h Ph (n + 2) Hcaph impl l Hex Hpos TU ltac:(lia))
    as [SL SU].
  fold t in SL, SU. fold l in v. fold v in SL, SU.
  (* divided by the length *)
  set (d := 8 * inject_Z (n + 2) * unidade * nota hi).
  assert (Pd : 0 <= d).
  { unfold d. repeat apply Qmult_le_0_compat; try lra; try discriminate;
      change 0 with (inject_Z 0); rewrite <- Zle_Qle; lia. }
  assert (Dh : 8 * (inject_Z (n + 2) * (unidade * h)) == inject_Z n * d).
  { unfold d, h. ring. }
  assert (Dhi : d <= nota hi).
  { assert (X : (8 * inject_Z (n + 2) * unidade) * nota hi <= 1 * nota hi)
      by (apply Qmult_le_compat_r; [exact Hcap | exact Phi]).
    unfold d. lra. }
  set (a := t / inject_Z n).
  assert (Ea : t == inject_Z n * a) by (unfold a; field; lra).
  destruct (quociente_limites t (nota lo) (nota hi) n Pn) as [A1 A2].
  specialize (A1 TL). specialize (A2 TU). fold a in A1, A2.
  destruct (quociente_limites v (a - d) (a + d) n Pn) as [Q1 Q2].
  assert (Q1' : a - d <= v / inject_Z n).
  { apply Q1. rewrite Dh in SL. lra. }
  assert (Q2' : v / inject_Z n <= a + d).
  { apply Q2. rewrite Dh in SU. lra. }
  set (q := v / inject_Z n) in *.
  destruct (fl_erro q (2 * nota hi)) as [F1 F2]; [lra | lra |].
  assert (Et : tolerancia filmes (nota hi) ==
               inject_Z (n + 3) * (8 * unidade) * nota hi + eta).
  { unfold tolerancia. fold n. reflexivity. }
  assert (Dt : d + unidade * (2 * nota hi) <=
               inject_Z (n + 3) * (8 * unidade) * nota hi).
  { unfold d. rewrite !inject_Z_plus.
    change (inject_Z 2) with 2. change (inject_Z 3) with 3.
    assert (0 <= unidade * nota hi)
      by (apply Qmult_le_0_compat; [discriminate | exact Phi]).
    assert (0 <= inject_Z n * (unidade * nota hi)).
    { apply Qmult_le_0_compat; [lra | assumption]. }
    lra. }
  unfold media_exata. fold l. fold t. fold n. fold a.
  rewrite Et. split; [lra |]. split; [lra |]. split; [exact A1 | exact A2].
Qed.

End MediaDasNotas.

(** C6 (amended): the mean of the empty catalogue is 0.0.  For a catalogue
    that is not empty, of fewer than 2^50 movies whose ratings are in the
    domain 0 to 10 of the data model, each an int or a finite float,
    [calcular_media_avaliacao] returns the exact mean up to rounding: the
    result is at most [(n + 3) * 2^-50 * max + 2^-1075] away from the exact
    mean, which lies between the least and the greatest rating, so the
    result lies between them up to that error.  It lies exactly between
    them whenever the float sum of the ratings lies between [n] times the
    least and [n] times the greatest rating, and whenever the ratings are
    ints; then it is the exact mean rounded once. *)
Theorem C6_media_entre_extremos (impl : soma_impl) (f0 : filme)
    (resto : list filme) :
  Forall nota_exata (f0 :: resto) ->
  Forall nota_no_dominio (f0 :: resto) ->
  (len (f0 :: resto) + 2 <= 2 ^ 50)%Z ->
  calcular_media_avaliacao impl [] = Ok (PyFloat 0) /\
  exists m lo hi,
    calcular_media_avaliacao impl (f0 :: resto) = Ok m /\
    In lo (f0 :: resto) /\ In hi (f0 :: resto) /\
    (forall f, In f (f0 :: resto) ->
       (nota lo <= nota f)%Q /\ (nota f <= nota hi)%Q) /\
    (media_exata (f0 :: resto) - tolerancia (f0 :: resto) (nota hi)
       <= valor m)%Q /\
    (valor m <=
       media_exata (f0 :: resto) + tolerancia (f0 :: resto) (nota hi))%Q /\
    (nota lo <= media_exata (f0 :: resto))%Q /\
    (media_exata (f0 :: resto) <= nota hi)%Q /\
    (nota lo - tolerancia (f0 :: resto) (nota hi) <= valor m)%Q /\
    (valor m <= nota hi + tolerancia (f0 :: resto) (nota hi))%Q /\
    ((inject_Z (len (f0 :: resto)) * nota lo <=
        valor (py_sum impl (map avaliacao (f0 :: resto))))%Q ->
     (valor (py_sum impl (map avaliacao (f0 :: resto))) <=
        inject_Z (len (f0 :: resto)) * nota hi)%Q ->
     entre_extremos (f0 :: resto) m) /\
    (Forall nota_inteira (f0 :: resto) ->
     m = PyFloat
           (fl (inject_Z (soma_Z (map (fun f => py_int (avaliacao f))
                                    (f0 :: resto))) /
                inject_Z (len (f0 :: resto)))) /\
     entre_extremos (f0 :: resto) m).
Proof.
  intros Hex Hdom Hn. split; [reflexivity |].
  destruct (media_retorna impl f0 resto) as [q Hq].
  destruct (py_min_primeiro avaliacao f0 resto) as (lo & _ & Plo).
  destruct (py_max_primeiro avaliacao f0 resto) as (hi & _ & Phi).
  destruct (primeiro_minimo_numero _ _ _ Plo) as (i & Hi & Hmin & _).
  destruct (primeiro_maximo_numero _ _ _ Phi) as (k & Hk & Hmax & _).
  assert (Ilo : In lo (f0 :: resto))
    by (apply list_elem_of_In; eapply list_elem_of_lookup_2; exact Hi).
  assert (Ihi : In hi (f0 :: resto))
    by (apply list_elem_of_In; eapply list_elem_of_lookup_2; exact Hk).
  assert (Hext : forall f, In f (f0 :: resto) ->
                   (nota lo <= nota f)%Q /\ (nota f <= nota hi)%Q).
  { intros f Hf. split; [apply Hmin | apply Hmax]; exact Hf. }
  assert (Plo0 : (0 <= nota lo)%Q).
  { rewrite Forall_forall in Hdom.
    destruct (Hdom lo) as [P _]; [apply list_elem_of_In; exact Ilo | exact P]. }
  destruct (media_erro impl f0 resto lo hi Hex Hext Ilo Hn Plo0)
    as (m & Hm & E1 & E2 & A1 & A2).
  rewrite Hq in Hm. injection Hm as <-.
  exists (PyFloat q), lo, hi.
  split; [exact Hq |]. split; [exact Ilo |]. split; [exact Ihi |].
  split; [exact Hext |].
  split; [exact E1 |]. split; [exact E2 |]. split; [exact A1 |].
  split; [exact A2 |]. split; [lra |]. split; [lra |]. split.
  - (* the float sum between n times the extremes *)
    intros L U.
    destruct (media_criterio impl f0 resto lo hi Hex Ilo Ihi ltac:(lia) L U)
      as (m & Hm & B1 & B2).
    rewrite Hq in Hm. injection Hm as <-.
    exists lo, hi. split; [exact Ilo |]. split; [exact Ihi |].
    split; [exact Hext |]. split; assumption.
  - (* int ratings *)
    intros Hint.
    destruct (media_de_inteiros impl f0 resto Hint) as (_ & m & Hm & Em & He).
    rewrite Hq in Hm. injection Hm as <-. split; [exact Em | exact He].
Qed.

(** The ratings 8.7, 9.2, 7.8: floats of the domain, and a mean within the
    rounding error of the least and the greatest. *)
Lemma C6_media_entre_extremos_witness :
  Forall nota_exata notas_879278 /\
  Forall nota_no_dominio notas_879278 /\
  (len notas_879278 + 2 <= 2 ^ 50)%Z /\
  exists m lo hi,
    calcular_media_avaliacao Compensada notas_879278 = Ok m /\
    In lo notas_879278 /\ In hi notas_879278 /\
    (nota lo - tolerancia notas_879278 (nota hi) <= valor m)%Q /\
    (valor m <= nota hi + tolerancia notas_879278 (nota hi))%Q.
Proof.
  assert (H : Forall nota_exata notas_879278).
  { unfold notas_879278.
    repeat (apply List.Forall_cons;
            [split; [vm_compute; reflexivity
                    | apply Qle_bool_iff; vm_compute; reflexivity] |]).
    apply List.Forall_nil. }
  assert (D : Forall nota_no_dominio notas_879278).
  { unfold notas_879278.
    repeat (apply List.Forall_cons;
            [split; apply Qle_bool_iff; vm_compute; reflexivity |]).
    apply List.Forall_nil. }
  assert (N : (len notas_879278 + 2 <= 2 ^ 50)%Z) by (vm_compute; discriminate).
  split; [exact H |]. split; [exact D |]. split; [exact N |].
  destruct (C6_media_entre_extremos Compensada _ _ H D N)
    as (_ & m & lo & hi & Hm & Ilo & Ihi & _ & _ & _ & _ & _ & L & U & _).
  exists m, lo, hi. split; [exact Hm |]. split; [exact Ilo |].
  split; [exact Ihi |]. split; [exact L | exact U].
Defined.

(** On the ratings 8.7, 9.2, 7.8 and on 7.5, 8.25, 9.0 the float sum lies
    between three times the least and three times the greatest rating, and
    the mean between the two ratings, with either implementation of [sum]. *)
Example media_de_decimais (impl : soma_impl) :
  (3 * fl (78 # 10) <= valor (py_sum impl (map avaliacao notas_879278)))%Q /\
  (valor (py_sum impl (map avaliacao notas_879278)) <= 3 * fl (92 # 10))%Q /\
  (exists m, calcular_media_avaliacao impl notas_879278 = Ok m /\
             entre_extremos notas_879278 m) /\
  (3 * (75 # 10) <= valor (py_sum impl (map avaliacao notas_quartos)))%Q /\
  (valor (py_sum impl (map avaliacao notas_quartos)) <= 3 * 9)%Q /\
  (exists m, calcular_media_avaliacao impl notas_quartos = Ok m /\
             entre_extremos notas_quartos m).
Proof.
  split; [destruct impl; apply Qle_bool_iff; vm_compute; reflexivity |].
  split; [destruct impl; apply Qle_bool_iff; vm_compute; reflexivity |].
  split.
  { eexists. split; [destruct impl; vm_compute; reflexivity |].
    exists (filme_de "c" (PyFloat (fl (78 # 10))) "C" 1 30 true),
           (filme_de "b" (PyFloat (fl (92 # 10))) "B" 2 0 false).
    split; [cbn; tauto |]. split; [cbn; tauto |]. split.
    - intros f [<- | [<- | [<- | []]]]; split; apply Qle_bool_iff;
        vm_compute; reflexivity.
    - destruct impl; split; apply Qle_bool_iff; vm_compute; reflexivity. }
  split; [destruct impl; apply Qle_bool_iff; vm_compute; reflexivity |].
  split; [destruct impl; apply Qle_bool_iff; vm_compute; reflexivity |].
  eexists. split; [destruct impl; vm_compute; reflexivity |].
  exists (filme_de "a" (PyFloat (75 # 10)) "A" 1 30 true),
         (filme_de "c" (PyFloat 9) "C" 1 30 true).
  split; [cbn; tauto |]. split; [cbn; tauto |]. split.
  - intros f [<- | [<- | [<- | []]]]; split; apply Qle_bool_iff;
      vm_compute; reflexivity.
  - destruct impl; split; apply Qle_bool_iff; vm_compute; reflexivity.
Qed.

(** The mean of three ratings 0.1 is the float after 0.1: it is greater than
    every rating present, with either implementation of [sum]. *)
Lemma C6_contraexemplo_decimos :
  notas_decimos <> [] /\
  (exists m, calcular_media_avaliacao Ingenua notas_decimos = Ok m /\
             ~ entre_extremos notas_decimos m) /\
  (exists m, calcular_media_avaliacao Compensada notas_decimos = Ok m /\
             ~ entre_extremos notas_decimos m).
Proof.
  split; [discriminate |].
  split; eexists; (split; [vm_compute; reflexivity |]);
    intros (lo & hi & _ & Hhi & _ & _ & Hle);
    destruct Hhi as [<-|[<-|[<-|[]]]];
    vm_compute in Hle; apply Hle; reflexivity.
Qed.

(** The kernel's binary64 arithmetic gives the same mean of 0.1, 0.1, 0.1,
    greater than 0.1. *)
Example media_decimos_kernel :
  let x := 0x1.999999999999ap-4%float in
  F2Q ((x + x + x) / 3)%float =
    (match calcular_media_avaliacao Ingenua notas_decimos with
     | Ok m => Some (valor m)
     | Raise _ => None
     end) /\
  PrimFloat.ltb x ((x + x + x) / 3)%float = true.
Proof. split; vm_compute; reflexivity. Qed.

(** ** Hours and minutes of the mean duration *)

Lemma Qtrunc_nonneg (q : Q) : (0 <= q)%Q -> Qtrunc q = Qfloor q.
Proof.
  intros H. unfold Qtrunc. apply Qle_bool_iff in H. rewrite H. reflexivity.
Qed.

Lemma Qneg_nonneg (q : Q) : (0 <= q)%Q -> Qneg q = false.
Proof.
  intros H. unfold Qneg. apply Qle_bool_iff in H. rewrite H. reflexivity.
Qed.

Lemma Qnonzero_false (q : Q) : Qnonzero q = false -> (q == 0)%Q.
Proof.
  unfold Qnonzero. intros H. apply negb_false_iff in H.
  apply Qeq_bool_iff. exact H.
Qed.

Lemma Qfloor_div_60 (m : Q) :
  (0 <= m)%Q ->
  (0 <= Qfloor (m / 60))%Z /\
  (inject_Z (Qfloor (m / 60)) * 60 <= m)%Q /\
  (m < inject_Z (Qfloor (m / 60)) * 60 + 60)%Q.
Proof.
  intros Hm.
  assert (Hd : (0 <= m / 60)%Q) by (apply Qle_shift_div_l; [reflexivity | lra]).
  pose proof (Qfloor_le (m / 60)) as L. pose proof (Qlt_floor (m / 60)) as U.
  rewrite inject_Z_plus in U. change (inject_Z 1) with 1%Q in U.
  assert (E : (m == m / 60 * 60)%Q) by (field).
  split; [| split].
  - change 0%Z with (Qfloor (inject_Z 0)). apply Qfloor_resp_le. exact Hd.
  - rewrite E at 2. apply Qmult_le_compat_r; [exact L | discriminate].
  - rewrite E at 1. lra.
Qed.

Lemma fmod_60 (m : Q) :
  (0 <= m)%Q -> fmod m 60 = (m - inject_Z (Qfloor (m / 60)) * 60)%Q.
Proof.
  intros Hm. unfold fmod. rewrite Qtrunc_nonneg; [reflexivity |].
  apply Qle_shift_div_l; [reflexivity | lra].
Qed.

(** Below [2^53] the floor division of a float by 60 is exact. *)
Lemma float_floor_div_60 (m : Q) :
  (0 <= m)%Q -> (m < inject_Z (2 ^ 53))%Q ->
  (float_floor_div m 60 == inject_Z (Qfloor (m / 60)))%Q.
Proof.
  intros Hm Hb. destruct (Qfloor_div_60 m Hm) as (K0 & KL & KU).
  set (k := Qfloor (m / 60)) in *.
  assert (Kb : (k * 60 < 2 ^ 53)%Z).
  { rewrite Zlt_Qlt. rewrite inject_Z_mult. change (inject_Z 60) with 60%Q. lra. }
  unfold float_floor_div. rewrite (fmod_60 m Hm). fold k.
  set (resto := (m - inject_Z k * 60)%Q).
  assert (R0 : (0 <= resto)%Q) by (unfold resto; lra).
  rewrite (Qneg_nonneg 60) by discriminate. rewrite (Qneg_nonneg resto R0).
  cbn [Bool.eqb negb]. rewrite andb_false_r.
  assert (E1 : (m - resto == inject_Z (k * 60))%Q).
  { unfold resto. rewrite inject_Z_mult. change (inject_Z 60) with 60%Q. ring. }
  rewrite (fl_proper _ _ E1).
  assert (E2 : (fl (inject_Z (k * 60)) / 60 == inject_Z k)%Q).
  { rewrite fl_Z by lia. rewrite inject_Z_mult. change (inject_Z 60) with 60%Q.
    field. }
  rewrite (fl_proper _ _ E2).
  assert (E3 : (fl (inject_Z k) == inject_Z k)%Q) by (apply fl_Z; lia).
  destruct (Qnonzero (fl (inject_Z k))) eqn:NZ.
  - rewrite (Qfloor_comp _ _ E3), Qfloor_Z.
    assert (E4 : (fl (inject_Z k) - inject_Z k == 0)%Q) by lra.
    rewrite (fl_zero _ E4). cbn. reflexivity.
  - apply Qnonzero_false in NZ. lra.
Qed.

Lemma float_rem_60 (m : Q) :
  (0 <= m)%Q -> float_rem m 60 = (m - inject_Z (Qfloor (m / 60)) * 60)%Q.
Proof.
  intros Hm. destruct (Qfloor_div_60 m Hm) as (K0 & KL & KU).
  unfold float_rem. rewrite (fmod_60 m Hm).
  rewrite (Qneg_nonneg 60) by discriminate.
  rewrite Qneg_nonneg by lra.
  cbn [Bool.eqb negb]. rewrite andb_false_r. reflexivity.
Qed.

(** C9 (amended): for a catalogue that is not empty and whose durations are
    not negative and below 2^53 minutes, the mean duration is the sum of the
    durations in minutes divided by their number, as [/] computes it: the
    exact mean rounded to a float; and the hours and minutes displayed are
    [floor (mean / 60)] and [floor (mean mod 60)]. *)
Theorem C9_duracao_media (impl : soma_impl) (f0 : filme)
    (resto : list filme) :
  Forall (fun f => (0 <= minutos_de f < 2 ^ 53)%Z) (f0 :: resto) ->
  exists a media,
    exibir_estatisticas_adicionais impl (f0 :: resto) = Ok a /\
    py_truediv
      (py_sum impl (map (fun f => PyInt (minutos_de f)) (f0 :: resto)))
      (PyInt (len (f0 :: resto))) = Ok (duracao_media_min a) /\
    duracao_media_min a = PyFloat media /\
    media = fl (inject_Z (soma_Z (map minutos_de (f0 :: resto))) /
                inject_Z (len (f0 :: resto))) /\
    horas a = Qfloor (media / 60) /\
    minutos a = Qfloor (media - inject_Z (Qfloor (media / 60)) * 60) /\
    (0 <= minutos a < 60)%Z.
Proof.
  intros Hdur.
  destruct (adicionais_nao_vazio impl f0 resto) as (mx & mn & _ & _ & Ha).
  cbv zeta in Ha.
  set (filmes := f0 :: resto) in *.
  set (media := fl (inject_Z (soma_Z (map minutos_de filmes)) /
                    inject_Z (len filmes))) in *.
  eexists _, media. split; [exact Ha |].
  cbn [duracao_media_min horas minutos].
  assert (Hmean : (0 <= inject_Z (soma_Z (map minutos_de filmes)) /
                        inject_Z (len filmes))%Q /\
                  (inject_Z (soma_Z (map minutos_de filmes)) /
                     inject_Z (len filmes) <= inject_Z (2 ^ 53 - 1))%Q).
  { rewrite <- (len_map minutos_de filmes).
    apply (media_exata_limites (map minutos_de filmes) 0 (2 ^ 53 - 1)).
    - unfold filmes. discriminate.
    - intros z Hz. apply in_map_iff in Hz. destruct Hz as (f & <- & Hf).
      rewrite Forall_forall in Hdur.
      specialize (Hdur f (proj2 (list_elem_of_In _ _) Hf)). cbn in Hdur. lia. }
  destruct Hmean as [M0 M1].
  assert (H0 : (0 <= media)%Q).
  { change 0%Q with (fl 0). apply fl_mono. exact M0. }
  assert (H1 : (media < inject_Z (2 ^ 53))%Q).
  { apply Qle_lt_trans with (inject_Z (2 ^ 53 - 1)).
    - rewrite <- (fl_Z (2 ^ 53 - 1)) by (cbn; lia). apply fl_mono. exact M1.
    - rewrite <- Zlt_Qlt. lia. }
  destruct (Qfloor_div_60 media H0) as (K0 & KL & KU).
  assert (Hh : Qtrunc (float_floor_div media 60) = Qfloor (media / 60)).
  { rewrite Qtrunc_nonneg.
    - rewrite (Qfloor_comp _ _ (float_floor_div_60 media H0 H1)).
      apply Qfloor_Z.
    - rewrite (float_floor_div_60 media H0 H1).
      change 0%Q with (inject_Z 0). rewrite <- Zle_Qle. exact K0. }
  assert (Hm : Qtrunc (float_rem media 60) =
               Qfloor (media - inject_Z (Qfloor (media / 60)) * 60)).
  { rewrite (float_rem_60 media H0). apply Qtrunc_nonneg. lra. }
  split.
  { rewrite <- (map_map minutos_de PyInt), py_sum_ints.
    apply py_truediv_int. apply len_cons_nonzero. }
  split; [reflexivity |]. split; [reflexivity |].
  split; [exact Hh |]. split; [exact Hm |].
  rewrite Hm. split.
  - change 0%Z with (Qfloor (inject_Z 0)). apply Qfloor_resp_le.
    change (inject_Z 0) with 0%Q. lra.
  - assert (Q : (inject_Z (Qfloor (media - inject_Z (Qfloor (media / 60)) * 60))
                 < inject_Z 60)%Q).
    { eapply Qle_lt_trans; [apply Qfloor_le |]. change (inject_Z 60) with 60%Q. lra. }
    rewrite <- Zlt_Qlt in Q. exact Q.
Qed.

(** Durations 1h30, 2h00, 1h30, 2h00: the mean is 105 minutes, 1h45. *)
Lemma C9_duracao_media_witness :
  Forall (fun f => (0 <= minutos_de f < 2 ^ 53)%Z) notas_5678 /\
  exists a,
    exibir_estatisticas_adicionais Ingenua notas_5678 = Ok a /\
    duracao_media_min a = PyFloat 105 /\ horas a = 1%Z /\ minutos a = 45%Z.
Proof.
  assert (H : Forall (fun f => (0 <= minutos_de f < 2 ^ 53)%Z) notas_5678).
  { repeat constructor; vm_compute; discriminate. }
  split; [exact H |].
  destruct (C9_duracao_media Ingenua _ _ H)
    as (a & media & Ha & _ & Hd & Em & Hh & Hm & _).
  exists a. split; [exact Ha |].
  assert (E : media = 105%Q) by (rewrite Em; vm_compute; reflexivity).
  subst media. split; [exact Hd |].
  split; [rewrite Hh | rewrite Hm]; vm_compute; reflexivity.
Defined.

(** Beyond 2^53 hours the floor division of floats is no longer exact.  For
    one movie of [60 * (2^53 + 9) + 36] minutes the mean is that number, and
    the hours displayed are [2^53 + 8]: neither [floor (mean / 60)], which is
    [2^53 + 9], nor the floor of the float quotient [mean / 60], which is
    [2^53 + 10]. *)
Lemma C9_contraexemplo_duracao_enorme :
  duracao_enorme <> [] /\
  exists a,
    exibir_estatisticas_adicionais Ingenua duracao_enorme = Ok a /\
    exibir_estatisticas_adicionais Compensada duracao_enorme = Ok a /\
    duracao_media_min a = PyFloat 540431955284460096 /\
    horas a = 9007199254741000%Z /\
    Qfloor (valor (duracao_media_min a) / 60) = 9007199254741001%Z /\
    Qfloor (fl (valor (duracao_media_min a) / 60)) = 9007199254741002%Z /\
    horas a <> Qfloor (valor (duracao_media_min a) / 60).
Proof.
  split; [discriminate |]. eexists.
  split; [vm_compute; reflexivity |].
  split; [vm_compute; reflexivity |].
  split; [reflexivity |]. split; [reflexivity |].
  split; [vm_compute; reflexivity |].
  split; [vm_compute; reflexivity |].
  vm_compute. discriminate.
Qed.

(** The kernel's binary64 arithmetic takes the same steps: the difference
    [mean - 36] rounds to [mean - 64], and the quotient by 60 to
    [2^53 + 8]. *)
Example duracao_enorme_kernel :
  F2Q (540431955284460096 - 36)%float = Some 540431955284460032%Q /\
  F2Q ((540431955284460096 - 36) / 60)%float = Some 9007199254741000%Q.
Proof. split; vm_compute; reflexivity. Qed.

(** ** Methods on the heap *)

Section Heap.
Implicit Types (h : gmap nat objeto) (self : instancia).

Lemma alocar_spec (o : objeto) h :
  exists p, alocar o h = (p, <[p := o]> h) /\ h !! p = None.
Proof.
  exists (fresh (dom h)). split; [reflexivity |].
  apply not_elem_of_dom. apply is_fresh.
Qed.

Lemma alocar_subseteq (o : objeto) h :
  h ⊆ (alocar o h).2.
Proof.
  destruct (alocar_spec o h) as (p & -> & Hp). cbn.
  apply insert_subseteq. exact Hp.
Qed.

Lemma ler_filmes_spec h (p : nat) (filmes : list filme) :
  h !! p = Some (ListaFilmes filmes) -> ler_filmes p h = (filmes, h).
Proof. intros H. unfold ler_filmes. rewrite H. reflexivity. Qed.

Lemma retorna_alocar {A} (o : objeto) (k : nat -> estado A) (v : A) h :
  (forall p h1, h ⊆ h1 -> h1 !! p = Some o -> retorna (k p) v h1) ->
  retorna (alocar o ≫= k) v h.
Proof.
  intros Hk. destruct (alocar_spec o h) as (p & E & Hp).
  destruct (Hk p (<[p := o]> h)) as (h' & Ek & Hs).
  - apply insert_subseteq. exact Hp.
  - apply lookup_insert_eq.
  - exists h'. split.
    + unfold mbind, estado_bind. rewrite E. exact Ek.
    + etransitivity; [| exact Hs]. apply insert_subseteq. exact Hp.
Qed.

Lemma retorna_mret {A} (v : A) h : retorna (mret v) v h.
Proof. exists h. split; reflexivity. Qed.

Lemma retorna_ler {A} (p : nat) (filmes : list filme)
    (k : list filme -> estado A) (v : A) h :
  h !! p = Some (ListaFilmes filmes) ->
  retorna (k filmes) v h ->
  retorna (ler_filmes p ≫= k) v h.
Proof.
  intros Hp (h' & Ek & Hs). exists h'. split; [| exact Hs].
  unfold mbind, estado_bind. rewrite (ler_filmes_spec h p filmes Hp). exact Ek.
Qed.

Lemma retorna_fmap {A B} (f : A -> B) (m : estado A) (v : A) h :
  retorna m v h -> retorna (f <$> m) (f v) h.
Proof.
  intros (h' & E & Hs). exists h'. split; [| exact Hs].
  unfold fmap, estado_fmap. rewrite E. reflexivity.
Qed.

Lemma m_calcular_media_retorna (impl : soma_impl) self h filmes :
  h !! filmes_ref self = Some (ListaFilmes filmes) ->
  retorna (m_calcular_media_avaliacao impl self)
    (calcular_media_avaliacao impl filmes) h.
Proof.
  intros Hf. unfold m_calcular_media_avaliacao, calcular_media_avaliacao.
  apply (retorna_ler _ filmes); [exact Hf |].
  destruct (vazia filmes); [apply retorna_mret |].
  apply retorna_alocar. intros p h1 _ _. apply retorna_mret.
Qed.

Lemma m_calcular_mediana_retorna self h filmes :
  h !! filmes_ref self = Some (ListaFilmes filmes) ->
  retorna (m_calcular_mediana_avaliacao self)
    (calcular_mediana_avaliacao filmes) h.
Proof.
  intros Hf. unfold m_calcular_mediana_avaliacao, calcular_mediana_avaliacao.
  apply (retorna_ler _ filmes); [exact Hf |].
  destruct (vazia filmes); [apply retorna_mret |].
  apply retorna_alocar. intros p h1 _ _. apply retorna_mret.
Qed.

(** The sort is in place, on the list that the comprehension has just
    built: [self.filmes] is another object. *)
Lemma sort_in_place_novo {A} (p : nat) (l : list filme)
    (k : unit -> estado A) (v : A) h h0 :
  h0 !! p = None -> h0 ⊆ h -> h !! p = Some (ListaFilmes l) ->
  (forall h1, h0 ⊆ h1 ->
     h1 !! p = Some (ListaFilmes (py_sorted avaliacao true l)) ->
     exists h', k tt h1 = (v, h') /\ h0 ⊆ h') ->
  exists h', (sort_in_place p avaliacao true ≫= k) h = (v, h') /\ h0 ⊆ h'.
Proof.
  intros Hnew Hsub Hp Hk.
  destruct (Hk (<[p := ListaFilmes (py_sorted avaliacao true l)]> h))
    as (h' & Ek & Hs).
  - apply map_subseteq_spec. intros q o Hq.
    rewrite lookup_insert_ne; [eapply lookup_weaken; eassumption |].
    intros ->. rewrite Hnew in Hq. discriminate.
  - apply lookup_insert_eq.
  - exists h'. split; [| exact Hs].
    unfold mbind, estado_bind, sort_in_place. rewrite Hp. exact Ek.
Qed.

Lemma m_filmes_acima_retorna self (limite : numero) (ordenar : bool) h filmes :
  h !! filmes_ref self = Some (ListaFilmes filmes) ->
  retorna (m_filmes_acima_avaliacao self limite ordenar)
    (filmes_acima_avaliacao filmes limite ordenar) h.
Proof.
  intros Hf. unfold m_filmes_acima_avaliacao, filmes_acima_avaliacao.
  apply (retorna_ler _ filmes); [exact Hf |].
  destruct (vazia filmes).
  { apply retorna_alocar. intros p h1 _ _. apply retorna_mret. }
  set (acima := List.filter (fun f => py_gt (avaliacao f) limite) filmes).
  destruct (alocar_spec (ListaFilmes acima) h) as (p & E & Hp).
  assert (Hsub : h ⊆ <[p := ListaFilmes acima]> h)
    by (apply insert_subseteq; exact Hp).
  assert (Hfim : forall (l : list filme) h1,
            h ⊆ h1 -> h1 !! p = Some (ListaFilmes l) ->
            exists h',
              (filmes_filtrados ← ler_filmes p;
               let nomes := map nome filmes_filtrados in
               _ ← alocar (ListaNomes nomes); mret nomes) h1 =
              (map nome l, h') /\ h ⊆ h').
  { intros l h1 Hs1 Hl.
    destruct (alocar_spec (ListaNomes (map nome l)) h1) as (q & Eq & Hq).
    exists (<[q := ListaNomes (map nome l)]> h1). split.
    - unfold mbind, estado_bind. rewrite (ler_filmes_spec h1 p l Hl).
      cbv zeta. rewrite Eq. reflexivity.
    - etransitivity; [exact Hs1 |]. apply insert_subseteq. exact Hq. }
  unfold retorna. unfold mbind at 1, estado_bind at 1. rewrite E.
  destruct ordenar.
  - apply (sort_in_place_novo p acima _ _ _ h Hp Hsub).
    + apply lookup_insert_eq.
    + intros h1 Hs1 Hl. apply (Hfim _ h1 Hs1 Hl).
  - destruct (Hfim acima (<[p := ListaFilmes acima]> h) Hsub
                (lookup_insert_eq _ _ _)) as (h' & Ek & Hs).
    exists h'. split; [| exact Hs].
    unfold mbind at 1, estado_bind at 1. cbn [mret estado_ret]. exact Ek.
Qed.

Lemma m_filmes_em_streaming_retorna self h filmes :
  h !! filmes_ref self = Some (ListaFilmes filmes) ->
  retorna (m_filmes_em_streaming self) (filmes_em_streaming filmes) h.
Proof.
  intros Hf. unfold m_filmes_em_streaming, filmes_em_streaming.
  apply (retorna_ler _ filmes); [exact Hf |]. cbv zeta.
  apply retorna_alocar. intros p h1 _ _. apply retorna_mret.
Qed.

Lemma m_extremos_duracao_retorna self h filmes :
  h !! filmes_ref self = Some (ListaFilmes filmes) ->
  retorna (m_extremos_duracao self) (extremos_duracao filmes) h.
Proof.
  intros Hf. unfold m_extremos_duracao.
  apply (retorna_ler _ filmes); [exact Hf |]. apply retorna_mret.
Qed.

Lemma m_moda_diretores_retorna self h filmes :
  h !! filmes_ref self = Some (ListaFilmes filmes) ->
  retorna (m_moda_diretores self) (moda_diretores filmes) h.
Proof.
  intros Hf. unfold m_moda_diretores, moda_diretores.
  apply (retorna_ler _ filmes); [exact Hf |].
  destruct (vazia filmes).
  { apply retorna_alocar. intros p h1 _ _. apply retorna_mret. }
  cbv zeta. apply retorna_alocar. intros p1 h1 _ _.
  apply retorna_alocar. intros p2 h2 _ _.
  destruct (vazia (Counter (map diretor filmes))).
  { apply retorna_alocar. intros p h3 _ _. apply retorna_mret. }
  destruct (py_max id (map snd (Counter (map diretor filmes)))) as [mx|e].
  - cbn [mbind resultado_bind]. apply retorna_alocar. intros p h3 _ _.
    apply retorna_mret.
  - apply retorna_mret.
Qed.

Lemma m_adicionais_retorna (impl : soma_impl) self h filmes :
  h !! filmes_ref self = Some (ListaFilmes filmes) ->
  retorna (m_exibir_estatisticas_adicionais impl self)
    (exibir_estatisticas_adicionais impl filmes) h.
Proof.
  intros Hf. unfold m_exibir_estatisticas_adicionais.
  apply (retorna_ler _ filmes); [exact Hf |].
  apply retorna_alocar. intros p h1 _ _.
  apply retorna_alocar. intros q h2 _ _. apply retorna_mret.
Qed.

Lemma executar_retorna (op : operacao) self h filmes :
  h !! filmes_ref self = Some (ListaFilmes filmes) ->
  retorna (executar op self) (retorno_de op filmes) h.
Proof.
  intros Hf. destruct op; cbn [executar retorno_de]; apply retorna_fmap.
  - apply m_calcular_media_retorna. exact Hf.
  - apply m_calcular_mediana_retorna. exact Hf.
  - apply m_filmes_acima_retorna. exact Hf.
  - apply m_filmes_em_streaming_retorna. exact Hf.
  - apply m_extremos_duracao_retorna. exact Hf.
  - apply m_moda_diretores_retorna. exact Hf.
  - apply m_adicionais_retorna. exact Hf.
Qed.

End Heap.

(** C8: every operation leaves the list [self.filmes], and every other
    object of the heap, as it was, also [filmes_acima_avaliacao] with its
    in-place sort; what it returns is a function of the contents of
    [self.filmes] and of its arguments, so a second call returns the same. *)
Theorem C8_operacoes_puras (op : operacao) (self : instancia)
    (h : gmap nat objeto) (filmes : list filme) :
  h !! filmes_ref self = Some (ListaFilmes filmes) ->
  exists h1 h2,
    executar op self h = (retorno_de op filmes, h1) /\
    h1 !! filmes_ref self = Some (ListaFilmes filmes) /\
    (forall p o, h !! p = Some o -> h1 !! p = Some o) /\
    executar op self h1 = (retorno_de op filmes, h2) /\
    h2 !! filmes_ref self = Some (ListaFilmes filmes).
Proof.
  intros Hf.
  destruct (executar_retorna op self h filmes Hf) as (h1 & E1 & S1).
  assert (Hf1 : h1 !! filmes_ref self = Some (ListaFilmes filmes))
    by (eapply lookup_weaken; eassumption).
  destruct (executar_retorna op self h1 filmes Hf1) as (h2 & E2 & S2).
  exists h1, h2. split; [exact E1 |]. split; [exact Hf1 |].
  split; [intros p o Hp; eapply lookup_weaken; eassumption |].
  split; [exact E2 |]. eapply lookup_weaken; eassumption.
Qed.

(** The default call of [filmes_acima_avaliacao], with its in-place sort, on
    a heap that holds the catalogue of ratings 5, 6, 7, 8. *)
Lemma C8_operacoes_puras_witness :
  heap_exemplo !! filmes_ref self_exemplo = Some (ListaFilmes notas_5678) /\
  exists h1 h2,
    executar (OpAcima None None) self_exemplo heap_exemplo =
      (RNomes ["f8"; "f7"]%string, h1) /\
    h1 !! filmes_ref self_exemplo = Some (ListaFilmes notas_5678) /\
    executar (OpAcima None None) self_exemplo h1 =
      (RNomes ["f8"; "f7"]%string, h2).
Proof.
  assert (H : heap_exemplo !! filmes_ref self_exemplo =
              Some (ListaFilmes notas_5678)) by (vm_compute; reflexivity).
  split; [exact H |].
  destruct (C8_operacoes_puras (OpAcima None None) self_exemplo heap_exemplo
              notas_5678 H) as (h1 & h2 & E1 & F1 & _ & E2 & _).
  exists h1, h2. split; [exact E1 |]. split; [exact F1 | exact E2].
Defined.

(** ** Further examples of the specification *)

(** Two movies last 2h00 and two last 1h30: the first of each is returned. *)
Example extremos_duracao_empate :
  extremos_duracao notas_5678 =
    Ok (Some (filme_de "f6" (PyInt 6) "B" 2 0 false),
        Some (filme_de "f5" (PyInt 5) "A" 1 30 true)).
Proof. reflexivity. Qed.

(** Equal ratings keep the order of the catalogue, also an int and a float
    of the same value. *)
Example filmes_acima_empate :
  filmes_acima_avaliacao_kw notas_empate None None = ["b"; "d"; "a"; "c"]%string.
Proof. reflexivity. Qed.

Example filmes_em_streaming_ordem :
  filmes_em_streaming notas_5678 = ["f5"; "f7"; "f8"]%string.
Proof. reflexivity. Qed.

Example catalogo_vazio :
  calcular_media_avaliacao Ingenua [] = Ok (PyFloat 0) /\
  calcular_mediana_avaliacao [] = Ok (PyFloat 0) /\
  filmes_acima_avaliacao_kw [] None None = [] /\
  filmes_em_streaming [] = [] /\
  moda_diretores [] = Ok [] /\
  extremos_duracao [] = Ok (None, None).
Proof. repeat split. Qed.

(* ===================================================================== *)
(** * Part III: further properties of the code *)
(* ===================================================================== *)

(** ** The percentage of movies in streaming *)

Lemma len_filter_le {A} (p : A -> bool) (l : list A) :
  (len (List.filter p l) <= len l)%Z.
Proof. unfold len. pose proof (List.filter_length_le p l). lia. Qed.

Lemma filter_todos {A} (p : A -> bool) (l : list A) :
  Forall (fun x => p x = true) l -> List.filter p l = l.
Proof.
  induction 1 as [|x r Hx _ IH]; [reflexivity |].
  cbn [List.filter]. rewrite Hx, IH. reflexivity.
Qed.

Lemma filter_nenhum {A} (p : A -> bool) (l : list A) :
  Forall (fun x => p x = false) l -> List.filter p l = [].
Proof.
  induction 1 as [|x r Hx _ IH]; [reflexivity |].
  cbn [List.filter]. rewrite Hx, IH. reflexivity.
Qed.

Lemma fl_0 : fl 0 = 0%Q.
Proof. reflexivity. Qed.

Lemma fl_1 : fl 1 = 1%Q.
Proof. vm_compute. reflexivity. Qed.

Lemma fl_cem : fl 100 = 100%Q.
Proof. vm_compute. reflexivity. Qed.

(** The quotient of a count by a total that contains it, as a float. *)
Lemma fracao_limites (c t : Z) :
  (0 <= c <= t)%Z -> (0 < t)%Z ->
  (0 <= fl (inject_Z c / inject_Z t))%Q /\ (fl (inject_Z c / inject_Z t) <= 1)%Q.
Proof.
  intros Hc Ht.
  assert (HtQ : (0 < inject_Z t)%Q)
    by (change 0%Q with (inject_Z 0); rewrite <- Zlt_Qlt; exact Ht).
  assert (L : (0 <= inject_Z c / inject_Z t)%Q).
  { apply Qle_shift_div_l; [exact HtQ |]. rewrite Qmult_0_l.
    change 0%Q with (inject_Z 0). rewrite <- Zle_Qle. lia. }
  assert (U : (inject_Z c / inject_Z t <= 1)%Q).
  { apply Qle_shift_div_r; [exact HtQ |]. rewrite Qmult_1_l.
    rewrite <- Zle_Qle. lia. }
  split.
  - rewrite <- fl_0 at 1. apply fl_mono. exact L.
  - rewrite <- fl_1. apply fl_mono. exact U.
Qed.

(** X1: for a catalogue that is not empty, with durations below 2^53
    minutes (beyond the range of floats the mean duration, computed after the
    percentage, raises [OverflowError]), [exibir_estatisticas_adicionais]
    returns, and the percentage in streaming that it computes lies between 0
    and 100; it is 100.0 when every movie is in streaming and 0.0 when none
    is. *)
Theorem X1_porcentagem_entre_0_e_100 (impl : soma_impl) (f0 : filme)
    (resto : list filme) :
  Forall (fun f => (Z.abs (minutos_de f) < 2 ^ 53)%Z) (f0 :: resto) ->
  exists a,
    exibir_estatisticas_adicionais impl (f0 :: resto) = Ok a /\
    (0 <= valor (porcentagem a))%Q /\ (valor (porcentagem a) <= 100)%Q /\
    (Forall (fun f => streaming f = true) (f0 :: resto) ->
       porcentagem a = PyFloat 100) /\
    (Forall (fun f => streaming f = false) (f0 :: resto) ->
       porcentagem a = PyFloat 0).
Proof.
  intros _.
  destruct (adicionais_nao_vazio impl f0 resto) as (mx & mn & _ & _ & Ha).
  cbv zeta in Ha. eexists. split; [exact Ha |].
  cbn [porcentagem valor].
  set (filmes := f0 :: resto) in *.
  set (c := len (filmes_em_streaming filmes)).
  set (t := len filmes).
  assert (Ht : (0 < t)%Z) by (unfold t, len, filmes; cbn [length]; lia).
  assert (Hc : (0 <= c <= t)%Z).
  { unfold c, t, filmes_em_streaming. rewrite len_map. split.
    - apply len_nonneg.
    - apply len_filter_le. }
  destruct (fracao_limites c t Hc Ht) as [F0 F1].
  split; [| split; [| split]].
  - rewrite <- fl_0 at 1. apply fl_mono. lra.
  - apply Qle_trans with (fl 100); [apply fl_mono; lra |].
    rewrite fl_cem. apply Qle_refl.
  - intros Hall. f_equal. transitivity (fl 100); [| exact fl_cem].
    apply fl_proper.
    assert (E : c = t).
    { unfold c, t, filmes_em_streaming. rewrite len_map.
      rewrite (filter_todos _ _ Hall). reflexivity. }
    rewrite E.
    assert (E1 : (inject_Z t / inject_Z t == 1)%Q).
    { field. intros Z0. change 0%Q with (inject_Z 0) in Z0.
      apply (proj1 (inject_Z_injective t 0)) in Z0. lia. }
    rewrite (fl_proper _ _ E1), fl_1. reflexivity.
  - intros Hnone. f_equal. transitivity (fl 0); [| exact fl_0].
    apply fl_proper.
    assert (E : c = 0%Z).
    { unfold c, filmes_em_streaming. rewrite len_map.
      rewrite (filter_nenhum _ _ Hnone). reflexivity. }
    rewrite E.
    assert (E1 : (inject_Z 0 / inject_Z t == 0)%Q).
    { unfold Qdiv. change (inject_Z 0) with 0%Q. ring. }
    rewrite (fl_proper _ _ E1), fl_0. ring.
Qed.

(** Three of the four movies rated 5, 6, 7, 8 are in streaming: 75.0. *)
Lemma X1_porcentagem_entre_0_e_100_witness :
  Forall (fun f => (Z.abs (minutos_de f) < 2 ^ 53)%Z) notas_5678 /\
  exists a,
    exibir_estatisticas_adicionais Compensada notas_5678 = Ok a /\
    (0 <= valor (porcentagem a))%Q /\ (valor (porcentagem a) <= 100)%Q.
Proof.
  assert (H : Forall (fun f => (Z.abs (minutos_de f) < 2 ^ 53)%Z) notas_5678)
    by (repeat constructor).
  split; [exact H |].
  destruct (X1_porcentagem_entre_0_e_100 Compensada _ _ H)
    as (a & Ha & L & U & _).
  exists a. split; [exact Ha |]. split; [exact L | exact U].
Defined.

(** X2: on a catalogue with durations below 2^53 minutes
    [exibir_estatisticas_adicionais] raises, and then [ZeroDivisionError],
    exactly when the catalogue is empty; on every other such catalogue it
    returns.  (A sum of durations beyond the range of floats raises
    [OverflowError] in Python; the bound excludes it.) *)
Theorem X2_adicionais_levanta_sse_vazio (impl : soma_impl)
    (filmes : list filme) :
  Forall (fun f => (Z.abs (minutos_de f) < 2 ^ 53)%Z) filmes ->
  (exibir_estatisticas_adicionais impl filmes = Raise ZeroDivisionError <->
   filmes = []) /\
  (forall e, exibir_estatisticas_adicionais impl filmes = Raise e ->
     e = ZeroDivisionError /\ filmes = []) /\
  ((exists a, exibir_estatisticas_adicionais impl filmes = Ok a) <->
   filmes <> []).
Proof.
  intros _. destruct filmes as [|f0 resto].
  - split; [split; reflexivity |]. split.
    + intros e H. rewrite adicionais_vazio in H. injection H as <-.
      split; reflexivity.
    + split; [intros [a H]; rewrite adicionais_vazio in H; discriminate |].
      intros H. contradiction.
  - destruct (adicionais_nao_vazio impl f0 resto) as (mx & mn & _ & _ & Ha).
    cbv zeta in Ha. split; [| split].
    + split; [rewrite Ha; discriminate | discriminate].
    + intros e H. rewrite Ha in H. discriminate.
    + split; [discriminate |]. intros _. eexists. exact Ha.
Qed.

(** The empty catalogue raises, the catalogue rated 5, 6, 7, 8 returns. *)
Lemma X2_adicionais_levanta_sse_vazio_witness :
  Forall (fun f => (Z.abs (minutos_de f) < 2 ^ 53)%Z) notas_5678 /\
  Forall (fun f => (Z.abs (minutos_de f) < 2 ^ 53)%Z) [] /\
  (exists a, exibir_estatisticas_adicionais Ingenua notas_5678 = Ok a) /\
  exibir_estatisticas_adicionais Ingenua [] = Raise ZeroDivisionError.
Proof.
  assert (H : Forall (fun f => (Z.abs (minutos_de f) < 2 ^ 53)%Z) notas_5678)
    by (repeat constructor).
  assert (H0 : Forall (fun f => (Z.abs (minutos_de f) < 2 ^ 53)%Z) [])
    by constructor.
  split; [exact H |]. split; [exact H0 |]. split.
  - apply (proj2 (proj2 (X2_adicionais_levanta_sse_vazio Ingenua notas_5678 H))).
    discriminate.
  - apply (proj1 (X2_adicionais_levanta_sse_vazio Ingenua [] H0)). reflexivity.
Defined.

(** ** The mean duration *)

(** The mean of the durations of a catalogue that is not empty. *)
Lemma media_duracao_limites (f0 : filme) (resto : list filme) (lo hi : Z) :
  (Z.abs lo < 2 ^ 53)%Z -> (Z.abs hi < 2 ^ 53)%Z ->
  (forall f, In f (f0 :: resto) -> (lo <= minutos_de f <= hi)%Z) ->
  (inject_Z lo <=
     fl (inject_Z (soma_Z (map minutos_de (f0 :: resto))) /
         inject_Z (len (f0 :: resto))))%Q /\
  (fl (inject_Z (soma_Z (map minutos_de (f0 :: resto))) /
       inject_Z (len (f0 :: resto))) <= inject_Z hi)%Q.
Proof.
  intros Blo Bhi Hb.
  destruct (media_exata_limites (map minutos_de (f0 :: resto)) lo hi)
    as [L U].
  - discriminate.
  - intros z Hz. apply in_map_iff in Hz. destruct Hz as (f & <- & Hf).
    apply Hb. exact Hf.
  - rewrite len_map in L, U. split.
    + rewrite <- (fl_Z lo Blo). apply fl_mono. exact L.
    + rewrite <- (fl_Z hi Bhi). apply fl_mono. exact U.
Qed.

(** X3: when the durations are below 2^53 minutes in magnitude, the mean
    duration of a catalogue that is not empty lies between the duration of
    the shortest and of the longest movie that [extremos_duracao] returns. *)
Theorem X3_media_duracao_entre_extremos (impl : soma_impl) (f0 : filme)
    (resto : list filme) :
  Forall (fun f => (Z.abs (minutos_de f) < 2 ^ 53)%Z) (f0 :: resto) ->
  exists longo curto a,
    extremos_duracao (f0 :: resto) = Ok (Some longo, Some curto) /\
    exibir_estatisticas_adicionais impl (f0 :: resto) = Ok a /\
    (inject_Z (minutos_de curto) <= valor (duracao_media_min a))%Q /\
    (valor (duracao_media_min a) <= inject_Z (minutos_de longo))%Q.
Proof.
  intros Hb.
  destruct (py_max_primeiro minutos_de f0 resto) as (longo & Hl & Pl).
  destruct (py_min_primeiro minutos_de f0 resto) as (curto & Hc & Pc).
  destruct (primeiro_maximo_Z _ _ _ Pl) as (i & Hi & Lmax & _).
  destruct (primeiro_minimo_Z _ _ _ Pc) as (k & Hk & Cmin & _).
  destruct (adicionais_nao_vazio impl f0 resto) as (mx & mn & _ & _ & Ha).
  cbv zeta in Ha.
  exists longo, curto. eexists. split; [| split; [exact Ha |]].
  { unfold extremos_duracao. cbn [vazia].
    change (fun x : filme => duracao_em_minutos (duracao x)) with minutos_de.
    rewrite Hl. cbn [mbind resultado_bind]. rewrite Hc. reflexivity. }
  cbn [duracao_media_min valor].
  rewrite Forall_forall in Hb.
  apply media_duracao_limites.
  - apply Hb. eapply list_elem_of_lookup_2. exact Hk.
  - apply Hb. eapply list_elem_of_lookup_2. exact Hi.
  - intros f Hf. split; [apply Cmin | apply Lmax]; exact Hf.
Qed.

(** Durations 1h30, 2h00, 1h30, 2h00: the mean, 105 minutes, lies between
    90 and 120. *)
Lemma X3_media_duracao_entre_extremos_witness :
  Forall (fun f => (Z.abs (minutos_de f) < 2 ^ 53)%Z) notas_5678 /\
  exists longo curto a,
    extremos_duracao notas_5678 = Ok (Some longo, Some curto) /\
    exibir_estatisticas_adicionais Ingenua notas_5678 = Ok a /\
    (inject_Z (minutos_de curto) <= valor (duracao_media_min a))%Q /\
    (valor (duracao_media_min a) <= inject_Z (minutos_de longo))%Q.
Proof.
  assert (H : Forall (fun f => (Z.abs (minutos_de f) < 2 ^ 53)%Z) notas_5678)
    by (repeat constructor).
  split; [exact H |].
  exact (X3_media_duracao_entre_extremos Ingenua _ _ H).
Defined.

Lemma Qfloor_menos_Z (q : Q) (z : Z) :
  Qfloor (q - inject_Z z) = (Qfloor q - z)%Z.
Proof.
  pose proof (Qfloor_le q) as L. pose proof (Qlt_floor q) as U.
  rewrite inject_Z_plus in U. change (inject_Z 1) with 1%Q in U.
  apply Qfloor_unique.
  - unfold Z.sub. rewrite inject_Z_plus, inject_Z_opp. lra.
  - unfold Z.sub. rewrite inject_Z_plus, inject_Z_opp. lra.
Qed.

(** The hours and minutes of a mean that is not negative and below 2^53. *)
Lemma decomposicao_exata (media : Q) :
  (0 <= media)%Q -> (media < inject_Z (2 ^ 53))%Q ->
  Qtrunc (float_floor_div media 60) = Qfloor (media / 60) /\
  Qtrunc (float_rem media 60) = (Qfloor media - Qfloor (media / 60) * 60)%Z.
Proof.
  intros H0 H1. destruct (Qfloor_div_60 media H0) as (K0 & KL & KU).
  split.
  - rewrite Qtrunc_nonneg.
    + rewrite (Qfloor_comp _ _ (float_floor_div_60 media H0 H1)).
      apply Qfloor_Z.
    + rewrite (float_floor_div_60 media H0 H1).
      change 0%Q with (inject_Z 0). rewrite <- Zle_Qle. exact K0.
  - rewrite (float_rem_60 media H0), Qtrunc_nonneg by lra.
    assert (E : (media - inject_Z (Qfloor (media / 60)) * 60 ==
                 media - inject_Z (Qfloor (media / 60) * 60))%Q).
    { rewrite inject_Z_mult. reflexivity. }
    rewrite (Qfloor_comp _ _ E). apply Qfloor_menos_Z.
Qed.

Lemma media_duracao_exata_limites (f0 : filme) (resto : list filme) :
  Forall (fun f => (0 <= minutos_de f < 2 ^ 53)%Z) (f0 :: resto) ->
  (0 <= fl (inject_Z (soma_Z (map minutos_de (f0 :: resto))) /
            inject_Z (len (f0 :: resto))))%Q /\
  (fl (inject_Z (soma_Z (map minutos_de (f0 :: resto))) /
       inject_Z (len (f0 :: resto))) < inject_Z (2 ^ 53))%Q.
Proof.
  intros Hd. rewrite Forall_forall in Hd.
  destruct (media_duracao_limites f0 resto 0 (2 ^ 53 - 1)) as [L U].
  - reflexivity.
  - reflexivity.
  - intros f Hf. specialize (Hd f (proj2 (list_elem_of_In _ _) Hf)).
    cbn in Hd. lia.
  - split; [exact L |]. eapply Qle_lt_trans; [exact U |].
    rewrite <- Zlt_Qlt. reflexivity.
Qed.

(** X4: for durations that are not negative and below 2^53 minutes, the
    hours and minutes displayed for the mean duration recombine, by
    [duracao_em_minutos], to the whole minutes of the mean. *)
Theorem X4_horas_e_minutos_recompoem (impl : soma_impl) (f0 : filme)
    (resto : list filme) :
  Forall (fun f => (0 <= minutos_de f < 2 ^ 53)%Z) (f0 :: resto) ->
  exists a,
    exibir_estatisticas_adicionais impl (f0 :: resto) = Ok a /\
    duracao_em_minutos (horas a, minutos a) =
      Qfloor (valor (duracao_media_min a)).
Proof.
  intros Hd.
  destruct (adicionais_nao_vazio impl f0 resto) as (mx & mn & _ & _ & Ha).
  cbv zeta in Ha. eexists. split; [exact Ha |].
  cbn [horas minutos duracao_media_min valor].
  destruct (media_duracao_exata_limites f0 resto Hd) as [H0 H1].
  destruct (decomposicao_exata _ H0 H1) as [-> ->].
  unfold duracao_em_minutos. cbn [fst snd]. lia.
Qed.

(** Durations 1h30, 2h00, 1h30, 2h00: 1h45 is 105 minutes. *)
Lemma X4_horas_e_minutos_recompoem_witness :
  Forall (fun f => (0 <= minutos_de f < 2 ^ 53)%Z) notas_5678 /\
  exists a,
    exibir_estatisticas_adicionais Ingenua notas_5678 = Ok a /\
    duracao_em_minutos (horas a, minutos a) =
      Qfloor (valor (duracao_media_min a)).
Proof.
  assert (H : Forall (fun f => (0 <= minutos_de f < 2 ^ 53)%Z) notas_5678).
  { repeat constructor; vm_compute; discriminate. }
  split; [exact H |].
  exact (X4_horas_e_minutos_recompoem Ingenua _ _ H).
Defined.

Lemma soma_Z_constante (zs : list Z) (d : Z) :
  Forall (fun z => z = d) zs -> soma_Z zs = (d * len zs)%Z.
Proof.
  unfold len. induction 1 as [|z r Hz _ IH].
  - cbn. lia.
  - change (soma_Z (z :: r)) with (z + soma_Z r)%Z. cbn [length]. lia.
Qed.

(** X5: when every movie of a catalogue that is not empty has the same
    duration [(h, m)], with [0 <= h], [0 <= m < 60], below 2^53 minutes,
    the mean duration is displayed as that duration: [h] hours and [m]
    minutes, in the text that [formatar_duracao] gives for [(h, m)]. *)
Theorem X5_duracao_igual_exibida (impl : soma_impl) (f0 : filme)
    (resto : list filme) (h m : Z) :
  (0 <= h)%Z -> (0 <= m < 60)%Z -> (h * 60 + m < 2 ^ 53)%Z ->
  Forall (fun f => duracao f = (h, m)) (f0 :: resto) ->
  exists a,
    exibir_estatisticas_adicionais impl (f0 :: resto) = Ok a /\
    horas a = h /\ minutos a = m /\
    duracao_media_exibida a = formatar_duracao (h, m).
Proof.
  intros Hh Hm Hb Hall.
  destruct (adicionais_nao_vazio impl f0 resto) as (mx & mn & _ & _ & Ha).
  cbv zeta in Ha. eexists. split; [exact Ha |].
  unfold duracao_media_exibida, formatar_duracao.
  cbn [horas minutos].
  set (d := (h * 60 + m)%Z).
  assert (Hmin : Forall (fun z => z = d) (map minutos_de (f0 :: resto))).
  { apply Forall_forall. intros z Hz. apply list_elem_of_In in Hz.
    apply in_map_iff in Hz. destruct Hz as (f & <- & Hf).
    rewrite Forall_forall in Hall.
    unfold minutos_de. rewrite (Hall f (proj2 (list_elem_of_In _ _) Hf)).
    reflexivity. }
  assert (Hn : (0 < len (f0 :: resto))%Z) by (unfold len; cbn [length]; lia).
  assert (E : (inject_Z (soma_Z (map minutos_de (f0 :: resto))) /
               inject_Z (len (f0 :: resto)) == inject_Z d)%Q).
  { rewrite (soma_Z_constante _ d Hmin), len_map, inject_Z_mult.
    field. intros Z0. change 0%Q with (inject_Z 0) in Z0.
    apply (proj1 (inject_Z_injective _ 0)) in Z0. lia. }
  rewrite (fl_proper _ _ E).
  assert (Ed : (fl (inject_Z d) == inject_Z d)%Q) by (apply fl_Z; unfold d; lia).
  assert (H0 : (0 <= fl (inject_Z d))%Q).
  { rewrite Ed. change 0%Q with (inject_Z 0). rewrite <- Zle_Qle. unfold d. lia. }
  assert (H1 : (fl (inject_Z d) < inject_Z (2 ^ 53))%Q).
  { rewrite Ed. rewrite <- Zlt_Qlt. exact Hb. }
  destruct (decomposicao_exata _ H0 H1) as [-> ->].
  assert (Ediv : (fl (inject_Z d) / 60 == inject_Z d / inject_Z 60)%Q).
  { rewrite Ed. reflexivity. }
  rewrite (Qfloor_comp _ _ Ediv), <- Zdiv_Qdiv.
  rewrite (Qfloor_comp _ _ Ed), Qfloor_Z.
  assert (Eh : (d / 60 = h)%Z).
  { unfold d. rewrite Z.div_add_l by lia. rewrite Z.div_small by lia. lia. }
  rewrite Eh.
  assert (Em : (d - h * 60 = m)%Z) by (unfold d; lia).
  rewrite Em. repeat split.
Qed.

(** Two movies of 1h45. *)
Lemma X5_duracao_igual_exibida_witness :
  (0 <= 1)%Z /\ (0 <= 45 < 60)%Z /\ (1 * 60 + 45 < 2 ^ 53)%Z /\
  exists a,
    exibir_estatisticas_adicionais Ingenua
      [filme_de "a" (PyInt 7) "A" 1 45 true;
       filme_de "b" (PyInt 8) "B" 1 45 false] = Ok a /\
    horas a = 1%Z /\ minutos a = 45%Z /\
    duracao_media_exibida a = "1h45min"%string.
Proof.
  split; [lia |]. split; [lia |]. split; [reflexivity |].
  apply (X5_duracao_igual_exibida Ingenua
           (filme_de "a" (PyInt 7) "A" 1 45 true)
           [filme_de "b" (PyInt 8) "B" 1 45 false] 1 45).
  - lia.
  - lia.
  - reflexivity.
  - repeat constructor.
Defined.

(** ** Raising the limit, and sorting or not *)

Lemma filter_troca {A} (p q : A -> bool) (l : list A) :
  List.filter p (List.filter q l) = List.filter q (List.filter p l).
Proof.
  induction l as [|x r IH]; [reflexivity |].
  cbn [List.filter]. destruct (p x) eqn:Px, (q x) eqn:Qx;
    cbn [List.filter]; rewrite ?Px, ?Qx, IH; reflexivity.
Qed.

Lemma filter_sublist {A} (p : A -> bool) (l : list A) :
  List.filter p l `sublist_of` l.
Proof.
  induction l as [|x r IH]; [constructor |].
  cbn [List.filter]. destruct (p x); constructor; exact IH.
Qed.

Lemma map_sublist {A B} (f : A -> B) (l1 l2 : list A) :
  l1 `sublist_of` l2 -> map f l1 `sublist_of` map f l2.
Proof. induction 1; cbn [map]; constructor; assumption. Qed.

Lemma map_prefix {A B} (f : A -> B) (l1 l2 : list A) :
  l1 `prefix_of` l2 -> map f l1 `prefix_of` map f l2.
Proof. intros [k ->]. exists (map f k). apply map_app. Qed.

(** A stable sort and a filter can be exchanged. *)
Lemma ordenar_filter_troca {A} (antes : A -> A -> bool) (p : A -> bool)
    (l : list A) :
  (forall a b, antes a b = true -> antes b a = false) ->
  (forall a b c, antes a c = true -> antes a b = true \/ antes b c = true) ->
  List.filter p (ordenar_estavel antes l) =
  ordenar_estavel antes (List.filter p l).
Proof.
  intros Ha Hc. apply ordenar_estavel_unico; [exact Ha | exact Hc | |].
  - apply StronglySorted_filter. apply ordenar_sorted; assumption.
  - intros x. rewrite filter_troca, (filter_troca _ p l). f_equal.
    apply ordenar_filter. intros a b. apply empatados_compat. exact Hc.
Qed.

(** In a list in descending order of rating the movies above a limit come
    first. *)
Lemma acima_prefixo (limite : numero) (l : list filme) :
  StronglySorted (fun a b => (nota b <= nota a)%Q) l ->
  List.filter (fun f => py_gt (avaliacao f) limite) l `prefix_of` l.
Proof.
  induction 1 as [|x r Hs IH Hx]; [apply prefix_nil |].
  cbn [List.filter]. destruct (py_gt (avaliacao x) limite) eqn:E.
  - apply prefix_cons. exact IH.
  - rewrite filter_nenhum; [apply prefix_nil |].
    eapply Forall_impl; [exact Hx |]. intros y Hy. cbn in Hy.
    unfold py_gt in *. apply py_lt_false_iff in E. apply py_lt_false_iff.
    unfold nota in Hy. lra.
Qed.

Lemma acima_de_acima (t1 t2 : numero) (filmes : list filme) :
  (valor t1 <= valor t2)%Q ->
  List.filter (fun f => py_gt (avaliacao f) t2) filmes =
  List.filter (fun f => py_gt (avaliacao f) t2)
    (List.filter (fun f => py_gt (avaliacao f) t1) filmes).
Proof.
  intros Ht. induction filmes as [|x r IH]; [reflexivity |].
  cbn [List.filter].
  destruct (py_gt (avaliacao x) t2) eqn:E2.
  - assert (E1 : py_gt (avaliacao x) t1 = true).
    { unfold py_gt in *. apply py_lt_iff in E2. apply py_lt_iff. lra. }
    rewrite E1. cbn [List.filter]. rewrite E2, IH. reflexivity.
  - destruct (py_gt (avaliacao x) t1); cbn [List.filter];
      rewrite ?E2; exact IH.
Qed.

(** X6: raising the limit of [filmes_acima_avaliacao] only cuts the result:
    with sorting, the names for the higher limit are the first names of the
    result for the lower limit; without sorting they are a sub-sequence of
    it. *)
Theorem X6_limite_maior_corta (filmes : list filme) (t1 t2 : numero) :
  (valor t1 <= valor t2)%Q ->
  filmes_acima_avaliacao filmes t2 true `prefix_of`
    filmes_acima_avaliacao filmes t1 true /\
  filmes_acima_avaliacao filmes t2 false `sublist_of`
    filmes_acima_avaliacao filmes t1 false.
Proof.
  intros Ht. unfold filmes_acima_avaliacao.
  destruct filmes as [|f0 resto]; [split; [apply prefix_nil | constructor] |].
  cbn [vazia]. set (filmes := f0 :: resto).
  rewrite (acima_de_acima t1 t2 filmes Ht).
  set (acima1 := List.filter (fun f => py_gt (avaliacao f) t1) filmes).
  split.
  - apply map_prefix. unfold py_sorted.
    rewrite <- ordenar_filter_troca;
      [| intros a b; apply antes_de_assim | intros a b c; apply antes_de_cotrans].
    apply acima_prefixo.
    eapply StronglySorted_impl; [| apply (py_sorted_sorted avaliacao true)].
    intros a b Hab. cbn in Hab. apply py_lt_false_iff in Hab. exact Hab.
  - apply map_sublist. apply filter_sublist.
Qed.

(** The limits of [demonstrar_funcoes_avaliacao]: 6.0 and 7.5. *)
Lemma X6_limite_maior_corta_witness :
  (valor (PyFloat 6) <= valor (PyFloat (fl (75 # 10))))%Q /\
  (filmes_acima_avaliacao notas_5678 (PyFloat (fl (75 # 10))) true `prefix_of`
     filmes_acima_avaliacao notas_5678 (PyFloat 6) true /\
   filmes_acima_avaliacao notas_5678 (PyFloat (fl (75 # 10))) false `sublist_of`
     filmes_acima_avaliacao notas_5678 (PyFloat 6) false).
Proof.
  assert (H : (valor (PyFloat 6) <= valor (PyFloat (fl (75 # 10))))%Q)
    by (vm_compute; discriminate).
  split; [exact H |].
  exact (X6_limite_maior_corta notas_5678 _ _ H).
Defined.

(** X7: sorting changes only the order of the result of
    [filmes_acima_avaliacao]: with and without [ordenar] the names are the
    same, each as often, and as many. *)
Theorem X7_ordenar_so_reordena (filmes : list filme) (limite : numero) :
  Permutation (filmes_acima_avaliacao filmes limite true)
    (filmes_acima_avaliacao filmes limite false) /\
  len (filmes_acima_avaliacao filmes limite true) =
    len (filmes_acima_avaliacao filmes limite false).
Proof.
  assert (P : Permutation (filmes_acima_avaliacao filmes limite true)
                (filmes_acima_avaliacao filmes limite false)).
  { unfold filmes_acima_avaliacao. destruct (vazia filmes); [reflexivity |].
    apply Permutation_map. apply py_sorted_perm. }
  split; [exact P |]. unfold len. rewrite (Permutation_length P). reflexivity.
Qed.

(** X8: [filmes_em_streaming] keeps the order of the catalogue and drops
    names only: the result is a sub-sequence of the catalogue's names, a name
    is returned exactly when some movie of that name has the flag set, and
    the result of a catalogue in two parts is the two results joined. *)
Theorem X8_filmes_em_streaming (filmes outros : list filme) :
  filmes_em_streaming filmes `sublist_of` map nome filmes /\
  (forall n, In n (filmes_em_streaming filmes) <->
             exists f, In f filmes /\ streaming f = true /\ nome f = n) /\
  filmes_em_streaming (filmes ++ outros) =
    filmes_em_streaming filmes ++ filmes_em_streaming outros /\
  (len (filmes_em_streaming filmes) <= len filmes)%Z.
Proof.
  unfold filmes_em_streaming. repeat split.
  - apply map_sublist, filter_sublist.
  - intros Hn. apply in_map_iff in Hn. destruct Hn as [f [E Hf]].
    apply filter_In in Hf. exists f. tauto.
  - intros [f [Hf [Hs E]]]. apply in_map_iff. exists f. split; [exact E |].
    apply filter_In. tauto.
  - rewrite List.filter_app, map_app. reflexivity.
  - rewrite len_map. apply len_filter_le.
Qed.

(** ** The lines of the report *)

Lemma enumerate_lookup {A} (l : list A) (inicio : Z) (k : nat) (i : Z) (x : A) :
  enumerate inicio l !! k = Some (i, x) <->
  i = (inicio + Z.of_nat k)%Z /\ l !! k = Some x.
Proof.
  revert inicio k. induction l as [|y r IH]; intros inicio k.
  - cbn. split; [discriminate | intros [_ H]; destruct k; discriminate].
  - destruct k as [|k]; cbn [enumerate lookup list_lookup].
    + cbn. split.
      * intros H. injection H as <- <-. split; [lia | reflexivity].
      * intros [-> H]. injection H as <-. do 2 f_equal. lia.
    + change ((_ :: enumerate (inicio + 1) r) !! S k)
        with (enumerate (inicio + 1) r !! k).
      change ((y :: r) !! S k) with (r !! k).
      rewrite IH. split; intros [-> H]; (split; [lia | exact H]).
Qed.

Lemma acima_In (filmes : list filme) (limite : numero) (ordenar : bool)
    (n : string) :
  In n (filmes_acima_avaliacao filmes limite ordenar) <->
  exists f, In f filmes /\ nome f = n /\ py_gt (avaliacao f) limite = true.
Proof.
  unfold filmes_acima_avaliacao. destruct filmes as [|f0 resto].
  - cbn. split; [tauto | intros [f [[] _]]].
  - cbn [vazia]. set (filmes := f0 :: resto). rewrite in_map_iff.
    assert (P : forall f,
      In f (if ordenar
            then py_sorted avaliacao true
                   (List.filter (fun f => py_gt (avaliacao f) limite) filmes)
            else List.filter (fun f => py_gt (avaliacao f) limite) filmes) <->
      In f filmes /\ py_gt (avaliacao f) limite = true).
    { intros f.
      pose proof (filter_In (fun f => py_gt (avaliacao f) limite) f filmes)
        as Hfi. cbn beta in Hfi. rewrite <- Hfi.
      destruct ordenar; [| tauto].
      split; apply Permutation_in;
        [| symmetry]; apply py_sorted_perm. }
    split; intros [f Hf]; exists f; specialize (P f); tauto.
Qed.

Lemma find_nome (filmes : list filme) (f : filme) :
  In f filmes ->
  exists g, List.find (fun x => String.eqb (nome x) (nome f)) filmes = Some g /\
    In g filmes /\ nome g = nome f /\
    (List.NoDup (map nome filmes) -> g = f).
Proof.
  induction filmes as [|x r IH]; [intros [] |].
  intros Hf. cbn [List.find]. destruct (String.eqb (nome x) (nome f)) eqn:E.
  - apply String.eqb_eq in E. exists x. split; [reflexivity |].
    split; [left; reflexivity |]. split; [exact E |].
    intros Hn. destruct Hf as [-> | Hf]; [reflexivity |].
    cbn [map] in Hn. apply List.NoDup_cons_iff in Hn. destruct Hn as [Hx _].
    exfalso. apply Hx. rewrite E. apply in_map. exact Hf.
  - destruct Hf as [-> | Hf]; [rewrite String.eqb_refl in E; discriminate |].
    destruct (IH Hf) as (g & Hg & Ig & Ng & Ug). exists g.
    split; [exact Hg |]. split; [right; exact Ig |]. split; [exact Ng |].
    intros Hn. apply Ug. cbn [map] in Hn. apply List.NoDup_cons_iff in Hn. tauto.
Qed.

(** X9: the numbered list of movies above 6.0 in
    [exibir_estatisticas_completas]: line [k] carries the number [k + 1] and
    the [k]-th name of [filmes_acima_avaliacao()]; the rating beside it is
    never the default ["N/A"], it is the rating of the first movie of the
    catalogue with that name, and when the names of the catalogue are
    distinct it is above 6.0. *)
Theorem X9_linhas_acima_6 (filmes : list filme) (k : nat) (i : Z) (n : string)
    (r : option numero) :
  linhas_acima_6 filmes !! k = Some (i, n, r) ->
  i = (Z.of_nat k + 1)%Z /\
  filmes_acima_avaliacao filmes (PyFloat 6) true !! k = Some n /\
  exists f,
    List.find (fun x => String.eqb (nome x) n) filmes = Some f /\
    r = Some (avaliacao f) /\
    (List.NoDup (map nome filmes) -> (6 < nota f)%Q).
Proof.
  unfold linhas_acima_6, filmes_acima_avaliacao_kw. cbn [default].
  unfold limite_default, ordenar_default.
  rewrite list_lookup_fmap. intros H.
  destruct (enumerate 1 (filmes_acima_avaliacao filmes (PyFloat 6) true) !! k)
    as [[i' n']|] eqn:E; [| discriminate].
  cbn in H. injection H as <- <- <-.
  apply enumerate_lookup in E. destruct E as [-> E].
  split; [lia |]. split; [exact E |].
  assert (Hn : In n' (filmes_acima_avaliacao filmes (PyFloat 6) true)).
  { apply list_elem_of_In. eapply list_elem_of_lookup_2. exact E. }
  apply acima_In in Hn. destruct Hn as (f & Hf & <- & Hgt).
  destruct (find_nome filmes f Hf) as (g & Hg & _ & _ & Ug).
  exists g. split; [exact Hg |]. split.
  - unfold avaliacao_exibida. rewrite Hg. reflexivity.
  - intros Hnd. rewrite (Ug Hnd). unfold py_gt in Hgt.
    apply py_lt_iff in Hgt. exact Hgt.
Qed.

Lemma X9_linhas_acima_6_witness :
  linhas_acima_6 notas_5678 !! 1%nat = Some (2%Z, "f7"%string, Some (PyInt 7)) /\
  2%Z = (Z.of_nat 1 + 1)%Z.
Proof.
  assert (H : linhas_acima_6 notas_5678 !! 1%nat =
              Some (2%Z, "f7"%string, Some (PyInt 7))) by reflexivity.
  split; [exact H |].
  exact (proj1 (X9_linhas_acima_6 notas_5678 1 2 "f7" (Some (PyInt 7)) H)).
Defined.

(** Two movies of one name: the rating printed beside the name above 6.0 is
    that of the first one, which is not above 6.0. *)
Example linhas_acima_6_homonimos :
  linhas_acima_6 homonimos = [(1%Z, "x"%string, Some (PyInt 5))].
Proof. reflexivity. Qed.

(** X10: the directors of the mode as [exibir_estatisticas_completas] prints
    them: the call does not raise; every director printed comes with as many
    movie names as its count says, at least one and at most the size of the
    catalogue, taken from the catalogue in its order; all counts printed are
    equal; and a catalogue with a movie prints a director. *)
Theorem X10_linhas_moda (filmes : list filme) :
  exists linhas,
    linhas_moda filmes = Ok linhas /\
    (filmes <> [] -> linhas <> []) /\
    forall d c nomes, In (d, c, nomes) linhas ->
      nomes = filmes_diretor filmes d /\
      len nomes = c /\ (1 <= c <= len filmes)%Z /\
      nomes `sublist_of` map nome filmes /\
      forall d' c' nomes', In (d', c', nomes') linhas -> c' = c.
Proof.
  destruct (moda_diretores_eq filmes) as (m & Hm & Hmax & Hex).
  unfold linhas_moda. rewrite Hm. cbn.
  set (c0 := Counter (map diretor filmes)) in *.
  eexists. split; [reflexivity |].
  assert (Hc : forall d c nomes,
    In (d, c, nomes)
      (map (fun '(d, contagem) => (d, contagem, filmes_diretor filmes d))
         (List.filter (fun item => (snd item =? m)%Z) c0)) ->
    nomes = filmes_diretor filmes d /\ c = m /\ In (d, c) c0).
  { intros d c nomes H. apply in_map_iff in H.
    destruct H as ([d1 c1] & E & H1). injection E as -> -> <-.
    apply filter_In in H1. destruct H1 as [H1 H2]. cbn in H2.
    apply Z.eqb_eq in H2. tauto. }
  split.
  - intros Hne. destruct (Hex Hne) as [k Hk]. intros E.
    assert (Hin : In (k, m) (List.filter (fun item => (snd item =? m)%Z) c0)).
    { apply filter_In. split; [exact Hk | cbn; apply Z.eqb_refl]. }
    apply (in_map (fun '(d, contagem) => (d, contagem, filmes_diretor filmes d)))
      in Hin.
    rewrite E in Hin. destruct Hin.
  - intros d c nomes H. destruct (Hc _ _ _ H) as (-> & -> & Hin).
    split; [reflexivity |].
    destruct (Counter_contador (map diretor filmes)) as [_ Hcont].
    apply Hcont in Hin. destruct Hin as [Hd Em].
    assert (El : len (filmes_diretor filmes d) = m).
    { unfold filmes_diretor. rewrite len_map, Em, <- ocorrencias_conta.
      reflexivity. }
    split; [exact El |]. split.
    + split.
      * apply conta_pos_iff in Hd. lia.
      * rewrite <- El. unfold filmes_diretor. rewrite len_map.
        apply len_filter_le.
    + split; [apply map_sublist, filter_sublist |].
      intros d' c' nomes' H'. destruct (Hc _ _ _ H') as (_ & -> & _).
      reflexivity.
Qed.

(** ** The median *)

Lemma representavel_dobro (x : Q) : representavel x -> representavel (2 * x).
Proof.
  assert (P : forall x, (0 < x)%Q -> representavel x -> representavel (2 * x)).
  { clear x. intros x Hx Hr. unfold representavel in *.
    assert (H2 : (0 < 2 * x)%Q) by lra.
    rewrite fl_nonzero in Hr by lra. rewrite fl_nonzero by lra.
    rewrite (ulp_exp_pos _ Hx) in Hr. rewrite (ulp_exp_pos _ H2).
    destruct (Qlog2_spec x Hx) as [L1 L2].
    assert (E : Qlog2 (2 * x) = (Qlog2 x + 1)%Z).
    { apply Qlog2_unique.
      - rewrite pow2_add. change (2 ^ 1)%Q with 2%Q. lra.
      - rewrite (pow2_add (Qlog2 x + 1) 1). change (2 ^ 1)%Q with 2%Q. lra. }
    rewrite E. set (s := Z.max (Qlog2 x - 52) emin) in *.
    unfold round_at in Hr. set (m := Qrne (x / 2 ^ s)) in *.
    assert (Dobro : forall k, s = k -> round_at k (2 * x) == 2 * x).
    { intros k <-. apply (round_at_exact s (2 * m)).
      rewrite inject_Z_mult. change (inject_Z 2) with 2%Q. lra. }
    assert (Acima : forall k, (s + 1)%Z = k -> round_at k (2 * x) == 2 * x).
    { intros k <-. apply (round_at_exact _ m).
      rewrite pow2_add. change (2 ^ 1)%Q with 2%Q. lra. }
    destruct (Z_lt_le_dec (Qlog2 x - 52) emin) as [Hlt | Hle].
    - apply Dobro. unfold s. lia.
    - apply Acima. unfold s. lia. }
  intros Hr. destruct (Q_dec 0 x) as [[Hp | Hn] | Hz].
  - apply P; assumption.
  - unfold representavel in *.
    assert (Hr' : representavel (- x)).
    { unfold representavel. rewrite fl_opp, Hr. reflexivity. }
    apply P in Hr'; [| lra]. unfold representavel in Hr'.
    rewrite (fl_proper (2 * x) (- (2 * - x))) by lra.
    rewrite fl_opp, Hr'. lra.
  - unfold representavel. rewrite (fl_zero (2 * x)) by lra. lra.
Qed.

(** The float mean of two floats lies between them. *)
Lemma meio_entre (a b : Q) :
  representavel a -> representavel b -> (a <= b)%Q ->
  (a <= fl (fl (a + b) / 2) <= b)%Q.
Proof.
  intros Ra Rb Hab.
  pose proof (representavel_dobro a Ra) as Da.
  pose proof (representavel_dobro b Rb) as Db.
  unfold representavel in *.
  assert (L : (2 * a <= fl (a + b))%Q).
  { apply Qle_trans with (fl (2 * a)); [rewrite Da; apply Qle_refl |].
    apply fl_mono. lra. }
  assert (U : (fl (a + b) <= 2 * b)%Q).
  { apply Qle_trans with (fl (2 * b)); [| rewrite Db; apply Qle_refl].
    apply fl_mono. lra. }
  split.
  - apply Qle_trans with (fl a); [rewrite Ra; apply Qle_refl |].
    apply fl_mono. unfold Qdiv. change (/ 2)%Q with (1 # 2)%Q. lra.
  - apply Qle_trans with (fl b); [| rewrite Rb; apply Qle_refl].
    apply fl_mono. unfold Qdiv. change (/ 2)%Q with (1 # 2)%Q. lra.
Qed.

(** [(a + b) / 2] on two numbers [a <= b] lies between them. *)
Lemma media_de_dois (a b : numero) :
  numero_exato a -> numero_exato b -> (valor a <= valor b)%Q ->
  exists q, py_truediv (py_add a b) (PyInt 2) = Ok (PyFloat q) /\
    (valor a <= q <= valor b)%Q.
Proof.
  intros Ha Hb Hab.
  assert (F2 : fl 2 == 2) by (apply (fl_Z 2); reflexivity).
  destruct a as [za | qa], b as [zb | qb].
  - cbn in *. eexists. split; [reflexivity |].
    rewrite inject_Z_plus. change (inject_Z 2) with 2%Q. split.
    + apply Qle_trans with (fl (inject_Z za));
        [rewrite (fl_Z za Ha); apply Qle_refl |].
      apply fl_mono. unfold Qdiv. change (/ 2)%Q with (1 # 2)%Q. lra.
    + apply Qle_trans with (fl (inject_Z zb));
        [| rewrite (fl_Z zb Hb); apply Qle_refl].
      apply fl_mono. unfold Qdiv. change (/ 2)%Q with (1 # 2)%Q. lra.
  - destruct (numero_exato_float _ Ha) as [Ra Ea].
    destruct (numero_exato_float _ Hb) as [Rb Eb]. cbn in *.
    eexists. split; [reflexivity |].
    rewrite (fl_proper (fl (inject_Z za) + qb) (inject_Z za + qb)) by lra.
    rewrite (fl_proper (_ / fl 2) (fl (inject_Z za + qb) / 2))
      by (rewrite F2; reflexivity).
    apply meio_entre; assumption.
  - destruct (numero_exato_float _ Ha) as [Ra Ea].
    destruct (numero_exato_float _ Hb) as [Rb Eb]. cbn in *.
    eexists. split; [reflexivity |].
    rewrite (fl_proper (qa + fl (inject_Z zb)) (qa + inject_Z zb)) by lra.
    rewrite (fl_proper (_ / fl 2) (fl (qa + inject_Z zb) / 2))
      by (rewrite F2; reflexivity).
    apply meio_entre; assumption.
  - destruct (numero_exato_float _ Ha) as [Ra Ea].
    destruct (numero_exato_float _ Hb) as [Rb Eb]. cbn in *.
    eexists. split; [reflexivity |].
    rewrite (fl_proper (_ / fl 2) (fl (qa + qb) / 2))
      by (rewrite F2; reflexivity).
    apply meio_entre; assumption.
Qed.

Lemma filter_length_perm {A} (p : A -> bool) (l l' : list A) :
  Permutation l l' ->
  length (List.filter p l) = length (List.filter p l').
Proof.
  induction 1 as [| x l l' _ IH | x y l | l l' l'' _ IH1 _ IH2];
    cbn [List.filter].
  - reflexivity.
  - destruct (p x); cbn [length]; rewrite IH; reflexivity.
  - destruct (p x), (p y); reflexivity.
  - rewrite IH1. exact IH2.
Qed.

Lemma filter_map_length {A B} (f : A -> B) (p : B -> bool) (l : list A) :
  length (List.filter p (map f l)) =
  length (List.filter (fun x => p (f x)) l).
Proof.
  induction l as [|x r IH]; [reflexivity |].
  cbn [map List.filter]. destruct (p (f x)); cbn [length]; rewrite IH;
    reflexivity.
Qed.

(** In a list in ascending order, the elements up to one that is at most [x]
    are all at most [x], and the elements from one that is at least [x] on
    are all at least [x]. *)
Lemma ordenadas_ate (l : list numero) (i : nat) (a : numero) (x : Q) :
  StronglySorted (fun a b => (valor a <= valor b)%Q) l ->
  l !! i = Some a -> (valor a <= x)%Q ->
  (i < length (List.filter (fun y => Qle_bool (valor y) x) l))%nat.
Proof.
  intros Hs. revert i. induction Hs as [|y r Hs IH Hy]; intros i Hi Hx.
  - discriminate.
  - cbn [List.filter]. destruct i as [|i].
    + cbn in Hi. injection Hi as ->.
      apply Qle_bool_iff in Hx. rewrite Hx. cbn. lia.
    + change (r !! i = Some a) in Hi.
      assert (Hya : (valor y <= valor a)%Q).
      { rewrite Forall_forall in Hy. apply Hy.
        eapply list_elem_of_lookup_2. exact Hi. }
      assert (Hyx : Qle_bool (valor y) x = true) by (apply Qle_bool_iff; lra).
      rewrite Hyx. cbn [length]. specialize (IH i Hi Hx). lia.
Qed.

Lemma ordenadas_desde (l : list numero) (i : nat) (a : numero) (x : Q) :
  StronglySorted (fun a b => (valor a <= valor b)%Q) l ->
  l !! i = Some a -> (x <= valor a)%Q ->
  (length l - i <= length (List.filter (fun y => Qle_bool x (valor y)) l))%nat.
Proof.
  intros Hs. revert i. induction Hs as [|y r Hs IH Hy]; intros i Hi Hx.
  - discriminate.
  - destruct i as [|i].
    + cbn in Hi. injection Hi as ->.
      rewrite filter_todos; [lia |]. constructor.
      * apply Qle_bool_iff. exact Hx.
      * eapply Forall_impl; [exact Hy |]. intros z Hz. cbn in Hz.
        apply Qle_bool_iff. lra.
    + change (r !! i = Some a) in Hi. specialize (IH i Hi Hx).
      cbn [List.filter]. destruct (Qle_bool x (valor y)); cbn [length]; lia.
Qed.

Lemma notas_ordenadas (filmes : list filme) :
  StronglySorted (fun a b => (valor a <= valor b)%Q)
    (py_sorted id false (map avaliacao filmes)).
Proof.
  eapply StronglySorted_impl; [| apply (py_sorted_sorted id false)].
  intros a b Hab. cbn in Hab. apply py_lt_false_iff in Hab. exact Hab.
Qed.

Lemma notas_ate_ordenadas (filmes : list filme) (x : Q) :
  notas_ate filmes x =
  len (List.filter (fun y => Qle_bool (valor y) x)
         (py_sorted id false (map avaliacao filmes))).
Proof.
  unfold notas_ate, len. f_equal.
  rewrite (filter_length_perm _ _ _ (py_sorted_perm id false _)).
  rewrite filter_map_length. reflexivity.
Qed.

Lemma notas_desde_ordenadas (filmes : list filme) (x : Q) :
  notas_desde filmes x =
  len (List.filter (fun y => Qle_bool x (valor y))
         (py_sorted id false (map avaliacao filmes))).
Proof.
  unfold notas_desde, len. f_equal.
  rewrite (filter_length_perm _ _ _ (py_sorted_perm id false _)).
  rewrite filter_map_length. reflexivity.
Qed.

Lemma ordenada_exata (filmes : list filme) (i : nat) (a : numero) :
  Forall nota_exata filmes ->
  py_sorted id false (map avaliacao filmes) !! i = Some a -> numero_exato a.
Proof.
  intros Hex Hi. apply list_elem_of_lookup_2, list_elem_of_In in Hi.
  apply (Permutation_in _ (py_sorted_perm id false _)) in Hi.
  apply in_map_iff in Hi. destruct Hi as (f & <- & Hf).
  rewrite Forall_forall in Hex. apply (Hex f). apply list_elem_of_In. exact Hf.
Qed.

Lemma extremos_existem (f0 : filme) (resto : list filme) :
  exists lo hi, In lo (f0 :: resto) /\ In hi (f0 :: resto) /\
    forall f, In f (f0 :: resto) -> (nota lo <= nota f)%Q /\ (nota f <= nota hi)%Q.
Proof.
  revert f0. induction resto as [|f1 r IH]; intros f0.
  - exists f0, f0. split; [left; reflexivity |]. split; [left; reflexivity |].
    intros f [<- | []]. split; apply Qle_refl.
  - destruct (IH f1) as (lo & hi & Hlo & Hhi & Hb).
    exists (if Qle_bool (nota f0) (nota lo) then f0 else lo),
           (if Qle_bool (nota hi) (nota f0) then f0 else hi).
    destruct (Qle_bool (nota f0) (nota lo)) eqn:E1;
      destruct (Qle_bool (nota hi) (nota f0)) eqn:E2;
      (split; [first [left; reflexivity | right; assumption] |]);
      (split; [first [left; reflexivity | right; assumption] |]);
      intros f [<- | Hf];
      try (destruct (Hb f Hf) as [B1 B2]);
      try (apply Qle_bool_iff in E1); try (apply Qle_bool_iff in E2);
      try (assert (nota lo < nota f0)%Q
             by (apply Qnot_le_lt; intros C; apply Qle_bool_iff in C; congruence));
      try (assert (nota f0 < nota hi)%Q
             by (apply Qnot_le_lt; intros C; apply Qle_bool_iff in C; congruence));
      split; lra.
Qed.

Lemma filter_nao_vazio {A} (p : A -> bool) (l : list A) :
  (0 < len (List.filter p l))%Z -> exists x, In x l /\ p x = true.
Proof.
  unfold len. destruct (List.filter p l) as [|x r] eqn:E; [cbn; lia |].
  intros _. exists x. apply filter_In. rewrite E. left. reflexivity.
Qed.

(** X11: the median of [calcular_mediana_avaliacao] is a median: on a
    catalogue with a movie, with ratings as JSON gives them, the call returns
    a value that at least half of the ratings do not exceed and at least half
    of the ratings reach; so it lies between the least and the greatest
    rating. *)
Theorem X11_mediana_divide (f0 : filme) (resto : list filme) :
  Forall nota_exata (f0 :: resto) ->
  exists med,
    calcular_mediana_avaliacao (f0 :: resto) = Ok med /\
    (len (f0 :: resto) <= 2 * notas_ate (f0 :: resto) (valor med))%Z /\
    (len (f0 :: resto) <= 2 * notas_desde (f0 :: resto) (valor med))%Z /\
    entre_extremos (f0 :: resto) med.
Proof.
  intros Hex. set (filmes := f0 :: resto) in *.
  set (ordenadas := py_sorted id false (map avaliacao filmes)).
  assert (Hs : StronglySorted (fun a b => (valor a <= valor b)%Q) ordenadas)
    by apply notas_ordenadas.
  assert (Hlen : length ordenadas = length filmes).
  { unfold ordenadas.
    rewrite (Permutation_length (py_sorted_perm id false _)). apply length_map. }
  assert (Hn : (0 < length filmes)%nat) by (cbn; lia).
  assert (Hdm : length filmes =
                (2 * (length filmes / 2) + length filmes mod 2)%nat)
    by (apply Nat.div_mod_eq).
  assert (Metade : exists med,
    calcular_mediana_avaliacao filmes = Ok med /\
    (len filmes <= 2 * notas_ate filmes (valor med))%Z /\
    (len filmes <= 2 * notas_desde filmes (valor med))%Z).
  { pose proof (mediana_nao_vazia f0 resto) as H. cbv zeta in H.
    fold filmes in H. fold ordenadas in H.
    destruct (Nat.even (length filmes)) eqn:Ev.
    - destruct H as (a & b & q & Ha & Hb & Hq & _ & Hmed).
      assert (Hm2 : (length filmes mod 2 = 0)%nat).
      { apply Nat.even_spec in Ev. destruct Ev as [h ->].
        rewrite Nat.mul_comm. apply Nat.Div0.mod_mul. }
      assert (Hab : (valor a <= valor b)%Q).
      { refine (StronglySorted_lookup (fun a b => (valor a <= valor b)%Q)
                  ordenadas _ _ a b Hs Ha Hb _). lia. }
      destruct (media_de_dois a b (ordenada_exata _ _ _ Hex Ha)
                  (ordenada_exata _ _ _ Hex Hb) Hab) as (q' & Hq' & Lq & Uq).
      assert (q' = q) by congruence. subst q'.
      exists (PyFloat q). split; [exact Hmed |].
      rewrite notas_ate_ordenadas, notas_desde_ordenadas.
      fold ordenadas. cbn [valor].
      pose proof (ordenadas_ate ordenadas _ a q Hs Ha Lq) as C1.
      pose proof (ordenadas_desde ordenadas _ b q Hs Hb Uq) as C2.
      unfold len. lia.
    - destruct H as (a & Ha & Hmed).
      exists a. split; [exact Hmed |].
      rewrite notas_ate_ordenadas, notas_desde_ordenadas.
      fold ordenadas.
      pose proof (ordenadas_ate ordenadas _ a (valor a) Hs Ha (Qle_refl _)) as C1.
      pose proof (ordenadas_desde ordenadas _ a (valor a) Hs Ha (Qle_refl _)) as C2.
      pose proof (Nat.mod_upper_bound (length filmes) 2) as Hm.
      unfold len. lia. }
  destruct Metade as (med & Hmed & C1 & C2).
  exists med. split; [exact Hmed |]. split; [exact C1 |]. split; [exact C2 |].
  destruct (extremos_existem f0 resto) as (lo & hi & Hlo & Hhi & Hb).
  fold filmes in Hlo, Hhi, Hb.
  exists lo, hi. split; [exact Hlo |]. split; [exact Hhi |].
  split; [exact Hb |].
  assert (P1 : (0 < notas_ate filmes (valor med))%Z).
  { assert (0 < len filmes)%Z by (unfold len; lia). lia. }
  assert (P2 : (0 < notas_desde filmes (valor med))%Z).
  { assert (0 < len filmes)%Z by (unfold len; lia). lia. }
  apply filter_nao_vazio in P1. destruct P1 as (f1 & I1 & L1).
  apply filter_nao_vazio in P2. destruct P2 as (f2 & I2 & L2).
  apply Qle_bool_iff in L1. apply Qle_bool_iff in L2.
  destruct (Hb f1 I1) as [B1 _]. destruct (Hb f2 I2) as [_ B2].
  split; lra.
Qed.

Lemma X11_mediana_divide_witness :
  Forall nota_exata notas_2468 /\
  exists med,
    calcular_mediana_avaliacao notas_2468 = Ok med /\
    (len notas_2468 <= 2 * notas_ate notas_2468 (valor med))%Z /\
    (len notas_2468 <= 2 * notas_desde notas_2468 (valor med))%Z /\
    entre_extremos notas_2468 med.
Proof.
  assert (H : Forall nota_exata notas_2468).
  { repeat constructor; unfold nota_exata; cbn; lia. }
  split; [exact H |]. exact (X11_mediana_divide _ _ H).
Defined.

(** ** The text of a duration *)

Lemma str_int_inj (a b : Z) : str_int a = str_int b -> a = b.
Proof.
  unfold str_int. intros E. apply DecimalZ.to_int_inj.
  pose proof (NilEmpty.isi (Z.to_int a)) as Ia.
  pose proof (NilEmpty.isi (Z.to_int b)) as Ib.
  rewrite E in Ia. congruence.
Qed.

(** Reading the text of an int gives the int back, as [int(str(z))]. *)
Lemma str_int_lido (z : Z) :
  option_map Z.of_int (NilEmpty.int_of_string (str_int z)) = Some z.
Proof.
  unfold str_int. rewrite NilEmpty.isi. cbn. f_equal. apply DecimalZ.of_to.
Qed.

Lemma formato_02d_lido (z : Z) :
  option_map Z.of_int (NilEmpty.int_of_string (formato_02d z)) = Some z.
Proof.
  unfold formato_02d.
  destruct ((0 <=? z)%Z && (z <=? 9)%Z) eqn:E; [| apply str_int_lido].
  apply andb_true_iff in E. destruct E as [E1 E2].
  apply Z.leb_le in E1. apply Z.leb_le in E2.
  assert (H : (z = 0 \/ z = 1 \/ z = 2 \/ z = 3 \/ z = 4 \/ z = 5 \/ z = 6 \/
               z = 7 \/ z = 8 \/ z = 9)%Z) by lia.
  repeat (destruct H as [-> | H]; [reflexivity |]). subst z. reflexivity.
Qed.

Lemma formato_02d_inj (a b : Z) : formato_02d a = formato_02d b -> a = b.
Proof.
  intros E. pose proof (formato_02d_lido a) as Ia.
  pose proof (formato_02d_lido b) as Ib. rewrite E in Ia. congruence.
Qed.

Lemma sem_h_uint (d : Decimal.uint) : sem_h (NilEmpty.string_of_uint d) = true.
Proof. induction d; cbn; try reflexivity; exact IHd. Qed.

Lemma sem_h_str_int (z : Z) : sem_h (str_int z) = true.
Proof.
  unfold str_int. destruct (Z.to_int z) as [d | d]; cbn; apply sem_h_uint.
Qed.

(** Two texts cut at their first [h] are equal part by part. *)
Lemma corte_no_h (s1 s2 r1 r2 : string) :
  sem_h s1 = true -> sem_h s2 = true ->
  (s1 ++ String "h" r1)%string = (s2 ++ String "h" r2)%string ->
  s1 = s2 /\ r1 = r2.
Proof.
  revert s2. induction s1 as [|c s1 IH]; intros s2 H1 H2 E.
  - destruct s2 as [|c2 s2]; cbn in E.
    + injection E as E. split; [reflexivity | exact E].
    + injection E as Ec _. subst c2. cbn in H2. discriminate.
  - destruct s2 as [|c2 s2]; cbn in E.
    + injection E as Ec _. subst c. cbn in H1. discriminate.
    + injection E as Ec E. subst c2. cbn in H1, H2.
      apply andb_true_iff in H1. apply andb_true_iff in H2.
      destruct (IH s2) as [-> ->]; [tauto | tauto | exact E |].
      split; reflexivity.
Qed.

Lemma length_append (a b : string) :
  String.length (a ++ b)%string = (String.length a + String.length b)%nat.
Proof.
  induction a as [|c a IH]; [reflexivity |].
  change (S (String.length (a ++ b)%string) =
          S (String.length a + String.length b)).
  rewrite IH. reflexivity.
Qed.

Lemma append_cancela (a b c : string) :
  (a ++ c)%string = (b ++ c)%string -> a = b.
Proof.
  revert b. induction a as [|x a IH]; intros b E.
  - destruct b as [|y b]; [reflexivity |].
    apply (f_equal String.length) in E.
    rewrite !length_append in E. cbn in E. lia.
  - destruct b as [|y b].
    + apply (f_equal String.length) in E.
      rewrite !length_append in E. cbn in E. lia.
    + cbn in E. injection E as -> E. f_equal. apply IH. exact E.
Qed.

(** X12: [formatar_duracao] loses nothing: two durations have the same text
    only when they are the same pair of hours and minutes, whatever the
    ints; the hours are written in full and the minutes on two digits at
    least. *)
Theorem X12_formatar_duracao_injetiva (d1 d2 : Z * Z) :
  (formatar_duracao d1 = formatar_duracao d2 <-> d1 = d2) /\
  (String.length (formatar_duracao d1) >= 7)%nat.
Proof.
  split; [split; [| intros ->; reflexivity] |].
  - destruct d1 as [h1 m1], d2 as [h2 m2]. unfold formatar_duracao.
    intros E. apply corte_no_h in E; try apply sem_h_str_int.
    destruct E as [Eh Em]. apply append_cancela in Em.
    apply str_int_inj in Eh. apply formato_02d_inj in Em. congruence.
  - destruct d1 as [h1 m1]. unfold formatar_duracao.
    rewrite !length_append. cbn [String.length].
    assert (Hh : (1 <= String.length (str_int h1))%nat).
    { destruct (str_int h1) eqn:E; [| cbn; lia].
      pose proof (str_int_lido h1) as L. rewrite E in L. cbn in L.
      injection L as L. subst h1. discriminate. }
    assert (Hm : (2 <= String.length (formato_02d m1))%nat).
    { unfold formato_02d.
      destruct ((0 <=? m1)%Z && (m1 <=? 9)%Z) eqn:B.
      - cbn [String.length].
        destruct (str_int m1) eqn:E; [| cbn; lia].
        pose proof (str_int_lido m1) as L. rewrite E in L. cbn in L.
        injection L as L. subst m1. discriminate.
      - destruct (str_int m1) as [|c1 [|c2 r]] eqn:E; [| | cbn; lia].
        + pose proof (str_int_lido m1) as L. rewrite E in L. cbn in L.
          injection L as L. subst m1. discriminate.
        + exfalso. pose proof (str_int_lido m1) as L. rewrite E in L.
          destruct c1 as [[] [] [] [] [] [] [] []]; cbn in L;
            try discriminate L; injection L as L; subst m1; discriminate B. }
    lia.
Qed.

(** A duration of two hours and five minutes. *)
Example formatar_duracao_2h05 : formatar_duracao (2, 5)%Z = "2h05min"%string.
Proof. reflexivity. Qed.

(** ** The report and the program on the heap *)

Section Programa.
Implicit Types (h : gmap nat objeto) (self : instancia).

Lemma retorna_bind {A B} (m : estado A) (k : A -> estado B) (a : A) (v : B) h :
  retorna m a h ->
  (forall h1, h ⊆ h1 -> retorna (k a) v h1) ->
  retorna (m ≫= k) v h.
Proof.
  intros (h1 & Em & S1) Hk. destruct (Hk h1 S1) as (h2 & Ek & S2).
  exists h2. split; [| etransitivity; eassumption].
  unfold mbind, estado_bind. rewrite Em. exact Ek.
Qed.

(** A call that raises ends the method with its exception; one that returns
    lets the method go on. *)
Lemma retorna_tentar {A B} (m : estado (resultado A))
    (k : A -> estado (resultado B)) (r : resultado A) (f : A -> resultado B) h :
  retorna m r h ->
  (forall a h1, r = Ok a -> h ⊆ h1 -> retorna (k a) (f a) h1) ->
  retorna (tentar m k) (r ≫= f) h.
Proof.
  intros Hm Hk. unfold tentar. apply (retorna_bind _ _ r); [exact Hm |].
  intros h1 S1. destruct r as [a | e].
  - apply Hk; [reflexivity | exact S1].
  - apply retorna_mret.
Qed.

Lemma m_completas_retorna (impl : soma_impl) self h filmes :
  h !! filmes_ref self = Some (ListaFilmes filmes) ->
  retorna (m_exibir_estatisticas_completas impl self)
    (exibir_estatisticas_completas impl filmes) h.
Proof.
  intros Hf.
  unfold m_exibir_estatisticas_completas, exibir_estatisticas_completas.
  apply (retorna_ler _ filmes); [exact Hf |].
  destruct (vazia filmes); [apply retorna_mret |].
  apply (retorna_bind _ _ (len filmes)).
  { exists h. split; [| reflexivity].
    unfold fmap, estado_fmap. rewrite (ler_filmes_spec h _ filmes Hf).
    reflexivity. }
  intros h1 S1.
  assert (F1 : h1 !! filmes_ref self = Some (ListaFilmes filmes))
    by (eapply lookup_weaken; eassumption).
  apply (retorna_tentar _ _ _
    (fun media =>
       mediana ← calcular_mediana_avaliacao filmes;
       extremos ← extremos_duracao filmes;
       moda ← moda_diretores filmes;
       extra ← exibir_estatisticas_adicionais impl filmes;
       Ok (Some {| r_total := len filmes; r_media := media;
                   r_mediana := mediana;
                   r_acima_6 := filmes_acima_avaliacao_kw filmes None None;
                   r_streaming := filmes_em_streaming filmes;
                   r_extremos := extremos; r_moda := moda;
                   r_adicionais := extra |})));
    [apply m_calcular_media_retorna; exact F1 |].
  intros media h2 _ S2.
  assert (F2 : h2 !! filmes_ref self = Some (ListaFilmes filmes))
    by (eapply lookup_weaken; eassumption).
  apply (retorna_tentar _ _ _
    (fun mediana =>
       extremos ← extremos_duracao filmes;
       moda ← moda_diretores filmes;
       extra ← exibir_estatisticas_adicionais impl filmes;
       Ok (Some {| r_total := len filmes; r_media := media;
                   r_mediana := mediana;
                   r_acima_6 := filmes_acima_avaliacao_kw filmes None None;
                   r_streaming := filmes_em_streaming filmes;
                   r_extremos := extremos; r_moda := moda;
                   r_adicionais := extra |})));
    [apply m_calcular_mediana_retorna; exact F2 |].
  intros mediana h3 _ S3.
  assert (F3 : h3 !! filmes_ref self = Some (ListaFilmes filmes))
    by (eapply lookup_weaken; eassumption).
  apply (retorna_bind _ _ (filmes_acima_avaliacao_kw filmes None None));
    [apply m_filmes_acima_retorna; exact F3 |].
  intros h4 S4.
  assert (F4 : h4 !! filmes_ref self = Some (ListaFilmes filmes))
    by (eapply lookup_weaken; eassumption).
  apply (retorna_bind _ _ (filmes_em_streaming filmes));
    [apply m_filmes_em_streaming_retorna; exact F4 |].
  intros h5 S5.
  assert (F5 : h5 !! filmes_ref self = Some (ListaFilmes filmes))
    by (eapply lookup_weaken; eassumption).
  apply (retorna_tentar _ _ _
    (fun extremos =>
       moda ← moda_diretores filmes;
       extra ← exibir_estatisticas_adicionais impl filmes;
       Ok (Some {| r_total := len filmes; r_media := media;
                   r_mediana := mediana;
                   r_acima_6 := filmes_acima_avaliacao_kw filmes None None;
                   r_streaming := filmes_em_streaming filmes;
                   r_extremos := extremos; r_moda := moda;
                   r_adicionais := extra |})));
    [apply m_extremos_duracao_retorna; exact F5 |].
  intros extremos h6 _ S6.
  assert (F6 : h6 !! filmes_ref self = Some (ListaFilmes filmes))
    by (eapply lookup_weaken; eassumption).
  apply (retorna_tentar _ _ _
    (fun moda =>
       extra ← exibir_estatisticas_adicionais impl filmes;
       Ok (Some {| r_total := len filmes; r_media := media;
                   r_mediana := mediana;
                   r_acima_6 := filmes_acima_avaliacao_kw filmes None None;
                   r_streaming := filmes_em_streaming filmes;
                   r_extremos := extremos; r_moda := moda;
                   r_adicionais := extra |})));
    [apply m_moda_diretores_retorna; exact F6 |].
  intros moda h7 _ S7.
  assert (F7 : h7 !! filmes_ref self = Some (ListaFilmes filmes))
    by (eapply lookup_weaken; eassumption).
  apply (retorna_tentar _ _ _
    (fun extra =>
       Ok (Some {| r_total := len filmes; r_media := media;
                   r_mediana := mediana;
                   r_acima_6 := filmes_acima_avaliacao_kw filmes None None;
                   r_streaming := filmes_em_streaming filmes;
                   r_extremos := extremos; r_moda := moda;
                   r_adicionais := extra |})));
    [apply m_adicionais_retorna; exact F7 |].
  intros extra h8 _ S8. apply retorna_mret.
Qed.



End Programa.

(** X13: [exibir_estatisticas_completas] as a method, with every list its
    calls build and the in-place sort of [filmes_acima_avaliacao]: it returns
    what the pure functions give on the contents of [self.filmes], in the
    order of its calls, and leaves [self.filmes] and every other object of
    the heap as they were. *)
Theorem X13_relatorio_nao_altera_catalogo (impl : soma_impl)
    (self : instancia) (h : gmap nat objeto) (filmes : list filme) :
  h !! filmes_ref self = Some (ListaFilmes filmes) ->
  exists h1,
    m_exibir_estatisticas_completas impl self h =
      (exibir_estatisticas_completas impl filmes, h1) /\
    h1 !! filmes_ref self = Some (ListaFilmes filmes) /\
    forall p o, h !! p = Some o -> h1 !! p = Some o.
Proof.
  intros Hf. destruct (m_completas_retorna impl self h filmes Hf) as (h1 & E & S).
  exists h1. split; [exact E |].
  split; [eapply lookup_weaken; eassumption |].
  intros p o Hp. eapply lookup_weaken; eassumption.
Qed.

Lemma X13_relatorio_nao_altera_catalogo_witness :
  heap_exemplo !! filmes_ref self_exemplo = Some (ListaFilmes notas_5678) /\
  exists h1,
    m_exibir_estatisticas_completas Compensada self_exemplo heap_exemplo =
      (exibir_estatisticas_completas Compensada notas_5678, h1) /\
    h1 !! filmes_ref self_exemplo = Some (ListaFilmes notas_5678) /\
    forall p o, heap_exemplo !! p = Some o -> h1 !! p = Some o.
Proof.
  assert (H : heap_exemplo !! filmes_ref self_exemplo =
              Some (ListaFilmes notas_5678)) by reflexivity.
  split; [exact H |].
  exact (X13_relatorio_nao_altera_catalogo Compensada self_exemplo heap_exemplo
           notas_5678 H).
Defined.



(** ** Durations as pairs, and the two extremes *)

(** X15: on durations whose minutes are below an hour,
    [duracao_em_minutos] compares the pairs hours first, then minutes; two
    such durations of the same length are the same pair, and the pair is
    read back from the length by division by 60. *)
Theorem X15_duracao_em_minutos_ordem (h1 m1 h2 m2 : Z) :
  (0 <= m1 < 60)%Z -> (0 <= m2 < 60)%Z ->
  ((duracao_em_minutos (h1, m1) < duracao_em_minutos (h2, m2))%Z <->
     (h1 < h2 \/ (h1 = h2 /\ m1 < m2))%Z) /\
  (duracao_em_minutos (h1, m1) = duracao_em_minutos (h2, m2) <->
     (h1, m1) = (h2, m2)) /\
  (duracao_em_minutos (h1, m1) / 60, duracao_em_minutos (h1, m1) mod 60)%Z =
    (h1, m1).
Proof.
  intros H1 H2. unfold duracao_em_minutos. cbn [fst snd].
  split; [lia |]. split.
  - split; [intros E | intros E; injection E as -> ->; reflexivity].
    assert (h1 = h2) by lia. subst h2. f_equal. lia.
  - f_equal.
    + symmetry. apply (Z.div_unique _ 60 h1 m1); lia.
    + symmetry. apply (Z.mod_unique _ 60 h1 m1); lia.
Qed.

Lemma X15_duracao_em_minutos_ordem_witness :
  (0 <= 45 < 60)%Z /\ (0 <= 5 < 60)%Z /\
  ((duracao_em_minutos (1, 45) < duracao_em_minutos (2, 5))%Z <->
     (1 < 2 \/ (1 = 2 /\ 45 < 5))%Z).
Proof.
  assert (H1 : (0 <= 45 < 60)%Z) by lia.
  assert (H2 : (0 <= 5 < 60)%Z) by lia.
  split; [exact H1 |]. split; [exact H2 |].
  exact (proj1 (X15_duracao_em_minutos_ordem 1 45 2 5 H1 H2)).
Defined.

(** X16: the two movies of [extremos_duracao]: the shortest is not longer
    than the longest; they last the same exactly when all movies of the
    catalogue last the same, and then both are the first movie of the
    catalogue. *)
Theorem X16_extremos_duracao_iguais (f0 : filme) (resto : list filme) :
  exists longo curto,
    extremos_duracao (f0 :: resto) = Ok (Some longo, Some curto) /\
    (minutos_de curto <= minutos_de longo)%Z /\
    (minutos_de longo = minutos_de curto <->
     forall f, In f (f0 :: resto) -> minutos_de f = minutos_de f0) /\
    (minutos_de longo = minutos_de curto -> longo = f0 /\ curto = f0).
Proof.
  destruct (py_max_primeiro minutos_de f0 resto) as (longo & Hl & Pl).
  destruct (py_min_primeiro minutos_de f0 resto) as (curto & Hc & Pc).
  destruct (primeiro_maximo_Z _ _ _ Pl) as (i & Hi & Lmax & Lfirst).
  destruct (primeiro_minimo_Z _ _ _ Pc) as (k & Hk & Cmin & Cfirst).
  exists longo, curto. split.
  { unfold extremos_duracao. cbn [vazia].
    change (fun x : filme => duracao_em_minutos (duracao x)) with minutos_de.
    rewrite Hl. cbn [mbind resultado_bind]. rewrite Hc. reflexivity. }
  assert (I0 : In f0 (f0 :: resto)) by (left; reflexivity).
  assert (Il : In longo (f0 :: resto)).
  { apply list_elem_of_In. eapply list_elem_of_lookup_2. exact Hi. }
  assert (Ic : In curto (f0 :: resto)).
  { apply list_elem_of_In. eapply list_elem_of_lookup_2. exact Hk. }
  split; [apply Lmax; exact Ic |].
  assert (Primeiro : minutos_de longo = minutos_de curto ->
                     longo = f0 /\ curto = f0).
  { intros E.
    pose proof (Lmax f0 I0) as A1. pose proof (Cmin f0 I0) as A2.
    assert (Z1 : (i <= 0)%nat) by (apply (Lfirst 0%nat f0); [reflexivity | lia]).
    assert (Z2 : (k <= 0)%nat) by (apply (Cfirst 0%nat f0); [reflexivity | lia]).
    assert (i = 0%nat) by lia. assert (k = 0%nat) by lia. subst i k.
    cbn in Hi, Hk. split; congruence. }
  split; [| exact Primeiro]. split.
  - intros E f Hf. pose proof (Lmax f Hf). pose proof (Cmin f Hf).
    pose proof (Lmax f0 I0). pose proof (Cmin f0 I0). lia.
  - intros Hall. rewrite (Hall longo Il), (Hall curto Ic). reflexivity.
Qed.

(** ** The best rated movie and the list above a limit *)

Lemma filter_filter_andb {A} (p q : A -> bool) (l : list A) :
  List.filter q (List.filter p l) = List.filter (fun x => p x && q x) l.
Proof.
  induction l as [|x r IH]; [reflexivity |].
  cbn [List.filter]. destruct (p x); cbn [andb List.filter];
    [destruct (q x) |]; rewrite IH; reflexivity.
Qed.





(** ** The report of a catalogue with a movie *)

(** X18: on a catalogue with a movie, with ratings and durations in minutes
    of at most 2^53 in magnitude, far inside the range of floats,
    [exibir_estatisticas_completas] goes through all its
    sections: the total is the size of the catalogue, the two lists have at
    most that many names, the two extremes of duration are movies and the
    mode has a director, so the two sections that the code guards with [if]
    are printed; [main] returns the same report. *)
Theorem X18_relatorio_completo (impl : soma_impl) (f0 : filme)
    (resto : list filme) :
  Forall filme_limitado (f0 :: resto) ->
  exists r longo curto,
    exibir_estatisticas_completas impl (f0 :: resto) = Ok (Some r) /\
    main impl (f0 :: resto) = Ok (Some r) /\
    r_total r = len (f0 :: resto) /\ (0 < r_total r)%Z /\
    r_acima_6 r = filmes_acima_avaliacao (f0 :: resto) (PyFloat 6) true /\
    (len (r_acima_6 r) <= r_total r)%Z /\
    (len (r_streaming r) <= r_total r)%Z /\
    r_extremos r = (Some longo, Some curto) /\
    r_moda r <> [] /\
    exibir_estatisticas_adicionais impl (f0 :: resto) = Ok (r_adicionais r).
Proof.
  intros _.
  destruct (media_retorna impl f0 resto) as [q Hq].
  destruct (mediana_retorna f0 resto) as [m Hm].
  destruct (py_max_primeiro minutos_de f0 resto) as (longo & Hl & _).
  destruct (py_min_primeiro minutos_de f0 resto) as (curto & Hc & _).
  assert (He : extremos_duracao (f0 :: resto) = Ok (Some longo, Some curto)).
  { unfold extremos_duracao. cbn [vazia].
    change (fun x : filme => duracao_em_minutos (duracao x)) with minutos_de.
    rewrite Hl. cbn [mbind resultado_bind]. rewrite Hc. reflexivity. }
  destruct (moda_diretores_eq (f0 :: resto)) as (mx & Hmoda & _ & Hex).
  destruct (adicionais_nao_vazio impl f0 resto) as (melhor & pior & _ & _ & Ha).
  cbv zeta in Ha.
  assert (Hr : exists r,
    exibir_estatisticas_completas impl (f0 :: resto) = Ok (Some r) /\
    r_total r = len (f0 :: resto) /\
    r_acima_6 r = filmes_acima_avaliacao (f0 :: resto) (PyFloat 6) true /\
    r_streaming r = filmes_em_streaming (f0 :: resto) /\
    r_extremos r = (Some longo, Some curto) /\
    r_moda r = List.filter (fun item => (snd item =? mx)%Z)
                 (Counter (map diretor (f0 :: resto))) /\
    exibir_estatisticas_adicionais impl (f0 :: resto) = Ok (r_adicionais r)).
  { unfold exibir_estatisticas_completas. cbn [vazia].
    rewrite Hq, Hm, He, Hmoda, Ha. cbn [mbind resultado_bind].
    eexists. split; [reflexivity |]. cbn [r_total r_acima_6 r_streaming
      r_extremos r_moda r_adicionais].
    repeat split; reflexivity. }
  destruct Hr as (r & Hr & Ht & Hac & Hst & Hext & Hmd & Had).
  exists r, longo, curto. split; [exact Hr |]. split.
  { unfold main. cbn [vazia negb]. rewrite Hr. reflexivity. }
  split; [exact Ht |]. rewrite Ht.
  split; [unfold len; cbn [length]; lia |].
  split; [exact Hac |]. split.
  { rewrite Hac. unfold filmes_acima_avaliacao. cbn [vazia].
    rewrite len_map. unfold len at 1.
    rewrite (Permutation_length (py_sorted_perm avaliacao true _)).
    apply len_filter_le. }
  split.
  { rewrite Hst. unfold filmes_em_streaming. rewrite len_map.
    apply len_filter_le. }
  split; [exact Hext |]. split; [| exact Had].
  rewrite Hmd. destruct Hex as [k Hk]; [discriminate |].
  intros E.
  assert (Hin : In (k, mx) (List.filter (fun item => (snd item =? mx)%Z)
                              (Counter (map diretor (f0 :: resto))))).
  { apply filter_In. split; [exact Hk | cbn; apply Z.eqb_refl]. }
  rewrite E in Hin. destruct Hin.
Qed.

(** The report of the catalogue rated 5, 6, 7, 8: four movies, two of them
    above 6.0. *)
Lemma X18_relatorio_completo_witness :
  Forall filme_limitado notas_5678 /\
  exists r,
    main Compensada notas_5678 = Ok (Some r) /\
    r_total r = 4%Z /\ r_acima_6 r = ["f8"; "f7"]%string /\
    (len (r_streaming r) <= 4)%Z.
Proof.
  assert (L : Forall filme_limitado notas_5678).
  { unfold notas_5678.
    repeat (apply List.Forall_cons;
            [repeat split; vm_compute; first [reflexivity | discriminate] |]).
    apply List.Forall_nil. }
  split; [exact L |].
  destruct (X18_relatorio_completo Compensada _ _ L)
    as (r & longo & curto & _ & Hm & Ht & _ & Ha & _ & Hs & _).
  exists r. split; [exact Hm |]. split; [exact Ht |]. split; [exact Ha |].
  rewrite Ht in Hs. exact Hs.
Defined.

(** ** The mean of int ratings, and the counts of the mode *)

Lemma notas_int_map (filmes : list filme) :
  Forall nota_int filmes ->
  map avaliacao filmes = map PyInt (map (fun f => py_int (avaliacao f)) filmes).
Proof.
  intros H. rewrite map_map. apply map_ext_in.
  intros f Hf. rewrite Forall_forall in H.
  destruct (H f) as (z & ->); [apply list_elem_of_In; exact Hf |].
  reflexivity.
Qed.

Lemma soma_Z_perm (l l' : list Z) : Permutation l l' -> soma_Z l = soma_Z l'.
Proof.
  induction 1 as [| x l l' _ IH | x y l | l l' l'' _ IH1 _ IH2].
  - reflexivity.
  - change (x + soma_Z l = x + soma_Z l')%Z. lia.
  - change (y + (x + soma_Z l) = x + (y + soma_Z l))%Z. lia.
  - congruence.
Qed.

(** X19: with int ratings the mean of [calcular_media_avaliacao] does not
    depend on the order of the catalogue, nor on how [sum] adds: the sum of
    ints is exact and only the division rounds. *)
Theorem X19_media_inteira_sem_ordem (impl impl' : soma_impl)
    (filmes filmes' : list filme) :
  Forall nota_int filmes -> Permutation filmes filmes' ->
  calcular_media_avaliacao impl filmes = calcular_media_avaliacao impl' filmes'.
Proof.
  intros Hi Hp.
  assert (Hi' : Forall nota_int filmes').
  { apply Forall_forall. intros f Hf. rewrite Forall_forall in Hi. apply Hi.
    apply list_elem_of_In. apply (Permutation_in _ (Permutation_sym Hp)).
    apply list_elem_of_In. exact Hf. }
  unfold calcular_media_avaliacao.
  destruct filmes as [|f0 resto], filmes' as [|g0 resto'].
  - reflexivity.
  - apply Permutation_nil in Hp. discriminate.
  - apply Permutation_sym, Permutation_nil in Hp. discriminate.
  - cbn [vazia]. cbv zeta.
    rewrite (notas_int_map _ Hi), (notas_int_map _ Hi'), !py_sum_ints, !len_map.
    rewrite (soma_Z_perm _ _ (Permutation_map _ Hp)).
    unfold len. rewrite (Permutation_length Hp). reflexivity.
Qed.

Lemma X19_media_inteira_sem_ordem_witness :
  Forall nota_int notas_5678 /\ Permutation notas_5678 (rev notas_5678) /\
  calcular_media_avaliacao Ingenua notas_5678 =
    calcular_media_avaliacao Compensada (rev notas_5678).
Proof.
  assert (H : Forall nota_int notas_5678).
  { repeat constructor; eexists; reflexivity. }
  assert (P : Permutation notas_5678 (rev notas_5678)) by apply Permutation_rev.
  split; [exact H |]. split; [exact P |].
  exact (X19_media_inteira_sem_ordem Ingenua Compensada _ _ H P).
Defined.

(** With float ratings and the sum from left to right the order counts:
    0.1, 0.2, 0.3 has the mean 0.20000000000000004, and 0.3, 0.2, 0.1 the
    mean 0.19999999999999998. *)
Example media_decimais_ordem :
  calcular_media_avaliacao Ingenua notas_123 =
    Ok (PyFloat (7205759403792795 # 36028797018963968)) /\
  calcular_media_avaliacao Ingenua (rev notas_123) =
    Ok (PyFloat (7205759403792793 # 36028797018963968)).
Proof. split; vm_compute; reflexivity. Qed.

Lemma soma_contar (e : string) (c : list (string * Z)) :
  soma_Z (map snd (contar e c)) = (soma_Z (map snd c) + 1)%Z.
Proof.
  induction c as [|[k v] r IH]; [reflexivity |].
  cbn [contar]. destruct (String.eqb k e); cbn [map snd].
  - change (v + 1 + soma_Z (map snd r) = v + soma_Z (map snd r) + 1)%Z. lia.
  - change (v + soma_Z (map snd (contar e r)) =
            v + soma_Z (map snd r) + 1)%Z. rewrite IH. lia.
Qed.

Lemma soma_Counter_desde (l : list string) (c : list (string * Z)) :
  soma_Z (map snd (fold_left (fun c elem => contar elem c) l c)) =
  (soma_Z (map snd c) + len l)%Z.
Proof.
  revert c. induction l as [|e r IH]; intros c; cbn [fold_left].
  - unfold len. cbn. lia.
  - rewrite IH, soma_contar. unfold len. cbn [length]. lia.
Qed.

Lemma soma_filter_le (p : string * Z -> bool) (c : list (string * Z)) :
  (forall k v, In (k, v) c -> (0 <= v)%Z) ->
  (soma_Z (map snd (List.filter p c)) <= soma_Z (map snd c))%Z.
Proof.
  induction c as [|[k v] r IH]; intros Hpos; [cbn; lia |].
  assert (Hv : (0 <= v)%Z) by (apply (Hpos k); left; reflexivity).
  assert (Hr : (soma_Z (map snd (List.filter p r)) <= soma_Z (map snd r))%Z).
  { apply IH. intros k' v' H. apply (Hpos k'). right. exact H. }
  cbn [List.filter]. destruct (p (k, v)); cbn [map snd].
  - change (v + soma_Z (map snd (List.filter p r)) <=
            v + soma_Z (map snd r))%Z. lia.
  - change (soma_Z (map snd (List.filter p r)) <=
            v + soma_Z (map snd r))%Z. lia.
Qed.

Lemma soma_iguais (m : Z) (c : list (string * Z)) :
  soma_Z (map snd (List.filter (fun item => (snd item =? m)%Z) c)) =
  (m * len (List.filter (fun item => (snd item =? m)%Z) c))%Z.
Proof.
  unfold len. induction c as [|[k v] r IH]; [cbn; lia |].
  cbn [List.filter snd]. destruct (Z.eqb_spec v m) as [-> | _]; [| exact IH].
  cbn [map snd length].
  change (m + soma_Z (map snd (List.filter (fun item => (snd item =? m)%Z) r)) =
          m * Z.of_nat (S (length (List.filter (fun item => (snd item =? m)%Z) r))))%Z.
  rewrite IH. lia.
Qed.

(** X20: the counts that [moda_diretores] takes from the [Counter] add up to
    the number of movies; so the directors of the mode, each with the same
    count, account for at most all movies: the number of directors returned
    times their count is at most the size of the catalogue. *)
Theorem X20_moda_contagens (filmes : list filme) :
  soma_Z (map snd (Counter (map diretor filmes))) = len filmes /\
  exists moda,
    moda_diretores filmes = Ok moda /\
    (len moda <= len filmes)%Z /\
    forall d c, In (d, c) moda ->
      (1 <= c)%Z /\ (len moda * c <= len filmes)%Z.
Proof.
  assert (Hsoma : soma_Z (map snd (Counter (map diretor filmes))) = len filmes).
  { unfold Counter. rewrite soma_Counter_desde, len_map. cbn. lia. }
  split; [exact Hsoma |].
  destruct (moda_diretores_eq filmes) as (m & Hm & _ & _).
  eexists. split; [exact Hm |].
  set (c0 := Counter (map diretor filmes)) in *.
  set (moda := List.filter (fun item => (snd item =? m)%Z) c0).
  destruct (Counter_contador (map diretor filmes)) as [_ Hcont]. fold c0 in Hcont.
  assert (Hpos : forall k v, In (k, v) c0 -> (1 <= v)%Z).
  { intros k v H. apply Hcont in H. destruct H as [Hk ->].
    apply conta_pos_iff in Hk. lia. }
  assert (Hle : (m * len moda <= len filmes)%Z).
  { rewrite <- Hsoma. unfold moda. rewrite <- soma_iguais.
    apply soma_filter_le. intros k v H. specialize (Hpos k v H). lia. }
  assert (Hc : forall d c, In (d, c) moda -> c = m /\ (1 <= c)%Z).
  { intros d c H. apply filter_In in H. destruct H as [H1 H2]. cbn in H2.
    apply Z.eqb_eq in H2. split; [exact H2 | exact (Hpos d c H1)]. }
  split.
  - destruct moda as [|[d c] r] eqn:E; [apply len_nonneg |].
    destruct (Hc d c) as [-> H1]; [left; reflexivity |].
    pose proof (len_nonneg ((d, m) :: r)). nia.
  - intros d c H. destruct (Hc d c H) as [-> H1]. split; [exact H1 | lia].
Qed.
